(** * DNSViz status evaluators (dnsviz/analysis/status.py)

    A shallow embedding of the status classes of [dnsviz.analysis.status]:
    [RRSIGStatus], [DSStatus], the three NSEC and the three NSEC3
    proof-of-denial classes and [CNAMEFromDNAMEStatus], followed by the
    properties their specification states about them.

    Python objects become records, [self.x = ...] sequences become explicit
    state passing, and every place where the interpreter can raise
    ([KeyError] on a dict lookup, [NoParent] from [dns.name.Name.parent],
    [NameError] on an unbound local, [AttributeError] on [None],
    [IndexError] on [l[0]], [ValueError] from a timestamp that is no
    [datetime], [NameTooLong] from [dns.name.from_text]) is a
    [Raise] in the [result] monad. *)

From Stdlib Require Import ZArith List String Bool Lia ListSet.
From Stdlib.Strings Require Byte.
Import ListNotations.
Local Open Scope string_scope.
Local Open Scope list_scope.
Local Open Scope Z_scope.

(* ------------------------------------------------------------------ *)
(** ** Exceptions and results *)

Inductive exn : Type :=
| KeyError
| NoParent
| NameError
| AttributeError
| IndexError
| ValueError
| NameTooLong.

Inductive result (A : Type) : Type :=
| Ok (a : A)
| Raise (e : exn).

Arguments Ok {A} a.
Arguments Raise {A} e.

Definition bind {A B} (r : result A) (k : A -> result B) : result B :=
  match r with
  | Ok a => k a
  | Raise e => Raise e
  end.

Notation "x <- e ;; k" := (bind e (fun x => k))
  (at level 61, e at next level, right associativity).
Notation "' pat <- e ;; k" := (bind e (fun x => match x with pat => k end))
  (at level 61, pat pattern, e at next level, right associativity).

(** [try: body except KeyError: handler] *)
Definition try_KeyError {A} (body : result A) (handler : result A) : result A :=
  match body with
  | Raise KeyError => handler
  | r => r
  end.

(** Python truthiness of a list, set or dict. *)
Definition truthy {A} (l : list A) : bool :=
  match l with
  | [] => false
  | _ :: _ => true
  end.

(* ------------------------------------------------------------------ *)
(** ** DNS names (dns.name.Name)

    A name is its tuple of labels, leftmost label first; an absolute name
    ends with the empty label.  Names are kept in canonical (lower-case)
    form, so that [==] on names is equality of the label lists.  A [Name]
    object takes at most 255 octets on the wire; [dns.name.from_text] checks
    that bound on the name it builds and raises [NameTooLong] beyond it. *)

Definition label := string.
Definition name := list label.

Definition name_eq_dec : forall a b : name, {a = b} + {a <> b} :=
  list_eq_dec string_dec.

Definition name_eqb (a b : name) : bool :=
  if name_eq_dec a b then true else false.

Module dns_name.

Definition root : name := [""].
Definition empty : name := [].

Definition is_absolute (n : name) : bool :=
  match rev n with
  | l :: _ => if string_dec l "" then true else false
  | [] => false
  end.

(** [Name.parent()]: raises [NoParent] on the root and on the empty name. *)
Definition parent (n : name) : result name :=
  match n with
  | [] => Raise NoParent
  | _ :: p => if name_eqb n root then Raise NoParent else Ok p
  end.

(** the octets of a name on the wire: one length octet and the text of each
    label, the root label included *)
Definition wire_length (n : name) : Z :=
  fold_right (fun l acc => Z.of_nat (String.length l) + 1 + acc) 0 n.

(** the labels of [*.origin] *)
Definition from_text_star (origin : name) : name := "*" :: origin.

(** [dns.name.from_text('*', origin)]: the name [*.origin], or [NameTooLong]
    when its labels take more than 255 octets, that is when [origin] takes
    more than 253.  In the scans the argument is the parent of a name that
    is not the root, at least two octets shorter than that name, so the call
    cannot raise there and is written [from_text_star]. *)
Definition from_text (origin : name) : result name :=
  if wire_length (from_text_star origin) >? 255
  then Raise NameTooLong
  else Ok (from_text_star origin).

Fixpoint is_suffix (s n : name) : bool :=
  if name_eqb n s then true
  else match n with
       | [] => false
       | _ :: p => is_suffix s p
       end.

(** [self.is_subdomain(other)]: the relation is SUBDOMAIN or EQUAL; names
    of different absoluteness are unrelated. *)
Definition is_subdomain (self other : name) : bool :=
  Bool.eqb (is_absolute self) (is_absolute other) && is_suffix other self.

(** [labels[-k:]] *)
Definition labels_last (k : nat) (n : name) : name :=
  match k with
  | O => n
  | S _ => skipn (List.length n - k) n
  end.

End dns_name.

(** Python sets of names are lists read up to membership. *)
Definition name_set := set name.

Definition set_update (s t : name_set) : name_set := set_union name_eq_dec s t.

Definition name_mem (n : name) (s : name_set) : bool := set_mem name_eq_dec n s.

(** dict lookup and item assignment on an association list *)
Fixpoint dict_get {K V} (eqb : K -> K -> bool) (k : K) (d : list (K * V)) : option V :=
  match d with
  | [] => None
  | (k', v) :: d' => if eqb k k' then Some v else dict_get eqb k d'
  end.

Fixpoint dict_set {K V} (eqb : K -> K -> bool) (k : K) (v : V) (d : list (K * V))
  : list (K * V) :=
  match d with
  | [] => [(k, v)]
  | (k', v') :: d' =>
      if eqb k k' then (k, v) :: d' else (k', v') :: dict_set eqb k v d'
  end.

Definition dict_keys {K V} (d : list (K * V)) : list K := map fst d.
Definition dict_values {K V} (d : list (K * V)) : list V := map snd d.

(* ------------------------------------------------------------------ *)
(** ** Status constants *)

Definition STATUS_VALID : Z := 0.
Definition STATUS_INDETERMINATE : Z := 1.
Definition STATUS_INVALID : Z := 2.

Definition RRSIG_STATUS_VALID : Z := STATUS_VALID.
Definition RRSIG_STATUS_INDETERMINATE_NO_DNSKEY : Z := 1.
Definition RRSIG_STATUS_INDETERMINATE_MATCH_PRE_REVOKE : Z := 2.
Definition RRSIG_STATUS_INDETERMINATE_UNKNOWN_ALGORITHM : Z := 3.
Definition RRSIG_STATUS_EXPIRED : Z := 4.
Definition RRSIG_STATUS_PREMATURE : Z := 5.
Definition RRSIG_STATUS_INVALID_SIG : Z := 6.
Definition RRSIG_STATUS_INVALID : Z := 7.

Definition DS_STATUS_VALID : Z := STATUS_VALID.
Definition DS_STATUS_INDETERMINATE_NO_DNSKEY : Z := 1.
Definition DS_STATUS_INDETERMINATE_MATCH_PRE_REVOKE : Z := 2.
Definition DS_STATUS_INDETERMINATE_UNKNOWN_ALGORITHM : Z := 3.
Definition DS_STATUS_INVALID_DIGEST : Z := 4.
Definition DS_STATUS_INVALID : Z := 7.

Definition NSEC_STATUS_VALID : Z := STATUS_VALID.
Definition NSEC_STATUS_INDETERMINATE : Z := STATUS_INDETERMINATE.
Definition NSEC_STATUS_INVALID : Z := 2.

Definition DNAME_STATUS_VALID : Z := STATUS_VALID.
Definition DNAME_STATUS_INDETERMINATE : Z := STATUS_INDETERMINATE.
Definition DNAME_STATUS_INVALID_TARGET : Z := 2.
Definition DNAME_STATUS_INVALID : Z := 3.

(** logging levels *)
Definition logging_DEBUG : Z := 10.
Definition logging_INFO : Z := 20.
Definition logging_WARNING : Z := 30.
Definition logging_ERROR : Z := 40.

(** dns.rdatatype *)
Definition rdatatype_NS : Z := 2.
Definition rdatatype_SOA : Z := 6.
Definition rdatatype_CNAME : Z := 5.
Definition rdatatype_DS : Z := 43.
Definition rdatatype_DNSKEY : Z := 48.

(** Modelled from the spec: [fmt.DNSKEY_FLAGS['revoke']], the table of
    dnsviz/format.py; the revoke bit of the DNSKEY flags is 0x0080. *)
Definition DNSKEY_FLAGS_revoke : Z := 128.

(* ------------------------------------------------------------------ *)
(** ** The error catalogue (errors.py instances, by class and fields) *)

Inductive Error : Type :=
| AlgorithmNotSupported (algorithm : Z)
| RRsetTTLMismatch (rrset_ttl rrsig_ttl : Z)
| OriginalTTLExceeded (rrset_ttl original_ttl : Z)
| SignerNotZone (zone_name signer_name : name)
| DNSKEYRevokedRRSIG
| InceptionInFuture (inception reference_time : Z)
| ExpirationInPast (expiration reference_time : Z)
| TTLBeyondExpiration (expiration rrsig_ttl reference_time : Z)
| SignatureInvalid
| DigestAlgorithmNotSupported (algorithm : Z)
| DNSKEYRevokedDS
| DigestInvalid
| SnameNotCoveredNameError (sname : name)
| WildcardNotCoveredNSEC (wildcard : name)
| LastNSECNextNotZone (nsec_owner next_name zone_name : name)
| WildcardExpansionInvalid (sname wildcard next_closest_encloser : name)
| SnameNotCoveredWildcardAnswer (sname : name)
| ReferralWithoutNSBitNSEC (sname : name)
| ReferralWithDSBitNSEC (sname : name)
| ReferralWithSOABitNSEC (sname : name)
| StypeInBitmapNoDataNSEC (sname : name) (stype : Z)
| SnameNotCoveredWildcardNoData (sname : name)
| NoNSECMatchingSnameNoData (sname : name)
| UnsupportedNSEC3Algorithm (algorithm : Z)
| NoClosestEncloserNameError (sname : name)
| NextClosestEncloserNotCoveredNameError (next_closest_encloser : name)
| WildcardNotCoveredNSEC3 (wildcard : name)
| NextClosestEncloserNotCoveredWildcardAnswer (next_closest_encloser : name)
| WildcardCoveredAnswerNSEC3 (next_closest_encloser : name)
| ReferralWithoutNSBitNSEC3 (sname : name)
| ReferralWithDSBitNSEC3 (sname : name)
| ReferralWithSOABitNSEC3 (sname : name)
| StypeInBitmapNoDataNSEC3 (sname : name) (stype : Z)
| NextClosestEncloserNotCoveredWildcardNoData (next_closest_encloser : name)
| StypeInBitmapWildcardNoDataNSEC3 (sname : name) (stype : Z)
| NoNSEC3MatchingSnameDSNoData (sname : name)
| NoNSEC3MatchingSnameNoData (sname : name)
| DNAMENoCNAME
| DNAMETargetMismatch
| DNAMETTLZero
| DNAMETTLMismatch.

Definition Error_eq_dec : forall a b : Error, {a = b} + {a <> b}.
Proof.
  decide equality; try apply Z.eq_dec; apply name_eq_dec.
Defined.

(** [e in errors] *)
Definition error_in (e : Error) (l : list Error) : bool :=
  existsb (fun x => if Error_eq_dec e x then true else false) l.

(* ------------------------------------------------------------------ *)
(** ** Input records (read-only collaborators of the evaluators) *)

Definition bytes := list Byte.byte.

(** [crypto.validate_rrsig] and [crypto.validate_ds_digest]: [True], [False]
    or [None] (algorithm not supported). *)
Module crypto.
Record t : Type := {
  validate_rrsig : Z -> bytes -> bytes -> bytes -> option bool;
  validate_ds_digest : Z -> bytes -> bytes -> option bool
}.
End crypto.

(** [fmt.timestamp_to_datetime] of dnsviz/format.py, which is
    [datetime.datetime.fromtimestamp(timestamp, utc)]: a [datetime] holds the
    years 1 to 9999, and a timestamp outside them raises [ValueError].  The
    [datetime] of a timestamp is kept as that timestamp. *)
Module fmt.

(** 0001-01-01T00:00:00Z and 9999-12-31T23:59:59Z *)
Definition datetime_min : Z := -62135596800.
Definition datetime_max : Z := 253402300799.

Definition representable (timestamp : Z) : bool :=
  (datetime_min <=? timestamp) && (timestamp <=? datetime_max).

Definition timestamp_to_datetime (timestamp : Z) : result Z :=
  if representable timestamp then Ok timestamp else Raise ValueError.

End fmt.

Module RRSIG.
Record t : Type := {
  covers : Z;
  algorithm : Z;
  labels : Z;
  original_ttl : Z;
  inception : Z;
  expiration : Z;
  key_tag : Z;
  signer : name;
  signature : bytes
}.
End RRSIG.

Module DNSKEY.
Record rdata_t : Type := {
  flags : Z;
  algorithm : Z;
  key : bytes
}.
Record t : Type := {
  rdata : rdata_t;
  key_tag : Z;
  key_tag_no_revoke : Z;
  message_for_ds : bytes
}.
End DNSKEY.

Module DS.
Record t : Type := {
  key_tag : Z;
  algorithm : Z;
  digest_type : Z;
  digest : bytes
}.
End DS.

(** [servers_clients] is carried through to serialization untouched. *)
Definition servers_clients_t := list ((string * string) * list Z).

Module RRsetInfo.
Record rrsig_info_t : Type := {
  ttl : Z;
  servers_clients : servers_clients_t
}.
(** [rrset.rrset.name], [rrset.rrset.rdtype], [rrset.rrset.ttl], the dict
    [rrset.rrsig_info] (a lookup of a missing key raises [KeyError]) and
    [rrset.message_for_rrsig]. *)
Record t : Type := {
  rrset_name : name;
  rrset_rdtype : Z;
  rrset_ttl : Z;
  rrsig_info : RRSIG.t -> option rrsig_info_t;
  message_for_rrsig : RRSIG.t -> bytes;
  servers_clients_of : servers_clients_t
}.

Definition rrsig_info_getitem (r : t) (sig : RRSIG.t) : result rrsig_info_t :=
  match rrsig_info r sig with
  | Some i => Ok i
  | None => Raise KeyError
  end.
End RRsetInfo.

(** The evaluation in progress: [self.validation_status], [self.warnings],
    [self.errors]. *)
Record progress : Type := {
  p_status : Z;
  p_warnings : list Error;
  p_errors : list Error
}.

Definition warn (w : Error) (p : progress) : progress :=
  {| p_status := p_status p; p_warnings := p_warnings p ++ [w]; p_errors := p_errors p |}.

Definition err (e : Error) (p : progress) : progress :=
  {| p_status := p_status p; p_warnings := p_warnings p; p_errors := p_errors p ++ [e] |}.

(** [self.validation_status = s] *)
Definition set_status (s : Z) (p : progress) : progress :=
  {| p_status := s; p_warnings := p_warnings p; p_errors := p_errors p |}.

(** [if self.validation_status == VALID: self.validation_status = s] *)
Definition set_if_valid (s : Z) (p : progress) : progress :=
  if p_status p =? STATUS_VALID then set_status s p else p.

Definition is_None {A} (o : option A) : bool :=
  match o with None => true | Some _ => false end.

(** [x == False] for a value that is [True], [False] or [None] *)
Definition eq_False (o : option bool) : bool :=
  match o with Some false => true | _ => false end.

(** truth value of [flags & mask] *)
Definition flag_set (flags mask : Z) : bool := negb (Z.land flags mask =? 0).

(* ------------------------------------------------------------------ *)
(** ** RRSIGStatus *)

Module RRSIGStatus.

Record t : Type := {
  rrset : RRsetInfo.t;
  rrsig : RRSIG.t;
  dnskey : option DNSKEY.t;
  zone_name : option name;
  reference_ts : Z;
  algorithm_unknown : bool;
  warnings : list Error;
  errors : list Error;
  signature_valid : option bool;
  validation_status : Z
}.

(** lines 153-156 *)
Definition compute_signature_valid (c : crypto.t) (rrset : RRsetInfo.t)
    (rrsig : RRSIG.t) (dnskey : option DNSKEY.t) : option bool :=
  match dnskey with
  | None => None
  | Some k =>
      crypto.validate_rrsig c (DNSKEY.algorithm (DNSKEY.rdata k))
        (RRSIG.signature rrsig) (RRsetInfo.message_for_rrsig rrset rrsig)
        (DNSKEY.key (DNSKEY.rdata k))
  end.

(** lines 159-166 *)
Definition check_keying (rrsig : RRSIG.t) (dnskey : option DNSKEY.t)
    (algorithm_unknown : bool) (signature_valid : option bool)
    (p : progress) : progress :=
  if is_None signature_valid || algorithm_unknown then
    match dnskey with
    | None => set_if_valid RRSIG_STATUS_INDETERMINATE_NO_DNSKEY p
    | Some _ =>
        warn (AlgorithmNotSupported (RRSIG.algorithm rrsig))
          (set_if_valid RRSIG_STATUS_INDETERMINATE_UNKNOWN_ALGORITHM p)
    end
  else p.

(** lines 168-171; [info] is [self.rrset.rrsig_info[self.rrsig]] *)
Definition check_ttl (rrset : RRsetInfo.t) (rrsig : RRSIG.t)
    (info : RRsetInfo.rrsig_info_t) (p : progress) : progress :=
  let p :=
    if negb (RRsetInfo.rrset_ttl rrset =? RRsetInfo.ttl info)
    then warn (RRsetTTLMismatch (RRsetInfo.rrset_ttl rrset) (RRsetInfo.ttl info)) p
    else p in
  if RRsetInfo.ttl info >? RRSIG.original_ttl rrsig
  then err (OriginalTTLExceeded (RRsetInfo.rrset_ttl rrset) (RRSIG.original_ttl rrsig)) p
  else p.

(** line 173 *)
Definition min_ttl (rrset : RRsetInfo.t) (rrsig : RRSIG.t)
    (info : RRsetInfo.rrsig_info_t) : Z :=
  Z.min (Z.min (RRsetInfo.rrset_ttl rrset) (RRsetInfo.ttl info))
        (RRSIG.original_ttl rrsig).

(** the condition of lines 175-176 *)
Definition signer_mismatch (rrset : RRsetInfo.t) (rrsig : RRSIG.t)
    (zone_name : option name) : bool :=
  match zone_name with
  | Some zn => negb (name_eqb (RRSIG.signer rrsig) zn)
  | None => negb (dns_name.is_subdomain (RRsetInfo.rrset_name rrset) (RRSIG.signer rrsig))
  end.

(** lines 175-183 *)
Definition check_signer (rrset : RRsetInfo.t) (rrsig : RRSIG.t)
    (zone_name : option name) (p : progress) : progress :=
  if signer_mismatch rrset rrsig zone_name then
    let p := set_if_valid RRSIG_STATUS_INVALID p in
    let zn := match zone_name with
              | None => RRSIG.signer rrsig
              | Some z => z
              end in
    err (SignerNotZone zn (RRSIG.signer rrsig)) p
  else p.

(** lines 185-193 *)
Definition check_revoke (rrsig : RRSIG.t) (dnskey : option DNSKEY.t)
    (p : progress) : progress :=
  match dnskey with
  | Some k =>
      if flag_set (DNSKEY.flags (DNSKEY.rdata k)) DNSKEY_FLAGS_revoke
         && negb (RRSIG.covers rrsig =? rdatatype_DNSKEY)
      then
        if negb (RRSIG.key_tag rrsig =? DNSKEY.key_tag k)
        then set_if_valid RRSIG_STATUS_INDETERMINATE_MATCH_PRE_REVOKE p
        else set_if_valid RRSIG_STATUS_INVALID (err DNSKEYRevokedRRSIG p)
      else p
  | None => p
  end.

(** lines 195-204; each error is built from the [datetime] of the two
    timestamps it reports, and a conversion that raises ends the
    constructor *)
Definition check_window (rrsig : RRSIG.t) (reference_ts min_ttl : Z)
    (p : progress) : result progress :=
  p <- (if reference_ts <? RRSIG.inception rrsig then
          let p := set_if_valid RRSIG_STATUS_PREMATURE p in
          inception <- fmt.timestamp_to_datetime (RRSIG.inception rrsig) ;;
          reference_time <- fmt.timestamp_to_datetime reference_ts ;;
          Ok (err (InceptionInFuture inception reference_time) p)
        else Ok p) ;;
  if reference_ts >=? RRSIG.expiration rrsig then
    let p := set_if_valid RRSIG_STATUS_EXPIRED p in
    expiration <- fmt.timestamp_to_datetime (RRSIG.expiration rrsig) ;;
    reference_time <- fmt.timestamp_to_datetime reference_ts ;;
    Ok (err (ExpirationInPast expiration reference_time) p)
  else if reference_ts + min_ttl >=? RRSIG.expiration rrsig then
    expiration <- fmt.timestamp_to_datetime (RRSIG.expiration rrsig) ;;
    reference_time <- fmt.timestamp_to_datetime reference_ts ;;
    Ok (err (TTLBeyondExpiration expiration min_ttl reference_time) p)
  else Ok p.

(** the progress [check_window] returns when no conversion raises *)
Definition window_progress (rrsig : RRSIG.t) (reference_ts min_ttl : Z)
    (p : progress) : progress :=
  let p :=
    if reference_ts <? RRSIG.inception rrsig
    then err (InceptionInFuture (RRSIG.inception rrsig) reference_ts)
           (set_if_valid RRSIG_STATUS_PREMATURE p)
    else p in
  if reference_ts >=? RRSIG.expiration rrsig
  then err (ExpirationInPast (RRSIG.expiration rrsig) reference_ts)
         (set_if_valid RRSIG_STATUS_EXPIRED p)
  else if reference_ts + min_ttl >=? RRSIG.expiration rrsig
  then err (TTLBeyondExpiration (RRSIG.expiration rrsig) min_ttl reference_ts) p
  else p.

(** the timestamps [check_window] converts on this input are all
    representable *)
Definition window_representable (rrsig : RRSIG.t) (reference_ts min_ttl : Z) : bool :=
  (negb (reference_ts <? RRSIG.inception rrsig)
   || (fmt.representable (RRSIG.inception rrsig) && fmt.representable reference_ts))
  && (negb ((reference_ts >=? RRSIG.expiration rrsig)
            || (reference_ts + min_ttl >=? RRSIG.expiration rrsig))
      || (fmt.representable (RRSIG.expiration rrsig) && fmt.representable reference_ts)).

(** lines 206-211; [self.dnskey.key_tag] on [None] raises *)
Definition check_signature (rrsig : RRSIG.t) (dnskey : option DNSKEY.t)
    (algorithm_unknown : bool) (signature_valid : option bool)
    (p : progress) : result progress :=
  if negb algorithm_unknown && eq_False signature_valid then
    match dnskey with
    | None => Raise AttributeError
    | Some k =>
        if DNSKEY.key_tag k =? RRSIG.key_tag rrsig
        then Ok (err SignatureInvalid (set_if_valid RRSIG_STATUS_INVALID_SIG p))
        else Ok p
    end
  else Ok p.

Definition __init__ (c : crypto.t) (rrset : RRsetInfo.t) (rrsig : RRSIG.t)
    (dnskey : option DNSKEY.t) (zone_name : option name) (reference_ts : Z)
    (algorithm_unknown : bool) : result t :=
  let signature_valid := compute_signature_valid c rrset rrsig dnskey in
  let p := {| p_status := RRSIG_STATUS_VALID; p_warnings := []; p_errors := [] |} in
  let p := check_keying rrsig dnskey algorithm_unknown signature_valid p in
  info <- RRsetInfo.rrsig_info_getitem rrset rrsig ;;
  let p := check_ttl rrset rrsig info p in
  let p := check_signer rrset rrsig zone_name p in
  let p := check_revoke rrsig dnskey p in
  p <- check_window rrsig reference_ts (min_ttl rrset rrsig info) p ;;
  p <- check_signature rrsig dnskey algorithm_unknown signature_valid p ;;
  Ok {| rrset := rrset; rrsig := rrsig; dnskey := dnskey; zone_name := zone_name;
        reference_ts := reference_ts; algorithm_unknown := algorithm_unknown;
        warnings := p_warnings p; errors := p_errors p;
        signature_valid := signature_valid;
        validation_status := p_status p |}.

End RRSIGStatus.

(* ------------------------------------------------------------------ *)
(** ** DSStatus *)

Module DSMeta.
(** [ds_meta.rrset] and [ds_meta.servers_clients] *)
Record t : Type := {
  rrset_name : name;
  rrset_rdtype : Z;
  rrset_ttl : Z;
  servers_clients : servers_clients_t
}.
End DSMeta.

Module DSStatus.

Record t : Type := {
  ds : DS.t;
  ds_meta : DSMeta.t;
  dnskey : option DNSKEY.t;
  digest_algorithm_unknown : bool;
  warnings : list Error;
  errors : list Error;
  digest_valid : option bool;
  validation_status : Z
}.

(** lines 275-278 *)
Definition compute_digest_valid (c : crypto.t) (ds : DS.t)
    (dnskey : option DNSKEY.t) : option bool :=
  match dnskey with
  | None => None
  | Some k =>
      crypto.validate_ds_digest c (DS.digest_type ds) (DS.digest ds)
        (DNSKEY.message_for_ds k)
  end.

(** lines 281-288 *)
Definition check_keying (ds : DS.t) (dnskey : option DNSKEY.t)
    (digest_algorithm_unknown : bool) (digest_valid : option bool)
    (p : progress) : progress :=
  if is_None digest_valid || digest_algorithm_unknown then
    match dnskey with
    | None => set_if_valid DS_STATUS_INDETERMINATE_NO_DNSKEY p
    | Some _ =>
        warn (DigestAlgorithmNotSupported (DS.digest_type ds))
          (set_if_valid DS_STATUS_INDETERMINATE_UNKNOWN_ALGORITHM p)
    end
  else p.

(** lines 290-298 *)
Definition check_revoke (ds : DS.t) (dnskey : option DNSKEY.t)
    (p : progress) : progress :=
  match dnskey with
  | Some k =>
      if flag_set (DNSKEY.flags (DNSKEY.rdata k)) DNSKEY_FLAGS_revoke then
        if negb (DNSKEY.key_tag k =? DS.key_tag ds)
        then set_if_valid DS_STATUS_INDETERMINATE_MATCH_PRE_REVOKE p
        else set_if_valid DS_STATUS_INVALID (err DNSKEYRevokedDS p)
      else p
  | None => p
  end.

(** lines 300-305; [self.dnskey.key_tag] on [None] raises *)
Definition check_digest (ds : DS.t) (dnskey : option DNSKEY.t)
    (digest_algorithm_unknown : bool) (digest_valid : option bool)
    (p : progress) : result progress :=
  if negb digest_algorithm_unknown && eq_False digest_valid then
    match dnskey with
    | None => Raise AttributeError
    | Some k =>
        if DNSKEY.key_tag k =? DS.key_tag ds
        then Ok (err DigestInvalid (set_if_valid DS_STATUS_INVALID_DIGEST p))
        else Ok p
    end
  else Ok p.

Definition __init__ (c : crypto.t) (ds : DS.t) (ds_meta : DSMeta.t)
    (dnskey : option DNSKEY.t) (digest_algorithm_unknown : bool) : result t :=
  let digest_valid := compute_digest_valid c ds dnskey in
  let p := {| p_status := DS_STATUS_VALID; p_warnings := []; p_errors := [] |} in
  let p := check_keying ds dnskey digest_algorithm_unknown digest_valid p in
  let p := check_revoke ds dnskey p in
  p <- check_digest ds dnskey digest_algorithm_unknown digest_valid p ;;
  Ok {| ds := ds; ds_meta := ds_meta; dnskey := dnskey;
        digest_algorithm_unknown := digest_algorithm_unknown;
        warnings := p_warnings p; errors := p_errors p;
        digest_valid := digest_valid;
        validation_status := p_status p |}.

End DSStatus.

(* ------------------------------------------------------------------ *)
(** ** CNAMEFromDNAMEStatus *)

Module CNAMEInfo.
(** [x.rrset.name], [x.rrset.ttl] and [x.rrset[0].target] *)
Record t : Type := {
  rrset_name : name;
  rrset_ttl : Z;
  target : name
}.
End CNAMEInfo.

Module DNAMEInfo.
(** [synthesized_cname.dname_info] *)
Record t : Type := {
  rrset_name : name;
  rrset_rdtype : Z;
  servers_clients : servers_clients_t
}.
End DNAMEInfo.

Module SynthesizedCNAME.
Record t : Type := {
  cname : CNAMEInfo.t;
  dname_info : DNAMEInfo.t
}.
End SynthesizedCNAME.

Module CNAMEFromDNAMEStatus.

Record t : Type := {
  synthesized_cname : SynthesizedCNAME.t;
  included_cname : option CNAMEInfo.t;
  warnings : list Error;
  errors : list Error;
  validation_status : Z
}.

(** lines 1279-1291 *)
Definition evaluate (synthesized_cname : SynthesizedCNAME.t)
    (included_cname : option CNAMEInfo.t) : progress :=
  let p := {| p_status := DNAME_STATUS_VALID; p_warnings := []; p_errors := [] |} in
  match included_cname with
  | None => err DNAMENoCNAME (set_status DNAME_STATUS_INVALID p)
  | Some inc =>
      let syn := SynthesizedCNAME.cname synthesized_cname in
      let p := set_status DNAME_STATUS_VALID p in
      let p :=
        if negb (name_eqb (CNAMEInfo.target inc) (CNAMEInfo.target syn))
        then set_status DNAME_STATUS_INVALID_TARGET (err DNAMETargetMismatch p)
        else p in
      if negb (CNAMEInfo.rrset_ttl inc =? CNAMEInfo.rrset_ttl syn) then
        if CNAMEInfo.rrset_ttl inc =? 0
        then warn DNAMETTLZero p
        else warn DNAMETTLMismatch p
      else p
  end.

Definition __init__ (synthesized_cname : SynthesizedCNAME.t)
    (included_cname : option CNAMEInfo.t) : t :=
  let p := evaluate synthesized_cname included_cname in
  {| synthesized_cname := synthesized_cname; included_cname := included_cname;
     warnings := p_warnings p; errors := p_errors p;
     validation_status := p_status p |}.

End CNAMEFromDNAMEStatus.

(* ------------------------------------------------------------------ *)
(** ** The NSEC set view (nsec_set_info)

    The view class lives in dnsviz/response.py; the evaluators use it through
    the attributes and methods below.  What the view computes (covering
    names, digests, closest enclosers, algorithm support) is a field of the
    record; the dict [rrsets] is an association list in iteration order. *)

Module NSECSet.

(** [(salt, alg, iterations)] *)
Definition params : Type := bytes * Z * Z.

Definition params_eqb (a b : params) : bool :=
  let '(s1, a1, i1) := a in
  let '(s2, a2, i2) := b in
  (if list_eq_dec Byte.byte_eq_dec s1 s2 then true else false)
  && (a1 =? a2) && (i1 =? i2).

(** [rrsets[n].rrset[0]]: the first NSEC or NSEC3 record of the RRset *)
Record rr_t : Type := {
  next : name;
  flags : Z;
  types : list Z
}.

(** [rrsets[n]]: [.rrset.name] and [.rrset[0]] *)
Record rrset_info_t : Type := {
  rrset_name : name;
  rrset_0 : rr_t
}.

Record t : Type := {
  rrsets : list (name * rrset_info_t);
  referral : bool;
  nsec_covering_name : name -> name_set;
  nsec3_params : list (params * name_set);
  get_digest_name_for_nsec3 : name -> name -> bytes -> Z -> Z -> option name;
  nsec3_covering_name : name -> bytes -> Z -> Z -> name_set;
  get_closest_encloser : name -> name -> list (name * name_set);
  get_algorithm_support : list Z * list Z;
  servers_clients : servers_clients_t
}.

(** [nsec_set_info.rrsets[n]] *)
Definition rrsets_getitem (v : t) (n : name) : result rrset_info_t :=
  match dict_get name_eqb n (rrsets v) with
  | Some r => Ok r
  | None => Raise KeyError
  end.

(** the owner names, [list(nsec_set_info.rrsets)] *)
Definition owners (v : t) : list name := dict_keys (rrsets v).

(** Modelled from the spec: [rdtype_exists_in_bitmap(owner, rdtype)] of the
    view class (dnsviz/response.py), the test of [rdtype] in the type bitmap
    of the record at [owner]; the lookup [self.rrsets[owner]] raises
    [KeyError] for an owner the view does not hold. *)
Definition rdtype_exists_in_bitmap (v : t) (n : name) (rdtype : Z) : result bool :=
  r <- rrsets_getitem v n ;;
  Ok (existsb (Z.eqb rdtype) (types (rrset_0 r))).

(** Modelled from the spec: [project] of the view class
    (dnsviz/response.py), "an equivalent view restricted to those owners":
    a copy that keeps the RRsets of the given owners. *)
Definition project (v : t) (names : list name) : t :=
  let keep (n : name) := name_mem n names in
  {| rrsets := filter (fun kv => keep (fst kv)) (rrsets v);
     referral := referral v;
     nsec_covering_name := fun n => filter keep (nsec_covering_name v n);
     nsec3_params := map (fun kv => (fst kv, filter keep (snd kv))) (nsec3_params v);
     get_digest_name_for_nsec3 := get_digest_name_for_nsec3 v;
     nsec3_covering_name := fun d s a i => filter keep (nsec3_covering_name v d s a i);
     get_closest_encloser :=
       fun q o => map (fun kv => (fst kv, filter keep (snd kv))) (get_closest_encloser v q o);
     get_algorithm_support := get_algorithm_support v;
     servers_clients := servers_clients v |}.

End NSECSet.

(** [covering_names = set(); for names in l: covering_names.update(names)] *)
Definition update_all (l : list name_set) : name_set :=
  fold_left set_update l (empty_set name).

(** [nsec_names[d] = covering_names] guarded by [if covering_names:] *)
Definition record_covering (k : name) (covering_names : name_set)
    (d : list (name * name_set)) : list (name * name_set) :=
  if truthy covering_names then dict_set name_eqb k covering_names d else d.

(** lines 408-410, 520-522 and 638-640: the error for an NSEC that covers
    the origin *)
Definition LastNSECNextNotZone_of (nsec_names_covering_origin : list (name * name_set))
    (origin : name) (v : NSECSet.t) : result Error :=
  match nsec_names_covering_origin with
  | [] => Raise IndexError
  | (_, nsec_names) :: _ =>
      match nsec_names with
      | [] => Raise IndexError
      | n :: _ =>
          info <- NSECSet.rrsets_getitem v n ;;
          Ok (LastNSECNextNotZone (NSECSet.rrset_name info)
                (NSECSet.next (NSECSet.rrset_0 info)) origin)
      end
  end.

(* ------------------------------------------------------------------ *)
(** ** NSECStatusNXDOMAIN and NSECStatusWildcard *)

Module NSECStatusNXDOMAIN.

(** the attributes set by [__init__] before [_set_validation_status] *)
Record fields : Type := {
  qname : name;
  origin : name;
  wildcard_name : name;
  nsec_names_covering_qname : list (name * name_set);
  nsec_names_covering_wildcard : list (name * name_set);
  nsec_names_covering_origin : list (name * name_set)
}.

Record t : Type := {
  self : fields;
  warnings : list Error;
  errors : list Error;
  validation_status : Z;
  nsec_set_info : NSECSet.t
}.

(** lines 371-381: [while wildcard_cover != self.origin]; the result is the
    pair [(self.wildcard_name, covering_names)] set before [break]. *)
Fixpoint wildcard_scan (v : NSECSet.t) (origin : name) (wildcard_cover : name)
    {struct wildcard_cover} : result (option (name * name_set)) :=
  if name_eqb wildcard_cover origin then Ok None
  else
    match wildcard_cover with
    | [] => Raise NoParent
    | _ :: parent =>
        if name_eqb wildcard_cover dns_name.root then Raise NoParent
        else
          let wildcard_name := dns_name.from_text_star parent in
          let covering_names := NSECSet.nsec_covering_name v wildcard_name in
          if truthy covering_names then Ok (Some (wildcard_name, covering_names))
          else wildcard_scan v origin parent
    end.

(** lines 358-387, once the call of line 363 has returned: [wildcard_name]
    is then [from_text_star origin] *)
Definition init_fields (qname origin : name) (v : NSECSet.t) : result fields :=
  let wildcard_name := dns_name.from_text_star origin in
  let nsec_names_covering_qname :=
    record_covering qname (NSECSet.nsec_covering_name v qname) [] in
  found <- wildcard_scan v origin qname ;;
  let '(wildcard_name, nsec_names_covering_wildcard) :=
    match found with
    | Some (w, names) => (w, dict_set name_eqb w names [])
    | None => (wildcard_name, [])
    end in
  let nsec_names_covering_origin :=
    record_covering origin (NSECSet.nsec_covering_name v origin) [] in
  Ok {| qname := qname; origin := origin; wildcard_name := wildcard_name;
        nsec_names_covering_qname := nsec_names_covering_qname;
        nsec_names_covering_wildcard := nsec_names_covering_wildcard;
        nsec_names_covering_origin := nsec_names_covering_origin |}.

(** lines 412-420, shared by the subclasses in shape *)
Definition retain (status : Z) (cited : list name_set) (v : NSECSet.t) : NSECSet.t :=
  if status =? NSEC_STATUS_VALID
  then NSECSet.project v (update_all cited)
  else NSECSet.project v (NSECSet.owners v).

(** lines 398-420 *)
Definition _set_validation_status (f : fields) (v : NSECSet.t) : result t :=
  let p := {| p_status := NSEC_STATUS_VALID; p_warnings := []; p_errors := [] |} in
  let p :=
    if negb (truthy (nsec_names_covering_qname f))
    then err (SnameNotCoveredNameError (qname f)) (set_status NSEC_STATUS_INVALID p)
    else p in
  let p :=
    if negb (truthy (nsec_names_covering_wildcard f))
    then err (WildcardNotCoveredNSEC (wildcard_name f)) (set_status NSEC_STATUS_INVALID p)
    else p in
  p <- (if truthy (nsec_names_covering_origin f)
        then
          e <- LastNSECNextNotZone_of (nsec_names_covering_origin f) (origin f) v ;;
          Ok (err e (set_status NSEC_STATUS_INVALID p))
        else Ok p) ;;
  Ok {| self := f; warnings := p_warnings p; errors := p_errors p;
        validation_status := p_status p;
        nsec_set_info :=
          retain (p_status p)
            (dict_values (nsec_names_covering_qname f)
             ++ dict_values (nsec_names_covering_wildcard f)) v |}.

(** lines 357-389; [dns.name.from_text('*', self.origin)] of line 363 comes
    before everything that can raise *)
Definition __init__ (qname : name) (rdtype : Z) (origin : name) (v : NSECSet.t)
  : result t :=
  wildcard_name <- dns_name.from_text origin ;;
  f <- init_fields qname origin v ;;
  _set_validation_status f v.

End NSECStatusNXDOMAIN.

Module NSECStatusWildcard.

Import NSECStatusNXDOMAIN.

(** line 501: [dns.name.Name(self.qname.labels[-len(self.wildcard_name):])] *)
Definition _next_closest_encloser (f : fields) : name :=
  dns_name.labels_last (List.length (wildcard_name f)) (qname f).

(** lines 506-532 *)
Definition _set_validation_status2 (f : fields) (v : NSECSet.t) : result t :=
  let p := {| p_status := NSEC_STATUS_VALID; p_warnings := []; p_errors := [] |} in
  let p :=
    if truthy (nsec_names_covering_qname f) then
      let next_closest_encloser := _next_closest_encloser f in
      let nsec_covering_next_closest_encloser :=
        NSECSet.nsec_covering_name v next_closest_encloser in
      if negb (truthy nsec_covering_next_closest_encloser)
      then err (WildcardExpansionInvalid (qname f) (wildcard_name f) next_closest_encloser)
             (set_status NSEC_STATUS_INVALID p)
      else p
    else err (SnameNotCoveredWildcardAnswer (qname f)) (set_status NSEC_STATUS_INVALID p) in
  p <- (if truthy (nsec_names_covering_origin f)
        then
          e <- LastNSECNextNotZone_of (nsec_names_covering_origin f) (origin f) v ;;
          Ok (err e (set_status NSEC_STATUS_INVALID p))
        else Ok p) ;;
  Ok {| self := f; warnings := p_warnings p; errors := p_errors p;
        validation_status := p_status p;
        nsec_set_info :=
          retain (p_status p) (dict_values (nsec_names_covering_qname f)) v |}.

(** lines 486-491: the base [__init__] runs with [_set_validation_status]
    overridden by [pass]; then the two attributes are reset. *)
Definition __init__ (qname wildcard_name : name) (rdtype : Z) (origin : name)
    (v : NSECSet.t) : result t :=
  origin_wildcard <- dns_name.from_text origin ;;
  f <- init_fields qname origin v ;;
  let f := {| qname := NSECStatusNXDOMAIN.qname f;
              origin := NSECStatusNXDOMAIN.origin f;
              wildcard_name := wildcard_name;
              nsec_names_covering_qname := nsec_names_covering_qname f;
              nsec_names_covering_wildcard := [];
              nsec_names_covering_origin := nsec_names_covering_origin f |} in
  _set_validation_status2 f v.

End NSECStatusWildcard.

(* ------------------------------------------------------------------ *)
(** ** NSECStatusNoAnswer *)

Module NSECStatusNoAnswer.

Record fields : Type := {
  qname : name;
  rdtype : Z;
  origin : name;
  referral : bool;
  wildcard_name : name;
  nsec_for_qname : option NSECSet.rrset_info_t;
  has_rdtype : bool;
  has_ns : bool;
  has_ds : bool;
  has_soa : bool;
  nsec_names_covering_qname : list (name * name_set);
  nsec_for_wildcard_name : option NSECSet.rrset_info_t;
  wildcard_has_rdtype : option bool;
  nsec_names_covering_origin : list (name * name_set)
}.

Record t : Type := {
  self : fields;
  warnings : list Error;
  errors : list Error;
  validation_status : Z;
  nsec_set_info : NSECSet.t
}.

(** lines 567-571: the NSEC of an empty non-terminal ancestor *)
Fixpoint find_ancestor_nsec (v : NSECSet.t) (qname : name) (nsec_names : list name)
  : result (option NSECSet.rrset_info_t) :=
  match nsec_names with
  | [] => Ok None
  | nsec_name :: rest =>
      info <- NSECSet.rrsets_getitem v nsec_name ;;
      let next_name := NSECSet.next (NSECSet.rrset_0 info) in
      if dns_name.is_subdomain next_name qname && negb (name_eqb next_name qname)
      then Ok (Some info)
      else find_ancestor_nsec v qname rest
  end.

(** lines 552-571: [(nsec_for_qname, has_rdtype, has_ns, has_ds, has_soa)] *)
Definition match_qname (v : NSECSet.t) (qname : name) (rdtype : Z)
  : result (option NSECSet.rrset_info_t * bool * bool * bool * bool) :=
  try_KeyError
    (info <- NSECSet.rrsets_getitem v qname ;;
     has_rdtype <- NSECSet.rdtype_exists_in_bitmap v qname rdtype ;;
     has_ns <- NSECSet.rdtype_exists_in_bitmap v qname rdatatype_NS ;;
     has_ds <- NSECSet.rdtype_exists_in_bitmap v qname rdatatype_DS ;;
     has_soa <- NSECSet.rdtype_exists_in_bitmap v qname rdatatype_SOA ;;
     Ok (Some info, has_rdtype, has_ns, has_ds, has_soa))
    (found <- find_ancestor_nsec v qname (NSECSet.owners v) ;;
     Ok (found, false, false, false, false)).

(** the state of the loop of lines 583-591:
    [(nsec_for_wildcard_name, wildcard_has_rdtype, wildcard_name)] *)
Definition wildcard_state : Type :=
  (option NSECSet.rrset_info_t * option bool * name)%type.

(** lines 585-590: the three assignments of the [try] block, [KeyError]
    passed over *)
Definition wildcard_try (v : NSECSet.t) (rdtype : Z) (wildcard_name : name)
    (s : wildcard_state) : result wildcard_state :=
  let '(_, has, wn) := s in
  match NSECSet.rrsets_getitem v wildcard_name with
  | Ok info =>
      match NSECSet.rdtype_exists_in_bitmap v wildcard_name rdtype with
      | Ok b => Ok (Some info, Some b, wildcard_name)
      | Raise KeyError => Ok (Some info, has, wn)
      | Raise e => Raise e
      end
  | Raise KeyError => Ok s
  | Raise e => Raise e
  end.

(** lines 583-591: no [break], the wildcard nearest to the origin wins *)
Fixpoint wildcard_scan (v : NSECSet.t) (rdtype : Z) (origin : name)
    (wildcard_cover : name) (s : wildcard_state) {struct wildcard_cover}
  : result wildcard_state :=
  if name_eqb wildcard_cover origin then Ok s
  else
    match wildcard_cover with
    | [] => Raise NoParent
    | _ :: parent =>
        if name_eqb wildcard_cover dns_name.root then Raise NoParent
        else
          s <- wildcard_try v rdtype (dns_name.from_text_star parent) s ;;
          wildcard_scan v rdtype origin parent s
    end.

(** lines 543-597, once the call of line 550 has returned: [wildcard_name]
    starts as [from_text_star origin] *)
Definition init_fields (qname : name) (rdtype : Z) (origin : name) (v : NSECSet.t)
  : result fields :=
  '(nsec_for_qname, has_rdtype, has_ns, has_ds, has_soa) <- match_qname v qname rdtype ;;
  let nsec_names_covering_qname :=
    record_covering qname (NSECSet.nsec_covering_name v qname) [] in
  '(nsec_for_wildcard_name, wildcard_has_rdtype, wildcard_name) <-
    wildcard_scan v rdtype origin qname (None, None, dns_name.from_text_star origin) ;;
  let nsec_names_covering_origin :=
    record_covering origin (NSECSet.nsec_covering_name v origin) [] in
  Ok {| qname := qname; rdtype := rdtype; origin := origin;
        referral := NSECSet.referral v; wildcard_name := wildcard_name;
        nsec_for_qname := nsec_for_qname; has_rdtype := has_rdtype;
        has_ns := has_ns; has_ds := has_ds; has_soa := has_soa;
        nsec_names_covering_qname := nsec_names_covering_qname;
        nsec_for_wildcard_name := nsec_for_wildcard_name;
        wildcard_has_rdtype := wildcard_has_rdtype;
        nsec_names_covering_origin := nsec_names_covering_origin |}.

(** the truth value of [self.wildcard_has_rdtype] ([None], [True], [False]) *)
Definition is_True (o : option bool) : bool :=
  match o with Some b => b | None => false end.

(** lines 612-643 *)
Definition evaluate (f : fields) (v : NSECSet.t) : result progress :=
  let p := {| p_status := NSEC_STATUS_VALID; p_warnings := []; p_errors := [] |} in
  match nsec_for_qname f with
  | Some _ =>
      if (rdtype f =? rdatatype_DS) || referral f then
        let p := if negb (has_ns f)
                 then set_status NSEC_STATUS_INVALID (err (ReferralWithoutNSBitNSEC (qname f)) p)
                 else p in
        let p := if has_ds f
                 then set_status NSEC_STATUS_INVALID (err (ReferralWithDSBitNSEC (qname f)) p)
                 else p in
        let p := if has_soa f
                 then set_status NSEC_STATUS_INVALID (err (ReferralWithSOABitNSEC (qname f)) p)
                 else p in
        Ok p
      else
        if has_rdtype f
        then Ok (set_status NSEC_STATUS_INVALID
                   (err (StypeInBitmapNoDataNSEC (qname f) (rdtype f)) p))
        else Ok p
  | None =>
      match nsec_for_wildcard_name f with
      | Some _ =>
          let p := if negb (truthy (nsec_names_covering_qname f))
                   then err (SnameNotCoveredWildcardNoData (qname f))
                          (set_status NSEC_STATUS_INVALID p)
                   else p in
          let p := if is_True (wildcard_has_rdtype f)
                   then err (StypeInBitmapNoDataNSEC (wildcard_name f) (rdtype f))
                          (set_status NSEC_STATUS_INVALID p)
                   else p in
          if truthy (nsec_names_covering_origin f)
          then
            e <- LastNSECNextNotZone_of (nsec_names_covering_origin f) (origin f) v ;;
            Ok (err e (set_status NSEC_STATUS_INVALID p))
          else Ok p
      | None =>
          Ok (err (NoNSECMatchingSnameNoData (qname f)) (set_status NSEC_STATUS_INVALID p))
      end
  end.

(** lines 648-655: the names cited by a valid proof *)
Definition cited (f : fields) : name_set :=
  let covering_names := empty_set name in
  let covering_names :=
    match nsec_for_qname f with
    | Some info => set_add name_eq_dec (NSECSet.rrset_name info) covering_names
    | None => fold_left set_update (dict_values (nsec_names_covering_qname f)) covering_names
    end in
  match nsec_for_wildcard_name f with
  | Some _ => set_add name_eq_dec (wildcard_name f) covering_names
  | None => covering_names
  end.

(** lines 611-658 *)
Definition _set_validation_status (f : fields) (v : NSECSet.t) : result t :=
  p <- evaluate f v ;;
  Ok {| self := f; warnings := p_warnings p; errors := p_errors p;
        validation_status := p_status p;
        nsec_set_info :=
          if p_status p =? NSEC_STATUS_VALID
          then NSECSet.project v (cited f)
          else NSECSet.project v (NSECSet.owners v) |}.

(** lines 543-599; [dns.name.from_text('*', origin)] of line 550 comes
    before everything that can raise *)
Definition __init__ (qname : name) (rdtype : Z) (origin : name) (v : NSECSet.t)
  : result t :=
  wildcard_name <- dns_name.from_text origin ;;
  f <- init_fields qname rdtype origin v ;;
  _set_validation_status f v.

End NSECStatusNoAnswer.

(* ------------------------------------------------------------------ *)
(** ** NSEC3: shared pieces *)

(** [name_digest_map[name][key]]: the inner key is a parameter tuple, or
    [None] for the dummy entry of NSEC3StatusWildcard. *)
Definition digest_key := option NSECSet.params.

Definition digest_key_eqb (a b : digest_key) : bool :=
  match a, b with
  | None, None => true
  | Some x, Some y => NSECSet.params_eqb x y
  | _, _ => false
  end.

Definition name_digest_map_t := list (name * list (digest_key * option name)).

(** [m[n][k]] *)
Definition name_digest_getitem (m : name_digest_map_t) (n : name) (k : digest_key)
  : result (option name) :=
  match dict_get name_eqb n m with
  | None => Raise KeyError
  | Some inner =>
      match dict_get digest_key_eqb k inner with
      | None => Raise KeyError
      | Some d => Ok d
      end
  end.

(** [if n not in m: m[n] = {}] followed by [m[n][k] = d] *)
Definition name_digest_setitem (m : name_digest_map_t) (n : name) (k : digest_key)
    (d : option name) : name_digest_map_t :=
  let inner := match dict_get name_eqb n m with
               | Some inner => inner
               | None => []
               end in
  dict_set name_eqb n (dict_set digest_key_eqb k d inner) m.

(** [dns.name.Name(self.qname.labels[-(len(encloser)+1):])] *)
Definition _get_next_closest_encloser (qname encloser : name) : name :=
  dns_name.labels_last (List.length encloser + 1) qname.

(** [dns.name.from_text('*', encloser)].  A closest encloser is an ancestor
    of the queried name other than that name (section 4.4.1 of the
    specification), so [*.encloser] takes no more octets than the queried
    name and the call returns. *)
Definition _get_wildcard (encloser : name) : name :=
  dns_name.from_text_star encloser.

(** [get_next_closest_encloser(self)]: from the first closest encloser, or
    [None] *)
Definition get_next_closest_encloser {E} (qname : name)
    (closest_encloser : list (name * list E)) : option name :=
  match closest_encloser with
  | (encloser_name, _) :: _ => Some (_get_next_closest_encloser qname encloser_name)
  | [] => None
  end.

Definition get_wildcard {E} (closest_encloser : list (name * list E)) : option name :=
  match closest_encloser with
  | (encloser_name, _) :: _ => Some (_get_wildcard encloser_name)
  | [] => None
  end.

(** [invalid_alg_err]: the error for the first invalid algorithm, or [None] *)
Definition invalid_alg_err (invalid_algs : list Z) : option Error :=
  match invalid_algs with
  | a :: _ => Some (UnsupportedNSEC3Algorithm a)
  | [] => None
  end.

(** [if invalid_algs: self.errors.append(invalid_alg_err)] *)
Definition err_invalid_alg (invalid_algs : list Z) (p : progress) : progress :=
  match invalid_alg_err invalid_algs with
  | Some e => if truthy invalid_algs then err e p else p
  | None => p
  end.

(** [if invalid_algs and invalid_alg_err not in self.errors:
    self.errors.append(invalid_alg_err)] *)
Definition err_invalid_alg_once (invalid_algs : list Z) (p : progress) : progress :=
  match invalid_alg_err invalid_algs with
  | Some e => if truthy invalid_algs && negb (error_in e (p_errors p)) then err e p else p
  | None => p
  end.

(* ------------------------------------------------------------------ *)
(** ** NSEC3StatusNXDOMAIN and NSEC3StatusWildcard *)

Module NSEC3StatusNXDOMAIN.

(** The attributes set before [_set_validation_status].  [E] is the type
    of the members of the closest-encloser sets: owner names in the base
    class, owner names or [None] in NSEC3StatusWildcard. *)
Record fields (E : Type) : Type := {
  qname : name;
  origin : name;
  name_digest_map : name_digest_map_t;
  closest_encloser : list (name * list E);
  nsec_names_covering_qname : list (name * name_set);
  nsec_names_covering_wildcard : list (name * name_set)
}.
Arguments qname {E} _.
Arguments origin {E} _.
Arguments name_digest_map {E} _.
Arguments closest_encloser {E} _.
Arguments nsec_names_covering_qname {E} _.
Arguments nsec_names_covering_wildcard {E} _.

Record t (E : Type) : Type := {
  self : fields E;
  warnings : list Error;
  errors : list Error;
  validation_status : Z;
  nsec_set_info : NSECSet.t
}.
Arguments self {E} _.
Arguments warnings {E} _.
Arguments errors {E} _.
Arguments validation_status {E} _.
Arguments nsec_set_info {E} _.

(** the loop state: [(name_digest_map, nsec_names_covering_qname,
    nsec_names_covering_wildcard)] *)
Definition loop_state : Type :=
  (name_digest_map_t * list (name * name_set) * list (name * name_set))%type.

(** lines 737-741 *)
Definition hash_qname (v : NSECSet.t) (qname origin : name)
    (m : name_digest_map_t) (item : NSECSet.params * name_set) : name_digest_map_t :=
  let '(salt, alg, iterations) := fst item in
  let digest_name := NSECSet.get_digest_name_for_nsec3 v qname origin salt alg iterations in
  name_digest_setitem m qname (Some (salt, alg, iterations)) digest_name.

(** lines 746-770: the body of the inner loop *)
Definition encloser_params_step (v : NSECSet.t) (qname origin encloser : name)
    (st : loop_state) (key : NSECSet.params) : loop_state :=
  let '(m, covering_qname, covering_wildcard) := st in
  let '(salt, alg, iterations) := key in
  let next_closest_encloser := _get_next_closest_encloser qname encloser in
  let digest_name :=
    match name_digest_getitem m next_closest_encloser (Some (salt, alg, iterations)) with
    | Ok d => d
    | Raise _ =>
        NSECSet.get_digest_name_for_nsec3 v next_closest_encloser origin salt alg iterations
    end in
  let covering_qname :=
    match digest_name with
    | Some d =>
        record_covering d (NSECSet.nsec3_covering_name v d salt alg iterations) covering_qname
    | None => covering_qname
    end in
  let m := name_digest_setitem m next_closest_encloser (Some (salt, alg, iterations))
             digest_name in
  let wildcard_name := _get_wildcard encloser in
  let digest_name :=
    NSECSet.get_digest_name_for_nsec3 v wildcard_name origin salt alg iterations in
  let covering_wildcard :=
    match digest_name with
    | Some d =>
        record_covering d (NSECSet.nsec3_covering_name v d salt alg iterations)
          covering_wildcard
    | None => covering_wildcard
    end in
  let m := name_digest_setitem m wildcard_name (Some (salt, alg, iterations)) digest_name in
  (m, covering_qname, covering_wildcard).

(** lines 743-770 *)
Definition encloser_step (v : NSECSet.t) (qname origin : name)
    (st : loop_state) (encloser : name) : loop_state :=
  fold_left (encloser_params_step v qname origin encloser)
    (dict_keys (NSECSet.nsec3_params v)) st.

(** lines 725-770, after [_set_closest_encloser] has given
    [closest_encloser] and the initial [name_digest_map] *)
Definition init_fields {E} (qname origin : name) (v : NSECSet.t)
    (closest_encloser : list (name * list E)) (m0 : name_digest_map_t) : fields E :=
  let m := fold_left (hash_qname v qname origin) (NSECSet.nsec3_params v) m0 in
  let '(m, covering_qname, covering_wildcard) :=
    fold_left (encloser_step v qname origin) (dict_keys closest_encloser) (m, [], []) in
  {| qname := qname; origin := origin; name_digest_map := m;
     closest_encloser := closest_encloser;
     nsec_names_covering_qname := covering_qname;
     nsec_names_covering_wildcard := covering_wildcard |}.

(** lines 806-832 *)
Definition evaluate (f : fields name) (v : NSECSet.t) : progress :=
  let p := {| p_status := NSEC_STATUS_VALID; p_warnings := []; p_errors := [] |} in
  let '(valid_algs, invalid_algs) := NSECSet.get_algorithm_support v in
  match closest_encloser f with
  | [] =>
      let p := set_status NSEC_STATUS_INVALID p in
      let p := if truthy valid_algs
               then err (NoClosestEncloserNameError (qname f)) p
               else p in
      err_invalid_alg invalid_algs p
  | (encloser_name, _) :: _ =>
      let p :=
        if negb (truthy (nsec_names_covering_qname f)) then
          let p := set_status NSEC_STATUS_INVALID p in
          let p := if truthy valid_algs
                   then err (NextClosestEncloserNotCoveredNameError
                               (_get_next_closest_encloser (qname f) encloser_name)) p
                   else p in
          err_invalid_alg invalid_algs p
        else p in
      if negb (truthy (nsec_names_covering_wildcard f)) then
        let p := set_status NSEC_STATUS_INVALID p in
        let p := if truthy valid_algs
                 then err (WildcardNotCoveredNSEC3 (_get_wildcard encloser_name)) p
                 else p in
        err_invalid_alg_once invalid_algs p
      else p
  end.

(** lines 837-839 *)
Definition cited (f : fields name) : name_set :=
  update_all (dict_values (closest_encloser f)
              ++ dict_values (nsec_names_covering_qname f)
              ++ dict_values (nsec_names_covering_wildcard f)).

(** lines 805-842 *)
Definition _set_validation_status (f : fields name) (v : NSECSet.t) : t name :=
  let p := evaluate f v in
  {| self := f; warnings := p_warnings p; errors := p_errors p;
     validation_status := p_status p;
     nsec_set_info :=
       if p_status p =? NSEC_STATUS_VALID
       then NSECSet.project v (cited f)
       else NSECSet.project v (NSECSet.owners v) |}.

(** lines 724-772, with [_set_closest_encloser] of lines 802-803 *)
Definition __init__ (qname : name) (rdtype : Z) (origin : name) (v : NSECSet.t)
  : t name :=
  let closest_encloser := NSECSet.get_closest_encloser v qname origin in
  _set_validation_status (init_fields qname origin v closest_encloser []) v.

End NSEC3StatusNXDOMAIN.

Module NSEC3StatusWildcard.

Import NSEC3StatusNXDOMAIN.

(** lines 942-948: [(closest_encloser, name_digest_map)] *)
Definition _set_closest_encloser (qname wildcard_name origin : name) (v : NSECSet.t)
  : result (list (name * list (option name)) * name_digest_map_t) :=
  let closest_encloser :=
    map (fun kv => (fst kv, map (@Some name) (snd kv)))
        (NSECSet.get_closest_encloser v qname origin) in
  if negb (truthy closest_encloser) then
    parent <- dns_name.parent wildcard_name ;;
    Ok ([(parent, [None])],
        dict_set name_eqb wildcard_name [(None, Some wildcard_name)] [])
  else Ok (closest_encloser, []).

(** lines 958-975 *)
Definition evaluate (f : fields (option name)) (v : NSECSet.t) : result progress :=
  let p := {| p_status := NSEC_STATUS_VALID; p_warnings := []; p_errors := [] |} in
  p <- (if negb (truthy (nsec_names_covering_qname f)) then
          let p := set_status NSEC_STATUS_INVALID p in
          let '(valid_algs, invalid_algs) := NSECSet.get_algorithm_support v in
          p <- (if truthy valid_algs then
                  match get_next_closest_encloser (qname f) (closest_encloser f) with
                  | Some next_closest_encloser =>
                      Ok (err (NextClosestEncloserNotCoveredWildcardAnswer
                                 next_closest_encloser) p)
                  | None => Raise AttributeError
                  end
                else Ok p) ;;
          Ok (err_invalid_alg invalid_algs p)
        else Ok p) ;;
  if truthy (nsec_names_covering_wildcard f) then
    let p := set_status NSEC_STATUS_INVALID p in
    match get_next_closest_encloser (qname f) (closest_encloser f) with
    | Some next_closest_encloser =>
        Ok (err (WildcardCoveredAnswerNSEC3 next_closest_encloser) p)
    | None => Raise AttributeError
    end
  else Ok p.

(** [filter(lambda x: x is not None, covering_names)] *)
Fixpoint filter_not_None (l : list (option name)) : list name :=
  match l with
  | [] => []
  | Some n :: l' => n :: filter_not_None l'
  | None :: l' => filter_not_None l'
  end.

Definition option_name_eq_dec : forall a b : option name, {a = b} + {a <> b}.
Proof. decide equality; apply name_eq_dec. Defined.

(** lines 980-983 *)
Definition cited (f : fields (option name)) : list name :=
  filter_not_None
    (fold_left (set_union option_name_eq_dec)
       (dict_values (closest_encloser f)
        ++ map (map (@Some name)) (dict_values (nsec_names_covering_qname f)))
       (empty_set (option name))).

(** lines 957-985 *)
Definition _set_validation_status (f : fields (option name)) (v : NSECSet.t)
  : result (t (option name)) :=
  p <- evaluate f v ;;
  Ok {| self := f; warnings := p_warnings p; errors := p_errors p;
        validation_status := p_status p;
        nsec_set_info :=
          if p_status p =? NSEC_STATUS_VALID
          then NSECSet.project v (cited f)
          else NSECSet.project v (NSECSet.owners v) |}.

(** lines 938-940 *)
Definition __init__ (qname wildcard_name : name) (rdtype : Z) (origin : name)
    (v : NSECSet.t) : result (t (option name)) :=
  '(closest_encloser, m0) <- _set_closest_encloser qname wildcard_name origin v ;;
  _set_validation_status (init_fields qname origin v closest_encloser m0) v.

End NSEC3StatusWildcard.

(* ------------------------------------------------------------------ *)
(** ** NSEC3StatusNoAnswer *)

(** a [for] loop whose body can raise *)
Fixpoint for_each {A B} (body : A -> B -> result A) (l : list B) (a : A) : result A :=
  match l with
  | [] => Ok a
  | b :: l' => a' <- body a b ;; for_each body l' a'
  end.

(** [digest_name in nsec3_names], where [digest_name] may be [None] *)
Definition digest_in (digest_name : option name) (nsec3_names : name_set) : bool :=
  match digest_name with
  | Some d => name_mem d nsec3_names
  | None => false
  end.

Module NSEC3StatusNoAnswer.

Record fields : Type := {
  qname : name;
  rdtype : Z;
  origin : name;
  referral : bool;
  wildcard_name : option name;
  name_digest_map : name_digest_map_t;
  closest_encloser : list (name * name_set);
  nsec_names_covering_qname : list (name * name_set);
  nsec_names_covering_wildcard : list (name * name_set);
  nsec_for_qname : name_set;
  nsec_for_wildcard_name : name_set;
  has_rdtype : bool;
  has_cname : bool;
  has_ns : bool;
  has_ds : bool;
  has_soa : bool;
  wildcard_has_rdtype : bool;
  wildcard_has_cname : bool
}.

Record t : Type := {
  self : fields;
  opt_out : bool;
  warnings : list Error;
  errors : list Error;
  validation_status : Z;
  nsec_set_info : NSECSet.t
}.

(** what the first loop (lines 1031-1047) updates *)
Record wildcard_state : Type := {
  w_map : name_digest_map_t;
  w_nsec_for_wildcard_name : name_set;
  w_has_rdtype : bool;
  w_has_cname : bool
}.

(** lines 1038-1047 *)
Definition wildcard_step (v : NSECSet.t) (origin : name) (rdtype : Z)
    (key : NSECSet.params) (nsec3_names : name_set)
    (s : wildcard_state) (encloser : name) : result wildcard_state :=
  let '(salt, alg, iterations) := key in
  let wildcard_name := _get_wildcard encloser in
  let digest_name :=
    NSECSet.get_digest_name_for_nsec3 v wildcard_name origin salt alg iterations in
  s <- match digest_name with
       | Some d =>
           if digest_in digest_name nsec3_names then
             b1 <- NSECSet.rdtype_exists_in_bitmap v d rdtype ;;
             b2 <- NSECSet.rdtype_exists_in_bitmap v d rdatatype_CNAME ;;
             Ok {| w_map := w_map s;
                   w_nsec_for_wildcard_name :=
                     set_add name_eq_dec d (w_nsec_for_wildcard_name s);
                   w_has_rdtype := if b1 then true else w_has_rdtype s;
                   w_has_cname := if b2 then true else w_has_cname s |}
           else Ok s
       | None => Ok s
       end ;;
  Ok {| w_map := name_digest_setitem (w_map s) wildcard_name
                   (Some (salt, alg, iterations)) digest_name;
        w_nsec_for_wildcard_name := w_nsec_for_wildcard_name s;
        w_has_rdtype := w_has_rdtype s;
        w_has_cname := w_has_cname s |}.

(** lines 1031-1047: the body of the first loop *)
Definition params_step1 (v : NSECSet.t) (qname origin : name) (rdtype : Z)
    (closest_encloser : list (name * name_set))
    (s : wildcard_state) (item : NSECSet.params * name_set) : result wildcard_state :=
  let '(salt, alg, iterations) := fst item in
  let nsec3_names := snd item in
  let digest_name :=
    NSECSet.get_digest_name_for_nsec3 v qname origin salt alg iterations in
  let s := {| w_map := name_digest_setitem (w_map s) qname
                         (Some (salt, alg, iterations)) digest_name;
              w_nsec_for_wildcard_name := w_nsec_for_wildcard_name s;
              w_has_rdtype := w_has_rdtype s;
              w_has_cname := w_has_cname s |} in
  for_each (wildcard_step v origin rdtype (salt, alg, iterations) nsec3_names)
    (dict_keys closest_encloser) s.

(** what the second loop (lines 1049-1070) updates *)
Record qname_state : Type := {
  q_map : name_digest_map_t;
  q_nsec_for_qname : name_set;
  q_has_rdtype : bool;
  q_has_cname : bool;
  q_has_ns : bool;
  q_has_ds : bool;
  q_has_soa : bool;
  q_covering_qname : list (name * name_set)
}.

(** lines 1060-1070 *)
Definition next_closer_step (v : NSECSet.t) (qname origin : name)
    (key : NSECSet.params) (s : qname_state) (encloser : name) : qname_state :=
  let '(salt, alg, iterations) := key in
  let next_closest_encloser := _get_next_closest_encloser qname encloser in
  let digest_name :=
    NSECSet.get_digest_name_for_nsec3 v next_closest_encloser origin salt alg iterations in
  let m := name_digest_setitem (q_map s) next_closest_encloser
             (Some (salt, alg, iterations)) digest_name in
  let covering_qname :=
    match digest_name with
    | Some d =>
        record_covering d (NSECSet.nsec3_covering_name v d salt alg iterations)
          (q_covering_qname s)
    | None => q_covering_qname s
    end in
  {| q_map := m; q_nsec_for_qname := q_nsec_for_qname s;
     q_has_rdtype := q_has_rdtype s; q_has_cname := q_has_cname s;
     q_has_ns := q_has_ns s; q_has_ds := q_has_ds s; q_has_soa := q_has_soa s;
     q_covering_qname := covering_qname |}.

(** lines 1049-1070: the body of the second loop *)
Definition params_step2 (v : NSECSet.t) (qname origin : name) (rdtype : Z)
    (closest_encloser : list (name * name_set))
    (s : qname_state) (item : NSECSet.params * name_set) : result qname_state :=
  let '(salt, alg, iterations) := fst item in
  let nsec3_names := snd item in
  digest_name <- name_digest_getitem (q_map s) qname (Some (salt, alg, iterations)) ;;
  match digest_name with
  | Some d =>
      if digest_in digest_name nsec3_names then
        b1 <- NSECSet.rdtype_exists_in_bitmap v d rdtype ;;
        b2 <- NSECSet.rdtype_exists_in_bitmap v d rdatatype_CNAME ;;
        b3 <- NSECSet.rdtype_exists_in_bitmap v d rdatatype_NS ;;
        b4 <- NSECSet.rdtype_exists_in_bitmap v d rdatatype_DS ;;
        b5 <- NSECSet.rdtype_exists_in_bitmap v d rdatatype_SOA ;;
        Ok {| q_map := q_map s;
              q_nsec_for_qname := set_add name_eq_dec d (q_nsec_for_qname s);
              q_has_rdtype := if b1 then true else q_has_rdtype s;
              q_has_cname := if b2 then true else q_has_cname s;
              q_has_ns := if b3 then true else q_has_ns s;
              q_has_ds := if b4 then true else q_has_ds s;
              q_has_soa := if b5 then true else q_has_soa s;
              q_covering_qname := q_covering_qname s |}
      else
        Ok (fold_left (next_closer_step v qname origin (salt, alg, iterations))
              (dict_keys closest_encloser) s)
  | None =>
      Ok (fold_left (next_closer_step v qname origin (salt, alg, iterations))
            (dict_keys closest_encloser) s)
  end.

(** lines 1005-1070 *)
Definition init_fields (qname : name) (rdtype : Z) (origin : name) (v : NSECSet.t)
  : result fields :=
  let closest_encloser := NSECSet.get_closest_encloser v qname origin in
  w <- for_each (params_step1 v qname origin rdtype closest_encloser)
         (NSECSet.nsec3_params v)
         {| w_map := []; w_nsec_for_wildcard_name := empty_set name;
            w_has_rdtype := false; w_has_cname := false |} ;;
  q <- for_each (params_step2 v qname origin rdtype closest_encloser)
         (NSECSet.nsec3_params v)
         {| q_map := w_map w; q_nsec_for_qname := empty_set name;
            q_has_rdtype := false; q_has_cname := false; q_has_ns := false;
            q_has_ds := false; q_has_soa := false; q_covering_qname := [] |} ;;
  Ok {| qname := qname; rdtype := rdtype; origin := origin;
        referral := NSECSet.referral v; wildcard_name := None;
        name_digest_map := q_map q; closest_encloser := closest_encloser;
        nsec_names_covering_qname := q_covering_qname q;
        nsec_names_covering_wildcard := [];
        nsec_for_qname := q_nsec_for_qname q;
        nsec_for_wildcard_name := w_nsec_for_wildcard_name w;
        has_rdtype := q_has_rdtype q; has_cname := q_has_cname q;
        has_ns := q_has_ns q; has_ds := q_has_ds q; has_soa := q_has_soa q;
        wildcard_has_rdtype := w_has_rdtype w;
        wildcard_has_cname := w_has_cname w |}.

(** lines 1134-1137: [opt_out] after the two nested loops *)
Definition opt_out_step (v : NSECSet.t) (opt_out : bool) (nsec_name : name)
  : result bool :=
  info <- NSECSet.rrsets_getitem v nsec_name ;;
  Ok (if flag_set (NSECSet.flags (NSECSet.rrset_0 info)) 1 then true else opt_out).

Definition scan_opt_out (v : NSECSet.t) (covering : list (name * name_set))
  : result bool :=
  for_each (fun opt_out item => for_each (opt_out_step v) (snd item) opt_out)
    covering false.

(** lines 1097-1153: the progress and [self.opt_out] *)
Definition evaluate (f : fields) (v : NSECSet.t) : result (progress * bool) :=
  let p := {| p_status := NSEC_STATUS_VALID; p_warnings := []; p_errors := [] |} in
  let '(valid_algs, invalid_algs) := NSECSet.get_algorithm_support v in
  if truthy (nsec_for_qname f) then
    if (rdtype f =? rdatatype_DS) || referral f then
      let p := if negb (has_ns f)
               then set_status NSEC_STATUS_INVALID (err (ReferralWithoutNSBitNSEC3 (qname f)) p)
               else p in
      let p := if has_ds f
               then set_status NSEC_STATUS_INVALID (err (ReferralWithDSBitNSEC3 (qname f)) p)
               else p in
      let p := if has_soa f
               then set_status NSEC_STATUS_INVALID (err (ReferralWithSOABitNSEC3 (qname f)) p)
               else p in
      Ok (p, false)
    else
      let p := if has_rdtype f
               then set_status NSEC_STATUS_INVALID
                      (err (StypeInBitmapNoDataNSEC3 (qname f) (rdtype f)) p)
               else p in
      let p := if has_cname f
               then set_status NSEC_STATUS_INVALID
                      (err (StypeInBitmapNoDataNSEC3 (qname f) rdatatype_CNAME) p)
               else p in
      Ok (p, false)
  else if truthy (nsec_for_wildcard_name f) then
    p <- (if negb (truthy (nsec_names_covering_qname f)) then
            let p := set_status NSEC_STATUS_INVALID p in
            (* line 1127: [next_closest_encloser] is not bound in this
               method *)
            p <- (if truthy valid_algs then Raise NameError else Ok p) ;;
            Ok (err_invalid_alg invalid_algs p)
          else Ok p) ;;
    if wildcard_has_rdtype f then
      let p := set_status NSEC_STATUS_INVALID p in
      (* line 1132: [self.wildcard_name.canonicalize()] *)
      match wildcard_name f with
      | Some w => Ok (err (StypeInBitmapWildcardNoDataNSEC3 w (rdtype f)) p, false)
      | None => Raise AttributeError
      end
    else Ok (p, false)
  else if (rdtype f =? rdatatype_DS) && truthy (nsec_names_covering_qname f) then
    opt_out <- scan_opt_out v (nsec_names_covering_qname f) ;;
    if negb opt_out then
      let p := set_status NSEC_STATUS_INVALID p in
      let p := if truthy valid_algs
               then err (NoNSEC3MatchingSnameDSNoData (qname f)) p
               else p in
      Ok (err_invalid_alg invalid_algs p, opt_out)
    else Ok (p, opt_out)
  else
    let p := set_status NSEC_STATUS_INVALID p in
    let p := if truthy valid_algs then
               if rdtype f =? rdatatype_DS
               then err (NoNSEC3MatchingSnameDSNoData (qname f)) p
               else err (NoNSEC3MatchingSnameNoData (qname f)) p
             else p in
    Ok (err_invalid_alg invalid_algs p, false).

(** lines 1158-1167 *)
Definition cited (f : fields) : name_set :=
  let covering_names := update_all (dict_values (closest_encloser f)) in
  let covering_names :=
    if truthy (nsec_for_qname f)
    then set_update covering_names (nsec_for_qname f)
    else fold_left set_update (dict_values (nsec_names_covering_qname f)) covering_names in
  set_update covering_names (nsec_for_wildcard_name f).

(** lines 1096-1170 *)
Definition _set_validation_status (f : fields) (v : NSECSet.t) : result t :=
  '(p, opt_out) <- evaluate f v ;;
  Ok {| self := f; opt_out := opt_out;
        warnings := p_warnings p; errors := p_errors p;
        validation_status := p_status p;
        nsec_set_info :=
          if p_status p =? NSEC_STATUS_VALID
          then NSECSet.project v (cited f)
          else NSECSet.project v (NSECSet.owners v) |}.

Definition __init__ (qname : name) (rdtype : Z) (origin : name) (v : NSECSet.t)
  : result t :=
  f <- init_fields qname rdtype origin v ;;
  _set_validation_status f v.

End NSEC3StatusNoAnswer.

(* ------------------------------------------------------------------ *)
(** ** Serialization (RRSIGStatus, DSStatus, CNAMEFromDNAMEStatus)

    [serialize] builds an [OrderedDict]: an association list in insertion
    order.  Text produced by helpers outside this file ([unicode], [fmt.*],
    [to_text], [tuple_to_dict], the [serialize] of errors and RRsets) is kept
    as a [VCall] of the helper on its arguments. *)

#[warnings="-register-all"]
Inductive value : Type :=
| VNone
| VBool (b : bool)
| VInt (z : Z)
| VStr (s : string)
| VName (n : name)
| VBytes (b : bytes)
| VError (e : Error)
| VServers (sc : servers_clients_t)
| VList (l : list value)
| VDict (d : list (string * value))
| VCall (helper : string) (args : list value).

Definition ordered_dict := list (string * value).

Definition setitem (k : string) (x : value) (d : ordered_dict) : ordered_dict :=
  dict_set String.eqb k x d.

Definition has_key (k : string) (d : ordered_dict) : bool :=
  match dict_get String.eqb k d with
  | Some _ => true
  | None => false
  end.

(** truth value of a serialized object *)
Definition value_truthy (x : value) : bool :=
  match x with
  | VNone => false
  | VBool b => b
  | VInt z => negb (z =? 0)
  | VStr s => negb (String.eqb s "")
  | VName _ => true
  | VBytes b => truthy b
  | VError _ => true
  | VServers sc => truthy sc
  | VList l => truthy l
  | VDict d => truthy d
  | VCall _ _ => true
  end.

(** [d['servers']], lines 252-256 and alike *)
Definition serialize_servers (sc : servers_clients_t) (consolidate_clients : bool) : value :=
  let servers := VCall "tuple_to_dict" [VServers sc] in
  if consolidate_clients then VCall "sorted" [VCall "list" [servers]] else servers.

Definition serialize_errors (l : list Error) (consolidate_clients : bool) : value :=
  VList (map (fun e => VCall "serialize" [VError e; VBool consolidate_clients]) l).

(** the part of [serialize] that every class ends with: [warnings] and
    [errors] at their thresholds *)
Definition serialize_findings (warnings errors : list Error)
    (consolidate_clients : bool) (loglevel : Z) (d : ordered_dict) : ordered_dict :=
  let d := if truthy warnings && (loglevel <=? logging_WARNING)
           then setitem "warnings" (serialize_errors warnings consolidate_clients) d
           else d in
  if truthy errors && (loglevel <=? logging_ERROR)
  then setitem "errors" (serialize_errors errors consolidate_clients) d
  else d.

(** the shared prefix of every [show_basic] *)
Definition show_findings (warnings errors : list Error) (loglevel : Z) : bool :=
  (truthy warnings && (loglevel <=? logging_WARNING))
  || (truthy errors && (loglevel <=? logging_ERROR)).

Definition status_getitem (mapping : list (Z * string)) (status : Z) : result value :=
  match dict_get Z.eqb status mapping with
  | Some s => Ok (VStr s)
  | None => Raise KeyError
  end.

Definition rrsig_status_mapping : list (Z * string) :=
  [ (RRSIG_STATUS_VALID, "VALID");
    (RRSIG_STATUS_INDETERMINATE_NO_DNSKEY, "INDETERMINATE_NO_DNSKEY");
    (RRSIG_STATUS_INDETERMINATE_MATCH_PRE_REVOKE, "INDETERMINATE_MATCH_PRE_REVOKE");
    (RRSIG_STATUS_INDETERMINATE_UNKNOWN_ALGORITHM, "INDETERMINATE_UNKNOWN_ALGORITHM");
    (RRSIG_STATUS_EXPIRED, "EXPIRED");
    (RRSIG_STATUS_PREMATURE, "PREMATURE");
    (RRSIG_STATUS_INVALID_SIG, "INVALID_SIG");
    (RRSIG_STATUS_INVALID, "INVALID") ].

Definition dname_status_mapping : list (Z * string) :=
  [ (DNAME_STATUS_VALID, "VALID");
    (DNAME_STATUS_INDETERMINATE, "INDETERMINATE");
    (DNAME_STATUS_INVALID_TARGET, "INVALID_TARGET");
    (DNAME_STATUS_INVALID, "INVALID") ].

(** [x in (a, b, c)] on status numbers *)
Definition status_in (x : Z) (l : list Z) : bool := existsb (Z.eqb x) l.

Module RRSIGStatus_serialize.

Import RRSIGStatus.

(** line 219 *)
Definition show_basic (s : t) (loglevel : Z) : bool :=
  show_findings (warnings s) (errors s) loglevel
  || negb (status_in (validation_status s)
             [RRSIG_STATUS_VALID; RRSIG_STATUS_INDETERMINATE_NO_DNSKEY;
              RRSIG_STATUS_INDETERMINATE_UNKNOWN_ALGORITHM]).

(** lines 213-214 *)
Definition __unicode__ (s : t) : value :=
  VCall "RRSIG covering %s/%s"
    [VName (RRsetInfo.rrset_name (rrset s));
     VCall "dns.rdatatype.to_text" [VInt (RRsetInfo.rrset_rdtype (rrset s))]].

(** lines 226-240 *)
Definition rdata_and_meta (s : t) (info : RRsetInfo.rrsig_info_t) : value * value :=
  let r := rrsig s in
  (VDict [ ("signer", VName (RRSIG.signer r));
           ("algorithm", VInt (RRSIG.algorithm r));
           ("key_tag", VInt (RRSIG.key_tag r));
           ("original_ttl", VInt (RRSIG.original_ttl r));
           ("labels", VInt (RRSIG.labels r));
           ("inception", VCall "fmt.timestamp_to_str" [VInt (RRSIG.inception r)]);
           ("expiration", VCall "fmt.timestamp_to_str" [VInt (RRSIG.expiration r)]);
           ("signature", VCall "base64.b64encode" [VBytes (RRSIG.signature r)]) ],
   VDict [ ("ttl", VInt (RRsetInfo.ttl info));
           ("age", VInt (reference_ts s - RRSIG.inception r));
           ("remaining_lifetime", VInt (RRSIG.expiration r - reference_ts s)) ]).

(** [d['meta'][k] = x] *)
Definition meta_setitem (k : string) (x : value) (d : ordered_dict) : result ordered_dict :=
  match dict_get String.eqb "meta" d with
  | Some (VDict m) => Ok (setitem "meta" (VDict (setitem k x m)) d)
  | Some _ => Raise AttributeError
  | None => Raise KeyError
  end.

(** lines 216-264 *)
Definition serialize (s : t) (consolidate_clients : bool) (loglevel : Z)
  : result ordered_dict :=
  let d : ordered_dict := [] in
  let show_basic := show_basic s loglevel in
  let d := if (loglevel <=? logging_INFO) || show_basic
           then setitem "description" (__unicode__ s) d
           else d in
  d <- (if loglevel <=? logging_DEBUG then
          info <- RRsetInfo.rrsig_info_getitem (rrset s) (rrsig s) ;;
          let '(rdata, meta) := rdata_and_meta s info in
          Ok (setitem "meta" meta (setitem "rdata" rdata d))
        else Ok d) ;;
  d <- (match dnskey s with
        | Some k =>
            if loglevel <=? logging_DEBUG then
              d <- meta_setitem "dnskey"
                     (VCall "to_text" [VInt (DNSKEY.flags (DNSKEY.rdata k));
                                       VInt (DNSKEY.algorithm (DNSKEY.rdata k));
                                       VBytes (DNSKEY.key (DNSKEY.rdata k))]) d ;;
              if negb (RRSIG.key_tag (rrsig s) =? DNSKEY.key_tag k)
              then meta_setitem "dnskey_key_tag_pre_revoke"
                     (VInt (DNSKEY.key_tag_no_revoke k)) d
              else Ok d
            else Ok d
        | None => Ok d
        end) ;;
  d <- (if (loglevel <=? logging_INFO) || show_basic then
          st <- status_getitem rrsig_status_mapping (validation_status s) ;;
          Ok (setitem "status" st d)
        else Ok d) ;;
  d <- (if (loglevel <=? logging_DEBUG) || show_basic then
          info <- RRsetInfo.rrsig_info_getitem (rrset s) (rrsig s) ;;
          Ok (setitem "servers"
                (serialize_servers (RRsetInfo.servers_clients info) consolidate_clients) d)
        else Ok d) ;;
  Ok (serialize_findings (warnings s) (errors s) consolidate_clients loglevel d).

End RRSIGStatus_serialize.

Module CNAMEFromDNAMEStatus_serialize.

Import CNAMEFromDNAMEStatus.

(** line 1300 *)
Definition show_basic (s : t) (loglevel : Z) : bool :=
  show_findings (warnings s) (errors s) loglevel
  || negb (validation_status s =? STATUS_VALID).

(** lines 1293-1294 *)
Definition __unicode__ (s : t) : value :=
  let syn := synthesized_cname s in
  VCall "CNAME synthesis for %s from %s/%s"
    [VName (CNAMEInfo.rrset_name (SynthesizedCNAME.cname syn));
     VName (DNAMEInfo.rrset_name (SynthesizedCNAME.dname_info syn));
     VCall "dns.rdatatype.to_text"
       [VInt (DNAMEInfo.rrset_rdtype (SynthesizedCNAME.dname_info syn))]].

(** [rrset_info_serializer(dname_info, consolidate_clients=..,
    show_servers=False, loglevel=..)], when the caller passes one *)
Definition serializer_t : Type := DNAMEInfo.t -> bool -> Z -> value.

(** lines 1296-1334 *)
Definition serialize (s : t) (rrset_info_serializer : option serializer_t)
    (consolidate_clients : bool) (loglevel : Z) : result ordered_dict :=
  let d : ordered_dict := [] in
  let show_basic := show_basic s loglevel in
  let dname_info := SynthesizedCNAME.dname_info (synthesized_cname s) in
  let d := if (loglevel <=? logging_INFO) || show_basic
           then setitem "description" (__unicode__ s) d
           else d in
  let d :=
    match rrset_info_serializer with
    | Some f =>
        let dname_serialized := f dname_info consolidate_clients loglevel in
        if value_truthy dname_serialized then setitem "dname" dname_serialized d else d
    | None =>
        if loglevel <=? logging_DEBUG
        then setitem "dname"
               (VCall "serialize" [VName (DNAMEInfo.rrset_name dname_info);
                                   VBool consolidate_clients; VBool false]) d
        else d
    end in
  let d :=
    if loglevel <=? logging_DEBUG then
      let meta : ordered_dict := [] in
      let meta :=
        match included_cname s with
        | Some inc =>
            setitem "cname_target" (VName (CNAMEInfo.target inc))
              (setitem "cname_owner" (VName (CNAMEInfo.rrset_name inc)) meta)
        | None => meta
        end in
      setitem "meta" (VDict meta) d
    else d in
  d <- (if (loglevel <=? logging_INFO) || negb (validation_status s =? STATUS_VALID) then
          st <- status_getitem dname_status_mapping (validation_status s) ;;
          Ok (setitem "status" st d)
        else Ok d) ;;
  let d :=
    if (loglevel <=? logging_DEBUG) || show_basic
    then setitem "servers"
           (serialize_servers (DNAMEInfo.servers_clients dname_info) consolidate_clients) d
    else d in
  Ok (serialize_findings (warnings s) (errors s) consolidate_clients loglevel d).

End CNAMEFromDNAMEStatus_serialize.

(* ------------------------------------------------------------------ *)
(** ** Sample inputs *)

Module Samples.

Definition zone : name := ["example"; ""].
Definition other_zone : name := ["attacker"; ""].
Definition www : name := ["www"; "example"; ""].

Definition crypto_ok : crypto.t :=
  {| crypto.validate_rrsig := fun _ _ _ _ => Some true;
     crypto.validate_ds_digest := fun _ _ _ => Some true |}.

Definition crypto_unsupported : crypto.t :=
  {| crypto.validate_rrsig := fun _ _ _ _ => None;
     crypto.validate_ds_digest := fun _ _ _ => None |}.

(** reference time of the scenarios *)
Definition t0 : Z := 1400000000.

Definition rrsig (signer : name) (inception expiration : Z) : RRSIG.t :=
  {| RRSIG.covers := 1; RRSIG.algorithm := 8; RRSIG.labels := 2;
     RRSIG.original_ttl := 3600; RRSIG.inception := inception;
     RRSIG.expiration := expiration; RRSIG.key_tag := 12345;
     RRSIG.signer := signer; RRSIG.signature := [] |}.

Definition rrset (rrsig_ttl : Z) : RRsetInfo.t :=
  {| RRsetInfo.rrset_name := www; RRsetInfo.rrset_rdtype := 1;
     RRsetInfo.rrset_ttl := 3600;
     RRsetInfo.rrsig_info :=
       fun _ => Some {| RRsetInfo.ttl := rrsig_ttl; RRsetInfo.servers_clients := [] |};
     RRsetInfo.message_for_rrsig := fun _ => [];
     RRsetInfo.servers_clients_of := [] |}.

Definition dnskey (flags key_tag : Z) : DNSKEY.t :=
  {| DNSKEY.rdata := {| DNSKEY.flags := flags; DNSKEY.algorithm := 8; DNSKEY.key := [] |};
     DNSKEY.key_tag := key_tag; DNSKEY.key_tag_no_revoke := 12345;
     DNSKEY.message_for_ds := [] |}.

Definition ds (key_tag : Z) : DS.t :=
  {| DS.key_tag := key_tag; DS.algorithm := 8; DS.digest_type := 2; DS.digest := [] |}.

Definition ds_meta : DSMeta.t :=
  {| DSMeta.rrset_name := zone; DSMeta.rrset_rdtype := rdatatype_DS;
     DSMeta.rrset_ttl := 3600; DSMeta.servers_clients := [] |}.

End Samples.

Module SampleViews.

Import Samples.

Definition foo : name := ["foo"; "example"; ""].
Definition a_example : name := ["a"; "example"; ""].
Definition z_example : name := ["z"; "example"; ""].
Definition star_example : name := ["*"; "example"; ""].

Definition rr (next : name) (flags : Z) (types : list Z) : NSECSet.rr_t :=
  {| NSECSet.next := next; NSECSet.flags := flags; NSECSet.types := types |}.

Definition entry (owner next : name) (flags : Z) (types : list Z)
  : name * NSECSet.rrset_info_t :=
  (owner, {| NSECSet.rrset_name := owner; NSECSet.rrset_0 := rr next flags types |}).

(** [d.get(k, set())] *)
Definition lookup_set (k : name) (d : list (name * name_set)) : name_set :=
  match dict_get name_eqb k d with
  | Some s => s
  | None => []
  end.

(** a view over NSEC records, with the covering names listed per name *)
Definition nsec_view (rrsets : list (name * NSECSet.rrset_info_t)) (referral : bool)
    (covering : list (name * name_set)) : NSECSet.t :=
  {| NSECSet.rrsets := rrsets;
     NSECSet.referral := referral;
     NSECSet.nsec_covering_name := fun n => lookup_set n covering;
     NSECSet.nsec3_params := [];
     NSECSet.get_digest_name_for_nsec3 := fun _ _ _ _ _ => None;
     NSECSet.nsec3_covering_name := fun _ _ _ _ => [];
     NSECSet.get_closest_encloser := fun _ _ => [];
     NSECSet.get_algorithm_support := ([], []);
     NSECSet.servers_clients := [] |}.

(** a view over NSEC3 records of one parameter group, with the digest of
    each name, the covering owners of each digest and the closest enclosers
    listed *)
Definition nsec3_view (rrsets : list (name * NSECSet.rrset_info_t)) (referral : bool)
    (alg : Z) (digests : list (name * name)) (covering : list (name * name_set))
    (enclosers : list (name * name_set)) (support : list Z * list Z) : NSECSet.t :=
  {| NSECSet.rrsets := rrsets;
     NSECSet.referral := referral;
     NSECSet.nsec_covering_name := fun _ => [];
     NSECSet.nsec3_params := [(([], alg, 10), dict_keys rrsets)];
     NSECSet.get_digest_name_for_nsec3 := fun n _ _ _ _ => dict_get name_eqb n digests;
     NSECSet.nsec3_covering_name := fun d _ _ _ => lookup_set d covering;
     NSECSet.get_closest_encloser := fun _ _ => enclosers;
     NSECSet.get_algorithm_support := support;
     NSECSet.servers_clients := [] |}.

(** scenario 5 of the specification: an NSEC covers [foo.example.], another
    covers [*.example.], none covers [example.] *)
Definition nxdomain_view : NSECSet.t :=
  nsec_view
    [entry zone a_example 0 [rdatatype_NS; rdatatype_SOA];
     entry a_example z_example 0 [1];
     entry z_example zone 0 [1]]
    false
    [(foo, [a_example]); (star_example, [zone])].

(** hashed owner names *)
Definition h (digest : string) : name := [digest; "example"; ""].

(** an NSEC3 owner matches [*.example.], none matches or covers
    [foo.example.] *)
Definition wildcard_nodata_view : NSECSet.t :=
  nsec3_view
    [entry (h "h-example") (h "h-star") 0 [rdatatype_NS; rdatatype_SOA];
     entry (h "h-star") (h "h-example") 0 [16]]
    false 1
    [(zone, h "h-example"); (star_example, h "h-star"); (foo, h "h-foo")]
    []
    [(zone, [h "h-example"])]
    ([1], []).

(** scenario 6 of the specification: no NSEC3 matches [foo.example.] or
    [*.example.], and the NSEC3 covering the digest of [foo.example.] has the
    opt-out flag *)
Definition opt_out_view : NSECSet.t :=
  nsec3_view
    [entry (h "h-example") (h "h-m") 0 [rdatatype_NS; rdatatype_SOA];
     entry (h "h-m") (h "h-example") 1 [rdatatype_NS]]
    false 1
    [(zone, h "h-example"); (star_example, h "h-star"); (foo, h "h-foo")]
    [(h "h-foo", [h "h-m"])]
    [(zone, [h "h-example"])]
    ([1], []).

(** scenario 7 of the specification: only an algorithm that is not supported,
    so no digest and no closest encloser *)
Definition unsupported_view : NSECSet.t :=
  nsec3_view
    [entry (h "h-1") (h "h-2") 0 [1]]
    false 99 [] [] [] ([], [99]).

End SampleViews.

Module SampleCNAME.

Definition dname_info : DNAMEInfo.t :=
  {| DNAMEInfo.rrset_name := Samples.zone; DNAMEInfo.rrset_rdtype := 39;
     DNAMEInfo.servers_clients := [] |}.

Definition target : name := ["www"; "example"; "net"; ""].

(** the CNAME synthesized from the DNAME, TTL 3600 *)
Definition synthesized : SynthesizedCNAME.t :=
  {| SynthesizedCNAME.cname :=
       {| CNAMEInfo.rrset_name := Samples.www; CNAMEInfo.rrset_ttl := 3600;
          CNAMEInfo.target := target |};
     SynthesizedCNAME.dname_info := dname_info |}.

(** the CNAME of the response: same target, TTL 300 *)
Definition included : CNAMEInfo.t :=
  {| CNAMEInfo.rrset_name := Samples.www; CNAMEInfo.rrset_ttl := 300;
     CNAMEInfo.target := target |}.

End SampleCNAME.

(* ------------------------------------------------------------------ *)
(** ** Predicates used by the statements *)

(** the errors that RRSIGStatus records without touching the status *)
Definition ttl_error (e : Error) : Prop :=
  match e with
  | OriginalTTLExceeded _ _ | TTLBeyondExpiration _ _ _ => True
  | _ => False
  end.

Definition rrsig_failure (status : Z) : bool :=
  status_in status [RRSIG_STATUS_EXPIRED; RRSIG_STATUS_PREMATURE;
                    RRSIG_STATUS_INVALID_SIG; RRSIG_STATUS_INVALID].

Definition rrsig_parity (p : progress) : Prop :=
  (rrsig_failure (p_status p) = true -> p_errors p <> [])
  /\ (p_status p = RRSIG_STATUS_VALID -> Forall ttl_error (p_errors p)).

Definition algorithms_reported (v : NSECSet.t) : Prop :=
  fst (NSECSet.get_algorithm_support v) <> []
  \/ snd (NSECSet.get_algorithm_support v) <> [].

(** [a] is an ancestor of [qname] other than [qname] itself, at or below
    [origin]: the names [wildcard_cover.parent()] of the scan of
    NSECStatusNXDOMAIN, from the parent of [qname] up to [origin] included *)
Definition wildcard_ancestor (qname origin a : name) : Prop :=
  exists l1 l2, l1 <> [] /\ qname = l1 ++ a /\ a = l2 ++ origin.

(** [a] lies strictly between [qname] and [origin] *)
Definition strictly_between (qname origin a : name) : Prop :=
  exists l1 l2, l1 <> [] /\ l2 <> [] /\ qname = l1 ++ a /\ a = l2 ++ origin.

(** the view's contract on NSEC covering names: they are owners it holds *)
Definition covering_owned (v : NSECSet.t) : Prop :=
  forall n x, In x (NSECSet.nsec_covering_name v n) ->
              exists info, NSECSet.rrsets_getitem v x = Ok info.

(** [x] is a member of one of the sets held by the dict [d] *)
Definition in_values {E} (x : E) (d : list (name * list E)) : Prop :=
  exists k s, In (k, s) d /\ In x s.

(** The owner names a valid proof cites, class by class: the covering names,
    the matching names and the closest-encloser names its attributes hold. *)
Module Cited.

Definition nsec_nxdomain (f : NSECStatusNXDOMAIN.fields) (n : name) : Prop :=
  in_values n (NSECStatusNXDOMAIN.nsec_names_covering_qname f)
  \/ in_values n (NSECStatusNXDOMAIN.nsec_names_covering_wildcard f).

Definition nsec_wildcard (f : NSECStatusNXDOMAIN.fields) (n : name) : Prop :=
  in_values n (NSECStatusNXDOMAIN.nsec_names_covering_qname f).

Definition nsec_noanswer (f : NSECStatusNoAnswer.fields) (n : name) : Prop :=
  match NSECStatusNoAnswer.nsec_for_qname f with
  | Some info => n = NSECSet.rrset_name info
  | None => in_values n (NSECStatusNoAnswer.nsec_names_covering_qname f)
  end
  \/ (NSECStatusNoAnswer.nsec_for_wildcard_name f <> None
      /\ n = NSECStatusNoAnswer.wildcard_name f).

Definition nsec3_nxdomain (f : NSEC3StatusNXDOMAIN.fields name) (n : name) : Prop :=
  in_values n (NSEC3StatusNXDOMAIN.closest_encloser f)
  \/ in_values n (NSEC3StatusNXDOMAIN.nsec_names_covering_qname f)
  \/ in_values n (NSEC3StatusNXDOMAIN.nsec_names_covering_wildcard f).

Definition nsec3_wildcard (f : NSEC3StatusNXDOMAIN.fields (option name)) (n : name)
  : Prop :=
  in_values (Some n) (NSEC3StatusNXDOMAIN.closest_encloser f)
  \/ in_values n (NSEC3StatusNXDOMAIN.nsec_names_covering_qname f).

Definition nsec3_noanswer (f : NSEC3StatusNoAnswer.fields) (n : name) : Prop :=
  in_values n (NSEC3StatusNoAnswer.closest_encloser f)
  \/ (if truthy (NSEC3StatusNoAnswer.nsec_for_qname f)
      then In n (NSEC3StatusNoAnswer.nsec_for_qname f)
      else in_values n (NSEC3StatusNoAnswer.nsec_names_covering_qname f))
  \/ In n (NSEC3StatusNoAnswer.nsec_for_wildcard_name f).

End Cited.

(** the NSEC3 record at owner [n] has the opt-out flag (bit 0) set *)
Definition opt_out_flagged (v : NSECSet.t) (n : name) : bool :=
  match NSECSet.rrsets_getitem v n with
  | Ok info => flag_set (NSECSet.flags (NSECSet.rrset_0 info)) 1
  | Raise _ => false
  end.

(** every name of the covering sets is an owner the view holds *)
Definition covering_held (v : NSECSet.t) (covering : list (name * name_set)) : Prop :=
  forall d names n, In (d, names) covering -> In n names ->
                    exists info, NSECSet.rrsets_getitem v n = Ok info.

(** the view's contract on digests, for the parameter tuples the classes
    ask about, those of [nsec3_params]: no digest under a tuple whose
    algorithm is not among the valid ones ("none when algorithm
    unsupported") *)
Definition digests_need_support (v : NSECSet.t) : Prop :=
  forall n origin salt alg iterations names,
    In ((salt, alg, iterations), names) (NSECSet.nsec3_params v) ->
    ~ In alg (fst (NSECSet.get_algorithm_support v)) ->
    NSECSet.get_digest_name_for_nsec3 v n origin salt alg iterations = None.

(** every digest recorded in [name_digest_map] is [None] *)
Definition all_none (m : name_digest_map_t) : Prop :=
  Forall (fun entry => Forall (fun kv : digest_key * option name => snd kv = None)
                         (snd entry)) m.

(** the loops of NSEC3StatusNXDOMAIN have found no digest and no covering
    name so far *)
Definition covered_nothing (st : NSEC3StatusNXDOMAIN.loop_state) : Prop :=
  let '(m, cq, cw) := st in all_none m /\ cq = [] /\ cw = [].

(* ------------------------------------------------------------------ *)
(** ** Findings, read off the conditions alone *)

(** The errors of an RRSIG evaluation as section 4.1 of the specification
    lists them: one entry per condition that holds, in the order of the
    checks, whatever the status is at that point. *)
Definition rrsig_expected_errors (rrset : RRsetInfo.t) (rrsig : RRSIG.t)
    (dnskey : option DNSKEY.t) (zone_name : option name) (reference_ts : Z)
    (algorithm_unknown : bool) (signature_valid : option bool)
    (info : RRsetInfo.rrsig_info_t) : list Error :=
  (if RRsetInfo.ttl info >? RRSIG.original_ttl rrsig
   then [OriginalTTLExceeded (RRsetInfo.rrset_ttl rrset) (RRSIG.original_ttl rrsig)]
   else [])
  ++ (if RRSIGStatus.signer_mismatch rrset rrsig zone_name
      then [SignerNotZone (match zone_name with
                           | Some z => z
                           | None => RRSIG.signer rrsig
                           end) (RRSIG.signer rrsig)]
      else [])
  ++ (match dnskey with
      | Some k =>
          if flag_set (DNSKEY.flags (DNSKEY.rdata k)) DNSKEY_FLAGS_revoke
             && negb (RRSIG.covers rrsig =? rdatatype_DNSKEY)
             && (RRSIG.key_tag rrsig =? DNSKEY.key_tag k)
          then [DNSKEYRevokedRRSIG]
          else []
      | None => []
      end)
  ++ (if reference_ts <? RRSIG.inception rrsig
      then [InceptionInFuture (RRSIG.inception rrsig) reference_ts]
      else [])
  ++ (if reference_ts >=? RRSIG.expiration rrsig
      then [ExpirationInPast (RRSIG.expiration rrsig) reference_ts]
      else if reference_ts + RRSIGStatus.min_ttl rrset rrsig info
                >=? RRSIG.expiration rrsig
      then [TTLBeyondExpiration (RRSIG.expiration rrsig)
              (RRSIGStatus.min_ttl rrset rrsig info) reference_ts]
      else [])
  ++ (match dnskey with
      | Some k =>
          if negb algorithm_unknown && eq_False signature_valid
             && (DNSKEY.key_tag k =? RRSIG.key_tag rrsig)
          then [SignatureInvalid]
          else []
      | None => []
      end).

(** The warnings of an RRSIG evaluation, likewise. *)
Definition rrsig_expected_warnings (rrset : RRsetInfo.t) (rrsig : RRSIG.t)
    (dnskey : option DNSKEY.t) (algorithm_unknown : bool)
    (signature_valid : option bool) (info : RRsetInfo.rrsig_info_t) : list Error :=
  (match dnskey with
   | Some _ =>
       if is_None signature_valid || algorithm_unknown
       then [AlgorithmNotSupported (RRSIG.algorithm rrsig)]
       else []
   | None => []
   end)
  ++ (if negb (RRsetInfo.rrset_ttl rrset =? RRsetInfo.ttl info)
      then [RRsetTTLMismatch (RRsetInfo.rrset_ttl rrset) (RRsetInfo.ttl info)]
      else []).

(** The status of a DS evaluation as section 4.2 of the specification orders
    its rules: the first rule that applies decides. *)
Definition ds_expected_status (ds : DS.t) (dnskey : option DNSKEY.t)
    (digest_algorithm_unknown : bool) (digest_valid : option bool) : Z :=
  match dnskey with
  | None => DS_STATUS_INDETERMINATE_NO_DNSKEY
  | Some k =>
      if is_None digest_valid || digest_algorithm_unknown
      then DS_STATUS_INDETERMINATE_UNKNOWN_ALGORITHM
      else if flag_set (DNSKEY.flags (DNSKEY.rdata k)) DNSKEY_FLAGS_revoke
      then if DNSKEY.key_tag k =? DS.key_tag ds
           then DS_STATUS_INVALID
           else DS_STATUS_INDETERMINATE_MATCH_PRE_REVOKE
      else if eq_False digest_valid && (DNSKEY.key_tag k =? DS.key_tag ds)
      then DS_STATUS_INVALID_DIGEST
      else DS_STATUS_VALID
  end.

(** The errors of a DS evaluation: one entry per condition that holds. *)
Definition ds_expected_errors (ds : DS.t) (dnskey : option DNSKEY.t)
    (digest_algorithm_unknown : bool) (digest_valid : option bool) : list Error :=
  match dnskey with
  | None => []
  | Some k =>
      (if flag_set (DNSKEY.flags (DNSKEY.rdata k)) DNSKEY_FLAGS_revoke
          && (DNSKEY.key_tag k =? DS.key_tag ds)
       then [DNSKEYRevokedDS] else [])
      ++ (if negb digest_algorithm_unknown && eq_False digest_valid
             && (DNSKEY.key_tag k =? DS.key_tag ds)
          then [DigestInvalid] else [])
  end.

Definition ds_expected_warnings (ds : DS.t) (dnskey : option DNSKEY.t)
    (digest_algorithm_unknown : bool) (digest_valid : option bool) : list Error :=
  match dnskey with
  | None => []
  | Some _ =>
      if is_None digest_valid || digest_algorithm_unknown
      then [DigestAlgorithmNotSupported (DS.digest_type ds)]
      else []
  end.


(* ------------------------------------------------------------------ *)
(** ** Counting the algorithm error *)

(** the number of UnsupportedNSEC3Algorithm errors for [alg] recorded so far *)
Definition unsupported_count (alg : Z) (errors : list Error) : nat :=
  count_occ Error_eq_dec errors (UnsupportedNSEC3Algorithm alg).

(** an error of the rules themselves, not of the algorithm support *)
Definition semantic_error (e : Error) : Prop :=
  forall alg, e <> UnsupportedNSEC3Algorithm alg.

(* ------------------------------------------------------------------ *)
(** ** Covering sets recorded by the NSEC3 classes *)

(** every entry of the dict is the non-empty covering set the view reports
    for its key, under some parameter group *)
Definition covering_from_view (v : NSECSet.t) (d : list (name * name_set)) : Prop :=
  Forall (fun kv : name * name_set =>
            snd kv <> []
            /\ exists salt alg iterations,
                snd kv = NSECSet.nsec3_covering_name v (fst kv) salt alg iterations) d.

(** the view's contract on NSEC3 covering names: they are owners it holds *)
Definition nsec3_covering_owned (v : NSECSet.t) : Prop :=
  forall d salt alg iterations x,
    In x (NSECSet.nsec3_covering_name v d salt alg iterations) ->
    exists info, NSECSet.rrsets_getitem v x = Ok info.

(* ------------------------------------------------------------------ *)
(** ** The digest memo of the NSEC3 classes *)

(** every digest stored under a parameter tuple is the one the view computes
    for that name and that tuple *)
Definition memo_sound (v : NSECSet.t) (origin : name) (m : name_digest_map_t) : Prop :=
  forall n salt alg iterations d,
    name_digest_getitem m n (Some (salt, alg, iterations)) = Ok d ->
    d = NSECSet.get_digest_name_for_nsec3 v n origin salt alg iterations.

(** [k in m[n]] *)
Definition memo_has (m : name_digest_map_t) (n : name) (k : digest_key) : Prop :=
  exists d, name_digest_getitem m n k = Ok d.

(** the view's contract on [nsec3_params]: the names listed under a parameter
    tuple are owners it holds *)
Definition params_owned (v : NSECSet.t) : Prop :=
  forall key names d,
    In (key, names) (NSECSet.nsec3_params v) -> In d names ->
    exists info, NSECSet.rrsets_getitem v d = Ok info.

(** an NSEC3 record of the view is owned by the digest of [n] under its own
    parameter tuple *)
Definition matched_by (v : NSECSet.t) (origin n d : name) : Prop :=
  exists salt alg iterations names,
    In ((salt, alg, iterations), names) (NSECSet.nsec3_params v)
    /\ NSECSet.get_digest_name_for_nsec3 v n origin salt alg iterations = Some d
    /\ In d names.

(** NSEC3StatusNoAnswer: no NSEC3 matches the name, one matches the wildcard
    of a closest encloser (the branch of lines 1119-1133) *)
Definition wildcard_only (f : NSEC3StatusNoAnswer.fields) : Prop :=
  NSEC3StatusNoAnswer.nsec_for_qname f = []
  /\ NSEC3StatusNoAnswer.nsec_for_wildcard_name f <> [].

(** the test of line 1120 succeeds and the error of line 1127 is to be
    recorded *)
Definition next_closer_reported (f : NSEC3StatusNoAnswer.fields) (v : NSECSet.t) : Prop :=
  NSEC3StatusNoAnswer.nsec_names_covering_qname f = []
  /\ fst (NSECSet.get_algorithm_support v) <> [].

(* ------------------------------------------------------------------ *)
(** ** DSStatus.serialize *)

Definition ds_status_mapping : list (Z * string) :=
  [ (DS_STATUS_VALID, "VALID");
    (DS_STATUS_INDETERMINATE_NO_DNSKEY, "INDETERMINATE_NO_DNSKEY");
    (DS_STATUS_INDETERMINATE_MATCH_PRE_REVOKE, "INDETERMINATE_MATCH_PRE_REVOKE");
    (DS_STATUS_INDETERMINATE_UNKNOWN_ALGORITHM, "INDETERMINATE_UNKNOWN_ALGORITHM");
    (DS_STATUS_INVALID_DIGEST, "INVALID_DIGEST");
    (DS_STATUS_INVALID, "INVALID") ].

Module DSStatus_serialize.

Import DSStatus.

(** line 313 *)
Definition show_basic (s : t) (loglevel : Z) : bool :=
  show_findings (warnings s) (errors s) loglevel
  || negb (status_in (validation_status s)
             [DS_STATUS_VALID; DS_STATUS_INDETERMINATE_NO_DNSKEY;
              DS_STATUS_INDETERMINATE_UNKNOWN_ALGORITHM]).

(** lines 307-308 *)
Definition __unicode__ (s : t) : value :=
  VCall "%s record(s) corresponding to DNSKEY for %s (algorithm %d (%s), key tag %d)"
    [VCall "dns.rdatatype.to_text" [VInt (DSMeta.rrset_rdtype (ds_meta s))];
     VName (DSMeta.rrset_name (ds_meta s));
     VInt (DS.algorithm (ds s));
     VCall "fmt.DNSKEY_ALGORITHMS.get"
       [VInt (DS.algorithm (ds s)); VInt (DS.algorithm (ds s))];
     VInt (DS.key_tag (ds s))].

(** lines 319-326 *)
Definition rdata (s : t) : value :=
  VDict [ ("algorithm", VInt (DS.algorithm (ds s)));
          ("key_tag", VInt (DS.key_tag (ds s)));
          ("digest_type", VInt (DS.digest_type (ds s)));
          ("digest", VCall "base64.b64encode" [VBytes (DS.digest (ds s))]) ].

(** lines 310-354 *)
Definition serialize (s : t) (consolidate_clients : bool) (loglevel : Z)
  : result ordered_dict :=
  let d : ordered_dict := [] in
  let show_basic := show_basic s loglevel in
  let d := if (loglevel <=? logging_INFO) || show_basic
           then setitem "description" (__unicode__ s) d
           else d in
  let d := if loglevel <=? logging_DEBUG
           then setitem "meta" (VDict []) (setitem "rdata" (rdata s) d)
           else d in
  d <- (if loglevel <=? logging_DEBUG then
          d <- RRSIGStatus_serialize.meta_setitem "ttl"
                 (VInt (DSMeta.rrset_ttl (ds_meta s))) d ;;
          match dnskey s with
          | None => RRSIGStatus_serialize.meta_setitem "dnskey" VNone d
          | Some k =>
              d <- RRSIGStatus_serialize.meta_setitem "dnskey"
                     (VCall "to_text" [VInt (DNSKEY.flags (DNSKEY.rdata k));
                                       VInt (DNSKEY.algorithm (DNSKEY.rdata k));
                                       VBytes (DNSKEY.key (DNSKEY.rdata k))]) d ;;
              if negb (DS.key_tag (ds s) =? DNSKEY.key_tag k)
              then RRSIGStatus_serialize.meta_setitem "dnskey_key_tag_pre_revoke"
                     (VInt (DNSKEY.key_tag_no_revoke k)) d
              else Ok d
          end
        else Ok d) ;;
  d <- (if (loglevel <=? logging_INFO) || show_basic then
          st <- status_getitem ds_status_mapping (validation_status s) ;;
          Ok (setitem "status" st d)
        else Ok d) ;;
  let d :=
    if (loglevel <=? logging_DEBUG) || show_basic
    then setitem "servers"
           (serialize_servers (DSMeta.servers_clients (ds_meta s)) consolidate_clients) d
    else d in
  Ok (serialize_findings (warnings s) (errors s) consolidate_clients loglevel d).

End DSStatus_serialize.

(* ------------------------------------------------------------------ *)
(** ** The keys of a serialized status *)

(** the status number has a name in the mapping *)
Definition status_known (mapping : list (Z * string)) (status : Z) : Prop :=
  exists text, dict_get Z.eqb status mapping = Some text.

(** the keys of the dict in the order [serialize] writes them; [detail] are
    the keys written at level DEBUG *)
Definition serialized_keys (description : bool) (detail : list string)
    (status servers warnings errors : bool) : list string :=
  (if description then ["description"] else [])
  ++ detail
  ++ (if status then ["status"] else [])
  ++ (if servers then ["servers"] else [])
  ++ (if warnings then ["warnings"] else [])
  ++ (if errors then ["errors"] else []).

(** the keys of [d['meta']], when it is a dict *)
Definition meta_keys (d : ordered_dict) : option (list string) :=
  match dict_get String.eqb "meta" d with
  | Some (VDict m) => Some (dict_keys m)
  | _ => None
  end.

(* ------------------------------------------------------------------ *)
(** ** NSECStatusNXDOMAIN.serialize and NSECStatusWildcard.serialize *)

Definition nsec_status_mapping : list (Z * string) :=
  [ (NSEC_STATUS_VALID, "VALID");
    (NSEC_STATUS_INDETERMINATE, "INDETERMINATE");
    (NSEC_STATUS_INVALID, "INVALID") ].

(** [del d[k]] *)
Definition delitem (k : string) (d : ordered_dict) : result ordered_dict :=
  if has_key k d
  then Ok (filter (fun kv => negb (String.eqb (fst kv) k)) d)
  else Raise KeyError.

Module NSECStatusNXDOMAIN_serialize.

Import NSECStatusNXDOMAIN.

(** line 428 *)
Definition show_basic (s : t) (loglevel : Z) : bool :=
  show_findings (warnings s) (errors s) loglevel
  || negb (validation_status s =? STATUS_VALID).

(** lines 422-423 *)
Definition __unicode__ (s : t) : value :=
  VCall "NSEC record(s) proving the non-existence (NXDOMAIN) of %s"
    [VName (qname (self s))].

(** [rrset_info_serializer(nsec_rrset, consolidate_clients=..,
    show_servers=False, loglevel=..)], when the caller passes one *)
Definition serializer_t : Type := NSECSet.rrset_info_t -> bool -> Z -> value.

(** lines 433-440: what the loop appends to [d['nsec']] *)
Definition nsec_list (v : NSECSet.t) (rrset_info_serializer : option serializer_t)
    (consolidate_clients : bool) (loglevel : Z) : list value :=
  match rrset_info_serializer with
  | Some f =>
      filter value_truthy
        (map (fun r => f r consolidate_clients loglevel) (dict_values (NSECSet.rrsets v)))
  | None =>
      if loglevel <=? logging_DEBUG
      then map (fun r => VCall "serialize"
                           [VName (NSECSet.rrset_name r); VBool consolidate_clients;
                            VBool false])
               (dict_values (NSECSet.rrsets v))
      else []
  end.

(** lines 447-454 and 457-464: the entry for the first covering set, read
    from the retained view; [items()[0]] and [list(nsec_names)[0]] are the
    heads of the lists *)
Definition chain (label : string) (covering : list (name * name_set)) (v : NSECSet.t)
  : result (option value) :=
  match covering with
  | [] => Ok None
  | (k, nsec_names) :: _ =>
      match nsec_names with
      | [] => Raise IndexError
      | nsec_name :: _ =>
          info <- NSECSet.rrsets_getitem v nsec_name ;;
          Ok (Some (VDict [ (label, VName k);
                            ("nsec_owner", VName nsec_name);
                            ("nsec_next", VName (NSECSet.next (NSECSet.rrset_0 info))) ]))
      end
  end.

(** lines 444-464 *)
Definition meta (s : t) : result ordered_dict :=
  let f := self s in
  let m := setitem "qname" (VName (qname f)) [] in
  c <- chain "qname" (nsec_names_covering_qname f) (nsec_set_info s) ;;
  let m := match c with
           | Some x => setitem "nsec_chain_covering_qname" x m
           | None => m
           end in
  let m := setitem "wildcard" (VName (wildcard_name f)) m in
  c <- chain "wildcard" (nsec_names_covering_wildcard f) (nsec_set_info s) ;;
  Ok (match c with
      | Some x => setitem "nsec_chain_covering_wildcard" x m
      | None => m
      end).

(** lines 425-483 *)
Definition serialize (s : t) (rrset_info_serializer : option serializer_t)
    (consolidate_clients : bool) (loglevel : Z) : result ordered_dict :=
  let d : ordered_dict := [] in
  let show_basic := show_basic s loglevel in
  let d := if (loglevel <=? logging_INFO) || show_basic
           then setitem "description" (__unicode__ s) d
           else d in
  let nsec := nsec_list (nsec_set_info s) rrset_info_serializer consolidate_clients
                loglevel in
  let d := setitem "nsec" (VList nsec) d in
  d <- (if negb (truthy nsec) then delitem "nsec" d else Ok d) ;;
  d <- (if loglevel <=? logging_DEBUG then
          m <- meta s ;;
          Ok (setitem "meta" (VDict m) d)
        else Ok d) ;;
  d <- (if (loglevel <=? logging_INFO) || show_basic then
          st <- status_getitem nsec_status_mapping (validation_status s) ;;
          Ok (setitem "status" st d)
        else Ok d) ;;
  let d :=
    if (loglevel <=? logging_DEBUG) || show_basic
    then setitem "servers"
           (serialize_servers (NSECSet.servers_clients (nsec_set_info s))
              consolidate_clients) d
    else d in
  Ok (serialize_findings (warnings s) (errors s) consolidate_clients loglevel d).

End NSECStatusNXDOMAIN_serialize.

Module NSECStatusWildcard_serialize.

(** lines 534-540: the inherited [serialize], then
    [del d['meta']['wildcard']] with [KeyError] passed over *)
Definition serialize (s : NSECStatusNXDOMAIN.t)
    (rrset_info_serializer : option NSECStatusNXDOMAIN_serialize.serializer_t)
    (consolidate_clients : bool) (loglevel : Z) : result ordered_dict :=
  d <- NSECStatusNXDOMAIN_serialize.serialize s rrset_info_serializer
         consolidate_clients loglevel ;;
  try_KeyError
    (match dict_get String.eqb "meta" d with
     | None => Raise KeyError
     | Some (VDict m) =>
         m <- delitem "wildcard" m ;;
         Ok (setitem "meta" (VDict m) d)
     | Some _ => Raise AttributeError
     end)
    (Ok d).

End NSECStatusWildcard_serialize.

(** every entry of the dict is the non-empty set of NSEC names the view
    reports as covering its key *)
Definition covering_from_nsec (v : NSECSet.t) (d : list (name * name_set)) : Prop :=
  Forall (fun kv : name * name_set =>
            snd kv <> [] /\ snd kv = NSECSet.nsec_covering_name v (fst kv)) d.

(* ------------------------------------------------------------------ *)
(** ** NSECStatusNoAnswer.serialize *)

Module NSECStatusNoAnswer_serialize.

Import NSECStatusNoAnswer.

(** line 663 *)
Definition show_basic (s : t) (loglevel : Z) : bool :=
  show_findings (warnings s) (errors s) loglevel
  || negb (validation_status s =? STATUS_VALID).

(** lines 601-602 *)
Definition __unicode__ (s : t) : value :=
  VCall "NSEC record(s) proving non-existence (NXRRSET) of %s/%s"
    [VName (qname (self s));
     VCall "dns.rdatatype.to_text" [VInt (rdtype (self s))]].

(** lines 679-703 *)
Definition meta (s : t) : result ordered_dict :=
  let f := self s in
  let m := setitem "qname" (VName (qname f)) [] in
  let m := match nsec_for_qname f with
           | Some info =>
               setitem "nsec_matching_qname"
                 (VDict [("qname", VName (NSECSet.rrset_name info))]) m
           | None => m
           end in
  c <- NSECStatusNXDOMAIN_serialize.chain "qname" (nsec_names_covering_qname f)
         (nsec_set_info s) ;;
  let m := match c with
           | Some x => setitem "nsec_chain_covering_qname" x m
           | None => m
           end in
  let m := setitem "wildcard" (VName (wildcard_name f)) m in
  Ok (match nsec_for_wildcard_name f with
      | Some _ =>
          setitem "nsec_matching_wildcard"
            (VDict [("wildcard", VName (wildcard_name f))]) m
      | None => m
      end).

(** lines 660-721 *)
Definition serialize (s : t)
    (rrset_info_serializer : option NSECStatusNXDOMAIN_serialize.serializer_t)
    (consolidate_clients : bool) (loglevel : Z) : result ordered_dict :=
  let d : ordered_dict := [] in
  let show_basic := show_basic s loglevel in
  let d := if (loglevel <=? logging_INFO) || show_basic
           then setitem "description" (__unicode__ s) d
           else d in
  let nsec := NSECStatusNXDOMAIN_serialize.nsec_list (nsec_set_info s)
                rrset_info_serializer consolidate_clients loglevel in
  let d := setitem "nsec" (VList nsec) d in
  d <- (if negb (truthy nsec) then delitem "nsec" d else Ok d) ;;
  d <- (if loglevel <=? logging_DEBUG then
          m <- meta s ;;
          Ok (setitem "meta" (VDict m) d)
        else Ok d) ;;
  d <- (if (loglevel <=? logging_INFO) || show_basic then
          st <- status_getitem nsec_status_mapping (validation_status s) ;;
          Ok (setitem "status" st d)
        else Ok d) ;;
  let d :=
    if (loglevel <=? logging_DEBUG) || show_basic
    then setitem "servers"
           (serialize_servers (NSECSet.servers_clients (nsec_set_info s))
              consolidate_clients) d
    else d in
  Ok (serialize_findings (warnings s) (errors s) consolidate_clients loglevel d).

End NSECStatusNoAnswer_serialize.

(** the name [list(nsec_names)[0]] of the first covering set, which
    [serialize] looks up in the retained view *)
Definition first_covering_name (covering : list (name * name_set)) : option name :=
  match covering with
  | (_, n :: _) :: _ => Some n
  | _ => None
  end.

(* ------------------------------------------------------------------ *)
(** ** NSEC3 digests and parameter tuples *)

(** the digest name [d] belongs to the parameter tuple [key]: of the next
    closer names the loop of lines 1060-1070 hashes, none has the digest [d]
    under another tuple of [nsec3_params].  [nsec_names_covering_qname] is
    keyed by the digest name alone (line 1070), so what it holds for [d] is
    then the covering set read under [key]. *)
Definition digest_of_one_tuple (v : NSECSet.t) (qname origin : name)
    (key : NSECSet.params) (d : name) : Prop :=
  forall encloser salt alg iterations names,
    In encloser (dict_keys (NSECSet.get_closest_encloser v qname origin)) ->
    In ((salt, alg, iterations), names) (NSECSet.nsec3_params v) ->
    NSECSet.get_digest_name_for_nsec3 v (_get_next_closest_encloser qname encloser)
      origin salt alg iterations = Some d ->
    (salt, alg, iterations) = key.

(** [covering[d]] is the covering set the view reports for [d] under the
    tuple [(salt, alg, iterations)] *)
Definition covering_recorded (v : NSECSet.t) (salt : bytes) (alg iterations : Z)
    (d : name) (covering : list (name * name_set)) : Prop :=
  dict_get name_eqb d covering
  = Some (NSECSet.nsec3_covering_name v d salt alg iterations).

(* ------------------------------------------------------------------ *)
(** ** Properties of the evaluation in progress *)



Lemma set_if_valid_errors (s : Z) (p : progress) :
  p_errors (set_if_valid s p) = p_errors p.
Proof. unfold set_if_valid. destruct (_ =? _); reflexivity. Qed.

Lemma set_if_valid_status (s : Z) (p : progress) :
  p_status (set_if_valid s p) = if p_status p =? STATUS_VALID then s else p_status p.
Proof. unfold set_if_valid. destruct (_ =? _); reflexivity. Qed.

Lemma app_not_nil {A} (l : list A) (x : A) : l ++ [x] <> [].
Proof. destruct l; discriminate. Qed.

Lemma truthy_false_nil {A} (l : list A) : truthy l = false <-> l = [].
Proof. destruct l; simpl; split; congruence. Qed.

Lemma truthy_true_not_nil {A} (l : list A) : truthy l = true <-> l <> [].
Proof. destruct l; simpl; split; congruence. Qed.

(** the case analysis on the branch conditions of one check *)
Ltac split_checks :=
  repeat match goal with
         | |- context [if ?b then _ else _] => destruct b eqn:?
         | |- context [match ?o with Some _ => _ | None => _ end] => destruct o eqn:?
         end.

(* ------------------------------------------------------------------ *)
(** ** RRSIGStatus and DSStatus: the checks one by one *)

Lemma p_status_err e p : p_status (err e p) = p_status p.
Proof. reflexivity. Qed.

Lemma p_errors_err e p : p_errors (err e p) = p_errors p ++ [e].
Proof. reflexivity. Qed.

Lemma p_status_warn w p : p_status (warn w p) = p_status p.
Proof. reflexivity. Qed.

Lemma p_errors_warn w p : p_errors (warn w p) = p_errors p.
Proof. reflexivity. Qed.

Lemma p_status_set_status s p : p_status (set_status s p) = s.
Proof. reflexivity. Qed.

Lemma p_errors_set_status s p : p_errors (set_status s p) = p_errors p.
Proof. reflexivity. Qed.

Create Rewrite HintDb progress.

#[local] Hint Rewrite p_status_err p_errors_err p_status_warn p_errors_warn
  p_status_set_status p_errors_set_status set_if_valid_errors : progress.

Section RRSIGChecks.

Variables (rrset : RRsetInfo.t) (rrsig : RRSIG.t).

Lemma rrsig_check_ttl_status info p :
  p_status (RRSIGStatus.check_ttl rrset rrsig info p) = p_status p.
Proof. unfold RRSIGStatus.check_ttl. split_checks; reflexivity. Qed.

Lemma rrsig_check_ttl_errors info p :
  incl (p_errors p) (p_errors (RRSIGStatus.check_ttl rrset rrsig info p)).
Proof.
  unfold RRSIGStatus.check_ttl.
  split_checks; simpl; auto using incl_refl, incl_appl.
Qed.





Lemma timestamp_to_datetime_Ok (ts d : Z) :
  fmt.timestamp_to_datetime ts = Ok d -> d = ts /\ fmt.representable ts = true.
Proof.
  unfold fmt.timestamp_to_datetime. destruct (fmt.representable ts); [| discriminate].
  intros E. injection E as <-. auto.
Qed.

Lemma timestamp_to_datetime_representable (ts : Z) :
  fmt.representable ts = true -> fmt.timestamp_to_datetime ts = Ok ts.
Proof. unfold fmt.timestamp_to_datetime. intros ->. reflexivity. Qed.

Lemma timestamp_to_datetime_raises (ts : Z) :
  fmt.representable ts = false -> fmt.timestamp_to_datetime ts = Raise ValueError.
Proof. unfold fmt.timestamp_to_datetime. intros ->. reflexivity. Qed.

(** [check_window] returns exactly when the timestamps it converts are
    representable, and then with the progress of [window_progress]; otherwise
    it raises [ValueError] *)
Lemma rrsig_check_window_cases ts mttl p :
  RRSIGStatus.check_window rrsig ts mttl p
  = if RRSIGStatus.window_representable rrsig ts mttl
    then Ok (RRSIGStatus.window_progress rrsig ts mttl p)
    else Raise ValueError.
Proof.
  unfold RRSIGStatus.check_window, RRSIGStatus.window_progress,
    RRSIGStatus.window_representable, fmt.timestamp_to_datetime.
  destruct (ts <? RRSIG.inception rrsig);
    destruct (ts >=? RRSIG.expiration rrsig);
    destruct (ts + mttl >=? RRSIG.expiration rrsig);
    destruct (fmt.representable (RRSIG.inception rrsig));
    destruct (fmt.representable (RRSIG.expiration rrsig));
    destruct (fmt.representable ts); reflexivity.
Qed.

Lemma rrsig_check_window_Ok ts mttl p p' :
  RRSIGStatus.check_window rrsig ts mttl p = Ok p' ->
  p' = RRSIGStatus.window_progress rrsig ts mttl p
  /\ RRSIGStatus.window_representable rrsig ts mttl = true.
Proof.
  rewrite rrsig_check_window_cases.
  destruct (RRSIGStatus.window_representable rrsig ts mttl); [| discriminate].
  intros E. injection E as <-. auto.
Qed.



End RRSIGChecks.

(** C10: without a DNSKEY the verdict of the crypto primitive is [None], the
    last check of [RRSIGStatus.__init__] and of [DSStatus.__init__] is then
    skipped whatever the progress is, so [dnskey.key_tag] is never taken of
    [None]: DSStatus returns a status object, and RRSIGStatus returns one
    unless an earlier line raises, [KeyError] when the RRSIG is missing from
    [rrsig_info] (line 168) or [ValueError] when the window check converts a
    timestamp that is no [datetime] (lines 198-204); it never raises
    [AttributeError]. *)
Theorem C10_no_dnskey_never_dereferenced :
  forall (c : crypto.t) (rrset : RRsetInfo.t) (rrsig : RRSIG.t)
         (zone_name : option name) (reference_ts : Z) (algorithm_unknown : bool)
         (ds : DS.t) (ds_meta : DSMeta.t) (digest_algorithm_unknown : bool),
    RRSIGStatus.compute_signature_valid c rrset rrsig None = None
    /\ (forall p, RRSIGStatus.check_signature rrsig None algorithm_unknown None p = Ok p)
    /\ match RRsetInfo.rrsig_info rrset rrsig with
       | Some info =>
           if RRSIGStatus.window_representable rrsig reference_ts
                (RRSIGStatus.min_ttl rrset rrsig info)
           then exists s,
               RRSIGStatus.__init__ c rrset rrsig None zone_name reference_ts
                 algorithm_unknown = Ok s
               /\ RRSIGStatus.signature_valid s = None
           else RRSIGStatus.__init__ c rrset rrsig None zone_name reference_ts
                  algorithm_unknown = Raise ValueError
       | None =>
           RRSIGStatus.__init__ c rrset rrsig None zone_name reference_ts
             algorithm_unknown = Raise KeyError
       end
    /\ DSStatus.compute_digest_valid c ds None = None
    /\ (forall p, DSStatus.check_digest ds None digest_algorithm_unknown None p = Ok p)
    /\ exists s,
         DSStatus.__init__ c ds ds_meta None digest_algorithm_unknown = Ok s
         /\ DSStatus.digest_valid s = None
         /\ DSStatus.validation_status s = DS_STATUS_INDETERMINATE_NO_DNSKEY.
Proof.
  intros. split; [reflexivity |].
  split; [intros p; unfold RRSIGStatus.check_signature; simpl;
          rewrite andb_false_r; reflexivity |].
  split.
  - unfold RRSIGStatus.__init__, RRsetInfo.rrsig_info_getitem.
    destruct (RRsetInfo.rrsig_info rrset rrsig) as [info |]; [| reflexivity].
    cbn [bind RRSIGStatus.compute_signature_valid].
    rewrite rrsig_check_window_cases.
    destruct (RRSIGStatus.window_representable rrsig reference_ts _);
      [| reflexivity].
    cbn [bind]. unfold RRSIGStatus.check_signature. cbn [eq_False].
    rewrite andb_false_r. cbn [bind].
    eexists. split; reflexivity.
  - split; [reflexivity |].
    split; [intros p; unfold DSStatus.check_digest; simpl;
            rewrite andb_false_r; reflexivity |].
    unfold DSStatus.__init__. cbn [DSStatus.compute_digest_valid].
    unfold DSStatus.check_digest. cbn [eq_False]. rewrite andb_false_r.
    cbn [bind]. eexists. split; [reflexivity |]. split; reflexivity.
Qed.



(** C5, as stated, fails: with a digest type the primitive does not support,
    a revoked key whose tag differs from the DS key tag leaves the status at
    INDETERMINATE_UNKNOWN_ALGORITHM, set by the earlier keying check. *)
Lemma C5_counterexample :
  exists s,
    DSStatus.__init__ Samples.crypto_unsupported (Samples.ds 12345) Samples.ds_meta
      (Some (Samples.dnskey 385 12473)) false = Ok s
    /\ flag_set (DNSKEY.flags (DNSKEY.rdata (Samples.dnskey 385 12473)))
         DNSKEY_FLAGS_revoke = true
    /\ DNSKEY.key_tag (Samples.dnskey 385 12473) <> DS.key_tag (Samples.ds 12345)
    /\ DSStatus.validation_status s = DS_STATUS_INDETERMINATE_UNKNOWN_ALGORITHM
    /\ DSStatus.validation_status s <> DS_STATUS_INDETERMINATE_MATCH_PRE_REVOKE.
Proof.
  eexists. split; [reflexivity |]. vm_compute.
  repeat split; discriminate.
Qed.

(** C5, amended: for a supplied key with the revoke bit set, the revocation
    check decides the status only while it is still VALID, that is when the
    digest primitive returned a verdict and [digest_algorithm_unknown] is
    unset; otherwise the status stays INDETERMINATE_UNKNOWN_ALGORITHM.  With
    different key tags the errors are empty; with equal key tags they
    contain DNSKEYRevokedDS. *)
Theorem C5_ds_revoked_key :
  forall (c : crypto.t) (ds : DS.t) (ds_meta : DSMeta.t) (k : DNSKEY.t)
         (digest_algorithm_unknown : bool),
    flag_set (DNSKEY.flags (DNSKEY.rdata k)) DNSKEY_FLAGS_revoke = true ->
    exists s,
      DSStatus.__init__ c ds ds_meta (Some k) digest_algorithm_unknown = Ok s
      /\ let unknown :=
           is_None (DSStatus.compute_digest_valid c ds (Some k))
           || digest_algorithm_unknown in
         if DNSKEY.key_tag k =? DS.key_tag ds
         then In DNSKEYRevokedDS (DSStatus.errors s)
              /\ DSStatus.validation_status s =
                 (if unknown then DS_STATUS_INDETERMINATE_UNKNOWN_ALGORITHM
                  else DS_STATUS_INVALID)
         else DSStatus.errors s = []
              /\ DSStatus.validation_status s =
                 (if unknown then DS_STATUS_INDETERMINATE_UNKNOWN_ALGORITHM
                  else DS_STATUS_INDETERMINATE_MATCH_PRE_REVOKE).
Proof.
  intros c ds ds_meta k dau Hrev.
  unfold DSStatus.__init__, DSStatus.check_keying, DSStatus.check_revoke,
    DSStatus.check_digest.
  rewrite Hrev.
  destruct (DSStatus.compute_digest_valid c ds (Some k)) as [[|] |];
    destruct dau; destruct (DNSKEY.key_tag k =? DS.key_tag ds);
    cbn; eexists; (split; [reflexivity |]); cbn; auto.
Qed.

(** C5 at the two scenarios of the specification: revoked key with the DS
    key tag, and with the tag shifted by the revocation. *)
Lemma C5_ds_revoked_key_witness :
  (exists s,
     DSStatus.__init__ Samples.crypto_ok (Samples.ds 12345) Samples.ds_meta
       (Some (Samples.dnskey 385 12345)) false = Ok s
     /\ In DNSKEYRevokedDS (DSStatus.errors s)
     /\ DSStatus.validation_status s = DS_STATUS_INVALID)
  /\ (exists s,
        DSStatus.__init__ Samples.crypto_ok (Samples.ds 12345) Samples.ds_meta
          (Some (Samples.dnskey 385 12473)) false = Ok s
        /\ DSStatus.errors s = []
        /\ DSStatus.validation_status s = DS_STATUS_INDETERMINATE_MATCH_PRE_REVOKE).
Proof.
  split.
  - exact (C5_ds_revoked_key Samples.crypto_ok (Samples.ds 12345) Samples.ds_meta
             (Samples.dnskey 385 12345) false eq_refl).
  - exact (C5_ds_revoked_key Samples.crypto_ok (Samples.ds 12345) Samples.ds_meta
             (Samples.dnskey 385 12473) false eq_refl).
Defined.

(* ------------------------------------------------------------------ *)
(** ** Parity of status and errors, evaluator by evaluator *)

Ltac unfold_status :=
  cbv [RRSIG_STATUS_VALID RRSIG_STATUS_INDETERMINATE_NO_DNSKEY
       RRSIG_STATUS_INDETERMINATE_MATCH_PRE_REVOKE
       RRSIG_STATUS_INDETERMINATE_UNKNOWN_ALGORITHM RRSIG_STATUS_EXPIRED
       RRSIG_STATUS_PREMATURE RRSIG_STATUS_INVALID_SIG RRSIG_STATUS_INVALID
       DS_STATUS_VALID DS_STATUS_INDETERMINATE_NO_DNSKEY
       DS_STATUS_INDETERMINATE_MATCH_PRE_REVOKE
       DS_STATUS_INDETERMINATE_UNKNOWN_ALGORITHM DS_STATUS_INVALID_DIGEST
       DS_STATUS_INVALID NSEC_STATUS_VALID NSEC_STATUS_INDETERMINATE
       NSEC_STATUS_INVALID DNAME_STATUS_VALID DNAME_STATUS_INDETERMINATE
       DNAME_STATUS_INVALID_TARGET DNAME_STATUS_INVALID STATUS_VALID
       STATUS_INDETERMINATE STATUS_INVALID] in *.

(** closes a parity goal once the branch of the check is fixed *)
Ltac parity :=
  unfold rrsig_parity in *;
  autorewrite with progress in *;
  rewrite ?set_if_valid_status in *;
  unfold_status;
  match goal with
  | H : _ /\ _ |- _ => destruct H as [?Hfail ?Hvalid]
  | _ => idtac
  end;
  try match goal with
      | |- context [p_status ?p =? 0] => destruct (Z.eqb_spec (p_status p) 0)
      end;
  split; intros;
  try (apply app_not_nil);
  try discriminate; try contradiction; try lia; auto;
  try (apply Forall_app; split; [auto | repeat constructor]).

Lemma rrsig_parity_keying rrsig dnskey au sv p :
  rrsig_parity p -> rrsig_parity (RRSIGStatus.check_keying rrsig dnskey au sv p).
Proof.
  intros H. unfold RRSIGStatus.check_keying. split_checks; parity.
Qed.

Lemma rrsig_parity_ttl rrset rrsig info p :
  rrsig_parity p -> rrsig_parity (RRSIGStatus.check_ttl rrset rrsig info p).
Proof.
  intros H. unfold RRSIGStatus.check_ttl. split_checks; parity.
Qed.

Lemma rrsig_parity_signer rrset rrsig zone_name p :
  rrsig_parity p -> rrsig_parity (RRSIGStatus.check_signer rrset rrsig zone_name p).
Proof.
  intros H. unfold RRSIGStatus.check_signer.
  destruct (RRSIGStatus.signer_mismatch rrset rrsig zone_name); parity.
Qed.

Lemma rrsig_parity_revoke rrsig dnskey p :
  rrsig_parity p -> rrsig_parity (RRSIGStatus.check_revoke rrsig dnskey p).
Proof.
  intros H. unfold RRSIGStatus.check_revoke. split_checks; parity.
Qed.

Lemma rrsig_parity_window rrsig ts mttl p :
  rrsig_parity p -> rrsig_parity (RRSIGStatus.window_progress rrsig ts mttl p).
Proof.
  intros H. unfold RRSIGStatus.window_progress. split_checks; parity.
Qed.

Lemma rrsig_parity_signature rrsig dnskey au sv p p' :
  rrsig_parity p ->
  RRSIGStatus.check_signature rrsig dnskey au sv p = Ok p' ->
  rrsig_parity p'.
Proof.
  intros H. unfold RRSIGStatus.check_signature.
  split_checks; intros E; inversion E; subst; clear E; parity.
Qed.

Lemma rrsig_parity_init c rrset rrsig dnskey zone_name ts au s :
  RRSIGStatus.__init__ c rrset rrsig dnskey zone_name ts au = Ok s ->
  (rrsig_failure (RRSIGStatus.validation_status s) = true -> RRSIGStatus.errors s <> [])
  /\ (RRSIGStatus.validation_status s = RRSIG_STATUS_VALID ->
      Forall ttl_error (RRSIGStatus.errors s)).
Proof.
  unfold RRSIGStatus.__init__.
  destruct (RRsetInfo.rrsig_info_getitem rrset rrsig) as [info | e]; [| discriminate].
  cbn [bind]. rewrite rrsig_check_window_cases.
  destruct (RRSIGStatus.window_representable rrsig ts _); [| discriminate].
  cbn [bind].
  match goal with
  | |- context [RRSIGStatus.check_signature ?a ?b ?c ?d ?p] =>
      destruct (RRSIGStatus.check_signature a b c d p) as [p' | e] eqn:E;
      [| discriminate];
      assert (Hp : rrsig_parity p')
  end.
  { eapply rrsig_parity_signature; [| exact E].
    apply rrsig_parity_window, rrsig_parity_revoke, rrsig_parity_signer,
      rrsig_parity_ttl, rrsig_parity_keying.
    split; [discriminate | constructor]. }
  cbn [bind]. intros Hs. inversion Hs; subst; clear Hs. exact Hp.
Qed.

(** splits on every test the goal still branches on, results included *)
Ltac split_all :=
  repeat match goal with
         | |- context [if ?b then _ else _] => destruct b eqn:?
         | |- context [match ?o with Some _ => _ | None => _ end] => destruct o eqn:?
         | |- context [match ?r with Ok _ => _ | Raise _ => _ end] => destruct r eqn:?
         | |- context [match ?l with [] => _ | _ :: _ => _ end] => destruct l eqn:?
         | |- context [let '(_, _) := ?x in _] => destruct x eqn:?
         end.

Lemma bind_Ok {A B} (r : result A) (k : A -> result B) (b : B) :
  bind r k = Ok b -> exists a, r = Ok a /\ k a = Ok b.
Proof.
  destruct r as [a | e]; simpl; intros H; [eauto | discriminate].
Qed.

(** reads an equation [... = Ok s] back through the binds and tests it went
    through *)
Ltac inv_ok :=
  repeat match goal with
         | H : bind _ _ = Ok _ |- _ =>
             apply bind_Ok in H; destruct H as (? & ? & H)
         | H : Ok _ = Ok _ |- _ => inversion H; subst; clear H
         | H : Raise _ = Ok _ |- _ => discriminate H
         | H : (if ?b then _ else _) = Ok _ |- _ => destruct b eqn:?
         | H : match ?o with Some _ => _ | None => _ end = Ok _ |- _ =>
             destruct o eqn:?
         | H : match ?l with [] => _ | _ :: _ => _ end = Ok _ |- _ =>
             destruct l eqn:?
         | H : (let '(_, _) := ?x in _) = Ok _ |- _ => destruct x eqn:?
         end.

(** closes the goals about a status and an error list that are now explicit *)
Ltac explicit :=
  cbn; unfold_status;
  repeat match goal with
         | |- _ /\ _ => split
         | |- _ <-> _ => split
         | |- _ -> _ => intro
         end;
  try discriminate; try reflexivity; try congruence; try contradiction;
  try (exfalso; eapply app_not_nil; eassumption);
  try (apply app_not_nil); auto.

Lemma ds_parity_init c ds ds_meta dnskey dau s :
  DSStatus.__init__ c ds ds_meta dnskey dau = Ok s ->
  (DSStatus.validation_status s = DS_STATUS_VALID -> DSStatus.errors s = [])
  /\ (status_in (DSStatus.validation_status s)
        [DS_STATUS_INVALID_DIGEST; DS_STATUS_INVALID] = true ->
      DSStatus.errors s <> []).
Proof.
  unfold DSStatus.__init__, DSStatus.check_keying, DSStatus.check_revoke,
    DSStatus.check_digest.
  destruct dnskey as [k |]; cbn [DSStatus.compute_digest_valid].
  - destruct (crypto.validate_ds_digest c _ _ _) as [[|] |]; destruct dau;
      split_all; cbn; intros E; inversion E; subst; clear E; explicit.
  - destruct dau; cbn; intros E; inversion E; subst; clear E; explicit.
Qed.

Lemma dname_parity synthesized_cname included_cname :
  let s := CNAMEFromDNAMEStatus.__init__ synthesized_cname included_cname in
  CNAMEFromDNAMEStatus.validation_status s = DNAME_STATUS_VALID
  <-> CNAMEFromDNAMEStatus.errors s = [].
Proof.
  unfold CNAMEFromDNAMEStatus.__init__, CNAMEFromDNAMEStatus.evaluate.
  destruct included_cname as [inc |]; split_all; explicit.
Qed.

Lemma nsec_nxdomain_parity f v s :
  NSECStatusNXDOMAIN._set_validation_status f v = Ok s ->
  (NSECStatusNXDOMAIN.validation_status s = NSEC_STATUS_VALID
   <-> NSECStatusNXDOMAIN.errors s = []).
Proof.
  unfold NSECStatusNXDOMAIN._set_validation_status. intros E.
  inv_ok; split_all; explicit.
Qed.

Lemma nsec_wildcard_parity f v s :
  NSECStatusWildcard._set_validation_status2 f v = Ok s ->
  (NSECStatusNXDOMAIN.validation_status s = NSEC_STATUS_VALID
   <-> NSECStatusNXDOMAIN.errors s = []).
Proof.
  unfold NSECStatusWildcard._set_validation_status2. intros E.
  inv_ok; split_all; explicit.
Qed.

Lemma nsec_noanswer_parity f v s :
  NSECStatusNoAnswer._set_validation_status f v = Ok s ->
  (NSECStatusNoAnswer.validation_status s = NSEC_STATUS_VALID
   <-> NSECStatusNoAnswer.errors s = []).
Proof.
  unfold NSECStatusNoAnswer._set_validation_status, NSECStatusNoAnswer.evaluate.
  intros E. inv_ok; split_all; explicit.
Qed.

Lemma nsec3_nxdomain_parity f v :
  let s := NSEC3StatusNXDOMAIN._set_validation_status f v in
  (NSEC3StatusNXDOMAIN.validation_status s = NSEC_STATUS_VALID ->
   NSEC3StatusNXDOMAIN.errors s = [])
  /\ (NSEC3StatusNXDOMAIN.validation_status s <> NSEC_STATUS_VALID ->
      algorithms_reported v -> NSEC3StatusNXDOMAIN.errors s <> []).
Proof.
  unfold NSEC3StatusNXDOMAIN._set_validation_status, NSEC3StatusNXDOMAIN.evaluate,
    algorithms_reported, err_invalid_alg, err_invalid_alg_once, invalid_alg_err.
  destruct (NSECSet.get_algorithm_support v) as [va ia].
  destruct va, ia; split_all; cbn in *; explicit; intuition congruence.
Qed.

Lemma nsec3_wildcard_parity f v s :
  NSEC3StatusWildcard._set_validation_status f v = Ok s ->
  (NSEC3StatusNXDOMAIN.validation_status s = NSEC_STATUS_VALID ->
   NSEC3StatusNXDOMAIN.errors s = [])
  /\ (NSEC3StatusNXDOMAIN.validation_status s <> NSEC_STATUS_VALID ->
      algorithms_reported v -> NSEC3StatusNXDOMAIN.errors s <> []).
Proof.
  unfold NSEC3StatusWildcard._set_validation_status, NSEC3StatusWildcard.evaluate,
    algorithms_reported, err_invalid_alg, invalid_alg_err.
  destruct (NSECSet.get_algorithm_support v) as [va ia].
  intros E. destruct va, ia; inv_ok; cbn in *; inv_ok; explicit; intuition congruence.
Qed.

Lemma nsec3_noanswer_parity f v s :
  NSEC3StatusNoAnswer._set_validation_status f v = Ok s ->
  (NSEC3StatusNoAnswer.validation_status s = NSEC_STATUS_VALID ->
   NSEC3StatusNoAnswer.errors s = [])
  /\ (NSEC3StatusNoAnswer.validation_status s <> NSEC_STATUS_VALID ->
      algorithms_reported v -> NSEC3StatusNoAnswer.errors s <> []).
Proof.
  unfold NSEC3StatusNoAnswer._set_validation_status, NSEC3StatusNoAnswer.evaluate,
    algorithms_reported, err_invalid_alg, invalid_alg_err.
  destruct (NSECSet.get_algorithm_support v) as [va ia].
  intros E. destruct va, ia; inv_ok; cbn in *; inv_ok; split_all; explicit;
    intuition congruence.
Qed.

(** C1, as stated, fails for RRSIGStatus in both directions: without a
    DNSKEY an RRSIG inside its validity window gets
    INDETERMINATE_NO_DNSKEY and no error; and an RRSIG whose TTL exceeds its
    original TTL stays VALID with the error OriginalTTLExceeded. *)
Lemma C1_counterexample :
  (exists s,
     RRSIGStatus.__init__ Samples.crypto_ok (Samples.rrset 3600)
       (Samples.rrsig Samples.zone (Samples.t0 - 60) (Samples.t0 + 86400))
       None (Some Samples.zone) Samples.t0 false = Ok s
     /\ RRSIGStatus.validation_status s <> RRSIG_STATUS_VALID
     /\ RRSIGStatus.errors s = [])
  /\ (exists s,
        RRSIGStatus.__init__ Samples.crypto_ok (Samples.rrset 7200)
          (Samples.rrsig Samples.zone (Samples.t0 - 60) (Samples.t0 + 86400))
          (Some (Samples.dnskey 256 12345)) (Some Samples.zone) Samples.t0 false = Ok s
        /\ RRSIGStatus.validation_status s = RRSIG_STATUS_VALID
        /\ RRSIGStatus.errors s <> []).
Proof.
  split; eexists; (split; [reflexivity |]); vm_compute; split;
    solve [reflexivity | discriminate].
Qed.

(** C1, amended: status and errors agree as follows.
    - NSECStatusNXDOMAIN, NSECStatusWildcard, NSECStatusNoAnswer and
      CNAMEFromDNAMEStatus: the status is VALID exactly when the errors are
      empty.
    - DSStatus and the three NSEC3 classes: a VALID status has no errors; a
      DS status INVALID_DIGEST or INVALID has errors; a non-VALID NSEC3
      status has errors whenever the view reports an algorithm (valid or
      invalid).
    - RRSIGStatus: a status EXPIRED, PREMATURE, INVALID_SIG or INVALID has
      errors, and the errors of a VALID status are of the two TTL kinds
      (OriginalTTLExceeded, TTLBeyondExpiration) only. *)
Theorem C1_status_error_parity :
  (forall c rrset rrsig dnskey zone_name reference_ts algorithm_unknown s,
      RRSIGStatus.__init__ c rrset rrsig dnskey zone_name reference_ts
        algorithm_unknown = Ok s ->
      (rrsig_failure (RRSIGStatus.validation_status s) = true ->
       RRSIGStatus.errors s <> [])
      /\ (RRSIGStatus.validation_status s = RRSIG_STATUS_VALID ->
          Forall ttl_error (RRSIGStatus.errors s)))
  /\ (forall c ds ds_meta dnskey digest_algorithm_unknown s,
         DSStatus.__init__ c ds ds_meta dnskey digest_algorithm_unknown = Ok s ->
         (DSStatus.validation_status s = DS_STATUS_VALID -> DSStatus.errors s = [])
         /\ (status_in (DSStatus.validation_status s)
               [DS_STATUS_INVALID_DIGEST; DS_STATUS_INVALID] = true ->
             DSStatus.errors s <> []))
  /\ (forall qname rdtype origin v s,
         NSECStatusNXDOMAIN.__init__ qname rdtype origin v = Ok s ->
         (NSECStatusNXDOMAIN.validation_status s = NSEC_STATUS_VALID
          <-> NSECStatusNXDOMAIN.errors s = []))
  /\ (forall qname wildcard_name rdtype origin v s,
         NSECStatusWildcard.__init__ qname wildcard_name rdtype origin v = Ok s ->
         (NSECStatusNXDOMAIN.validation_status s = NSEC_STATUS_VALID
          <-> NSECStatusNXDOMAIN.errors s = []))
  /\ (forall qname rdtype origin v s,
         NSECStatusNoAnswer.__init__ qname rdtype origin v = Ok s ->
         (NSECStatusNoAnswer.validation_status s = NSEC_STATUS_VALID
          <-> NSECStatusNoAnswer.errors s = []))
  /\ (forall qname rdtype origin v,
         let s := NSEC3StatusNXDOMAIN.__init__ qname rdtype origin v in
         (NSEC3StatusNXDOMAIN.validation_status s = NSEC_STATUS_VALID ->
          NSEC3StatusNXDOMAIN.errors s = [])
         /\ (NSEC3StatusNXDOMAIN.validation_status s <> NSEC_STATUS_VALID ->
             algorithms_reported v -> NSEC3StatusNXDOMAIN.errors s <> []))
  /\ (forall qname wildcard_name rdtype origin v s,
         NSEC3StatusWildcard.__init__ qname wildcard_name rdtype origin v = Ok s ->
         (NSEC3StatusNXDOMAIN.validation_status s = NSEC_STATUS_VALID ->
          NSEC3StatusNXDOMAIN.errors s = [])
         /\ (NSEC3StatusNXDOMAIN.validation_status s <> NSEC_STATUS_VALID ->
             algorithms_reported v -> NSEC3StatusNXDOMAIN.errors s <> []))
  /\ (forall qname rdtype origin v s,
         NSEC3StatusNoAnswer.__init__ qname rdtype origin v = Ok s ->
         (NSEC3StatusNoAnswer.validation_status s = NSEC_STATUS_VALID ->
          NSEC3StatusNoAnswer.errors s = [])
         /\ (NSEC3StatusNoAnswer.validation_status s <> NSEC_STATUS_VALID ->
             algorithms_reported v -> NSEC3StatusNoAnswer.errors s <> []))
  /\ (forall synthesized_cname included_cname,
         let s := CNAMEFromDNAMEStatus.__init__ synthesized_cname included_cname in
         CNAMEFromDNAMEStatus.validation_status s = DNAME_STATUS_VALID
         <-> CNAMEFromDNAMEStatus.errors s = []).
Proof.
  repeat match goal with |- _ /\ _ => split end.
  - intros. eapply rrsig_parity_init; eassumption.
  - intros. eapply ds_parity_init; eassumption.
  - unfold NSECStatusNXDOMAIN.__init__. intros. inv_ok.
    eapply nsec_nxdomain_parity; eassumption.
  - unfold NSECStatusWildcard.__init__. intros. inv_ok.
    eapply nsec_wildcard_parity; eassumption.
  - unfold NSECStatusNoAnswer.__init__. intros. inv_ok.
    eapply nsec_noanswer_parity; eassumption.
  - intros. apply nsec3_nxdomain_parity.
  - unfold NSEC3StatusWildcard.__init__. intros. inv_ok.
    eapply nsec3_wildcard_parity; eassumption.
  - unfold NSEC3StatusNoAnswer.__init__. intros. inv_ok.
    eapply nsec3_noanswer_parity; eassumption.
  - intros. apply dname_parity.
Qed.

(** C1 on sample inputs: an expired RRSIG has errors, and the NSEC proof of
    scenario 5 is VALID and has no error. *)
Lemma C1_status_error_parity_witness :
  (exists s,
      RRSIGStatus.__init__ Samples.crypto_ok (Samples.rrset 3600)
        (Samples.rrsig Samples.zone (Samples.t0 - 60) (Samples.t0 - 1))
        (Some (Samples.dnskey 256 12345)) (Some Samples.zone) Samples.t0 false
      = Ok s
      /\ RRSIGStatus.validation_status s = RRSIG_STATUS_EXPIRED
      /\ RRSIGStatus.errors s <> [])
  /\ (exists s,
         NSECStatusNXDOMAIN.__init__ SampleViews.foo 1 Samples.zone
           SampleViews.nxdomain_view = Ok s
         /\ NSECStatusNXDOMAIN.validation_status s = NSEC_STATUS_VALID
         /\ NSECStatusNXDOMAIN.errors s = []).
Proof.
  destruct C1_status_error_parity as (Hrrsig & _ & Hnsec & _).
  split.
  - destruct (RRSIGStatus.__init__ Samples.crypto_ok (Samples.rrset 3600)
                (Samples.rrsig Samples.zone (Samples.t0 - 60) (Samples.t0 - 1))
                (Some (Samples.dnskey 256 12345)) (Some Samples.zone) Samples.t0 false)
      as [s | e] eqn:E; [| vm_compute in E; discriminate E].
    exists s. split; [reflexivity |].
    destruct (Hrrsig _ _ _ _ _ _ _ _ E) as [Hfail _].
    assert (Hs : RRSIGStatus.validation_status s = RRSIG_STATUS_EXPIRED)
      by (vm_compute in E; inversion E; reflexivity).
    split; [exact Hs |]. apply Hfail. rewrite Hs. reflexivity.
  - destruct (NSECStatusNXDOMAIN.__init__ SampleViews.foo 1 Samples.zone
                SampleViews.nxdomain_view) as [s | e] eqn:E;
      [| vm_compute in E; discriminate E].
    exists s. split; [reflexivity |].
    assert (Hs : NSECStatusNXDOMAIN.validation_status s = NSEC_STATUS_VALID)
      by (vm_compute in E; inversion E; reflexivity).
    split; [exact Hs |]. apply (Hnsec _ _ _ _ _ E). exact Hs.
Defined.

(* ------------------------------------------------------------------ *)
(** ** Names and the wildcard scan *)

Lemma name_eqb_eq (a b : name) : name_eqb a b = true <-> a = b.
Proof.
  unfold name_eqb. destruct (name_eq_dec a b); split; congruence.
Qed.

Lemma name_eqb_neq (a b : name) : name_eqb a b = false <-> a <> b.
Proof.
  unfold name_eqb. destruct (name_eq_dec a b); split; congruence.
Qed.

Lemma name_eqb_refl (a : name) : name_eqb a a = true.
Proof. apply name_eqb_eq. reflexivity. Qed.

Lemma wire_length_star (origin : name) :
  dns_name.wire_length (dns_name.from_text_star origin)
  = dns_name.wire_length origin + 2.
Proof.
  unfold dns_name.from_text_star, dns_name.wire_length.
  cbn [fold_right String.length]. lia.
Qed.

(** [dns.name.from_text('*', origin)] returns [*.origin] exactly when
    [origin] takes at most 253 octets *)
Lemma from_text_short (origin : name) :
  dns_name.wire_length origin <= 253 ->
  dns_name.from_text origin = Ok (dns_name.from_text_star origin).
Proof.
  intros H. unfold dns_name.from_text. rewrite wire_length_star.
  destruct (Z.gtb_spec (dns_name.wire_length origin + 2) 255); [lia | reflexivity].
Qed.

Lemma from_text_long (origin : name) :
  253 < dns_name.wire_length origin ->
  dns_name.from_text origin = Raise NameTooLong.
Proof.
  intros H. unfold dns_name.from_text. rewrite wire_length_star.
  destruct (Z.gtb_spec (dns_name.wire_length origin + 2) 255); [reflexivity | lia].
Qed.

Lemma from_text_Ok (origin w : name) :
  dns_name.from_text origin = Ok w ->
  w = dns_name.from_text_star origin /\ dns_name.wire_length origin <= 253.
Proof.
  unfold dns_name.from_text. rewrite wire_length_star.
  destruct (Z.gtb_spec (dns_name.wire_length origin + 2) 255); [discriminate |].
  intros E. injection E as <-. split; [reflexivity | lia].
Qed.

Lemma is_suffix_spec (s n : name) :
  dns_name.is_suffix s n = true <-> exists l, n = l ++ s.
Proof.
  induction n as [| x p IH]; simpl.
  - destruct (name_eqb [] s) eqn:E.
    + apply name_eqb_eq in E. subst. split; [exists []; reflexivity | reflexivity].
    + apply name_eqb_neq in E. split; [discriminate |].
      intros [l Hl]. symmetry in Hl. apply app_eq_nil in Hl. destruct Hl. congruence.
  - destruct (name_eqb (x :: p) s) eqn:E.
    + apply name_eqb_eq in E. subst. split; [exists []; reflexivity | reflexivity].
    + apply name_eqb_neq in E. rewrite IH. split.
      * intros [l Hl]. exists (x :: l). simpl. congruence.
      * intros [l Hl]. destruct l as [| y l]; simpl in Hl; [congruence |].
        inversion Hl. subst. eauto.
Qed.

Lemma is_absolute_cons (x : label) (p : name) :
  p <> [] -> dns_name.is_absolute (x :: p) = dns_name.is_absolute p.
Proof.
  intros Hp. unfold dns_name.is_absolute. simpl.
  destruct (rev p) as [| y r] eqn:E.
  - apply (f_equal (@rev label)) in E. rewrite rev_involutive in E. contradiction.
  - reflexivity.
Qed.

(** one step up from a proper subdomain stays a subdomain, and the step
    does not start at the root *)
Lemma is_subdomain_parent (x : label) (p origin : name) :
  dns_name.is_subdomain (x :: p) origin = true ->
  x :: p <> origin ->
  dns_name.is_subdomain p origin = true /\ x :: p <> dns_name.root.
Proof.
  unfold dns_name.is_subdomain. intros H Hne.
  apply andb_true_iff in H. destruct H as [Habs Hsuf].
  simpl in Hsuf. apply name_eqb_neq in Hne. rewrite Hne in Hsuf.
  destruct p as [| y p'].
  - simpl in Hsuf. destruct (name_eqb [] origin) eqn:E; [| discriminate].
    apply name_eqb_eq in E. subst origin.
    split; [reflexivity |].
    intros Hroot. inversion Hroot. subst x.
    revert Habs. vm_compute. discriminate.
  - rewrite is_absolute_cons in Habs by discriminate.
    split; [apply andb_true_iff; split; assumption | discriminate].
Qed.

Lemma wildcard_ancestor_self_free (origin a : name) :
  ~ wildcard_ancestor origin origin a.
Proof.
  intros (l1 & l2 & Hl1 & Hq & Ha). subst a.
  apply (f_equal (@List.length label)) in Hq. rewrite !length_app in Hq.
  destruct l1; [congruence | simpl in Hq; lia].
Qed.

Lemma wildcard_ancestor_cons (x : label) (p origin a : name) :
  dns_name.is_suffix origin p = true ->
  wildcard_ancestor (x :: p) origin a <-> a = p \/ wildcard_ancestor p origin a.
Proof.
  intros Hsuf. apply is_suffix_spec in Hsuf. destruct Hsuf as [l Hl].
  split.
  - intros (l1 & l2 & Hl1 & Hq & Ha).
    destruct l1 as [| y l1]; [congruence |]. simpl in Hq.
    injection Hq as Hx Hp.
    destruct l1 as [| z l1].
    + left. symmetry. exact Hp.
    + right. exists (z :: l1), l2. split; [discriminate | split; assumption].
  - intros [Ha | (l1 & l2 & Hl1 & Hq & Ha)].
    + subst a. exists [x], l. split; [discriminate | split; [reflexivity | assumption]].
    + exists (x :: l1), l2. split; [discriminate |]. split; [simpl; congruence | assumption].
Qed.

(** The scan of lines 371-381 returns, for a [qname] under [origin]: the
    first covered wildcard [*.a] on the way up, or nothing when no wildcard
    of an ancestor up to [origin] is covered. *)
Lemma wildcard_scan_spec (v : NSECSet.t) (origin qname : name) :
  dns_name.is_subdomain qname origin = true ->
  (exists a,
      wildcard_ancestor qname origin a
      /\ NSECSet.nsec_covering_name v (dns_name.from_text_star a) <> []
      /\ NSECStatusNXDOMAIN.wildcard_scan v origin qname
         = Ok (Some (dns_name.from_text_star a,
                     NSECSet.nsec_covering_name v (dns_name.from_text_star a))))
  \/ ((forall a, wildcard_ancestor qname origin a ->
                 NSECSet.nsec_covering_name v (dns_name.from_text_star a) = [])
      /\ NSECStatusNXDOMAIN.wildcard_scan v origin qname = Ok None).
Proof.
  induction qname as [| x p IH]; intros Hsub.
  - simpl. destruct (name_eqb [] origin) eqn:E.
    + apply name_eqb_eq in E. subst origin. right. split; [| reflexivity].
      intros a Ha. exfalso. eapply wildcard_ancestor_self_free; eassumption.
    + exfalso. unfold dns_name.is_subdomain in Hsub.
      apply andb_true_iff in Hsub. destruct Hsub as [_ Hs]. simpl in Hs.
      rewrite E in Hs. discriminate.
  - cbn [NSECStatusNXDOMAIN.wildcard_scan].
    destruct (name_eqb (x :: p) origin) eqn:E.
    + apply name_eqb_eq in E. subst origin. right. split; [| reflexivity].
      intros a Ha. exfalso. eapply wildcard_ancestor_self_free; eassumption.
    + apply name_eqb_neq in E.
      destruct (is_subdomain_parent x p origin Hsub E) as [Hsub' Hroot].
      apply name_eqb_neq in Hroot. rewrite Hroot.
      assert (Hsuf : dns_name.is_suffix origin p = true).
      { unfold dns_name.is_subdomain in Hsub'. apply andb_true_iff in Hsub'. tauto. }
      destruct (truthy (NSECSet.nsec_covering_name v (dns_name.from_text_star p))) eqn:Ht.
      * left. exists p. split; [apply wildcard_ancestor_cons; auto |].
        split; [apply truthy_true_not_nil; exact Ht | reflexivity].
      * apply truthy_false_nil in Ht.
        destruct (IH Hsub') as [(a & Ha & Hc & Hscan) | (Hnone & Hscan)].
        -- left. exists a. split; [apply wildcard_ancestor_cons; auto |]. split; assumption.
        -- right. split; [| exact Hscan].
           intros a Ha. apply wildcard_ancestor_cons in Ha; [| exact Hsuf].
           destruct Ha as [-> | Ha]; [exact Ht | apply Hnone; exact Ha].
Qed.

(** the error for an NSEC covering the origin is available whenever the
    covering names are owners of the view *)
Lemma LastNSECNextNotZone_of_ok (v : NSECSet.t) (origin : name) :
  covering_owned v ->
  NSECSet.nsec_covering_name v origin <> [] ->
  exists o n,
    LastNSECNextNotZone_of
      (record_covering origin (NSECSet.nsec_covering_name v origin) []) origin v
    = Ok (LastNSECNextNotZone o n origin).
Proof.
  intros Hown Hne. unfold record_covering.
  destruct (NSECSet.nsec_covering_name v origin) as [| x names] eqn:E; [congruence |].
  destruct (Hown origin x) as [info Hinfo]; [rewrite E; left; reflexivity |].
  simpl. rewrite Hinfo. simpl. eauto.
Qed.

(** C6, as stated, fails at scenario 5 of the specification: the proof for
    [foo.example.] in zone [example.] is VALID through the covered wildcard
    [*.example.], the wildcard of the origin itself, while no name lies
    strictly between [foo.example.] and [example.]. *)
Lemma C6_counterexample :
  exists s,
    NSECStatusNXDOMAIN.__init__ SampleViews.foo 1 Samples.zone
      SampleViews.nxdomain_view = Ok s
    /\ NSECStatusNXDOMAIN.validation_status s = NSEC_STATUS_VALID
    /\ ~ (exists a,
             strictly_between SampleViews.foo Samples.zone a
             /\ NSECSet.nsec_covering_name SampleViews.nxdomain_view
                  (dns_name.from_text_star a) <> []).
Proof.
  eexists. split; [reflexivity |]. split; [reflexivity |].
  intros (a & (l1 & l2 & H1 & H2 & Hq & Ha) & _). subst a.
  apply (f_equal (@List.length label)) in Hq. rewrite !length_app in Hq.
  destruct l1; [congruence |]. destruct l2; [congruence |]. simpl in Hq. lia.
Qed.

(** C6, amended: for [qname] under an [origin] of at most 253 octets (so
    that [*.origin] is a name) and a view whose covering names are owners
    it holds, NSECStatusNXDOMAIN returns a status that is VALID
    exactly when some NSEC covers [qname], some NSEC covers the wildcard
    [*.a] of an ancestor [a] of [qname] from its parent up to and including
    [origin], and no NSEC covers [origin]; each failing condition records
    its error (SnameNotCoveredNameError, WildcardNotCoveredNSEC,
    LastNSECNextNotZone), independently of the others. *)
Theorem C6_nsec_nxdomain_valid_iff :
  forall (qname : name) (rdtype : Z) (origin : name) (v : NSECSet.t),
    dns_name.is_subdomain qname origin = true ->
    dns_name.wire_length origin <= 253 ->
    covering_owned v ->
    exists s,
      NSECStatusNXDOMAIN.__init__ qname rdtype origin v = Ok s
      /\ (NSECStatusNXDOMAIN.validation_status s = NSEC_STATUS_VALID
          <-> NSECSet.nsec_covering_name v qname <> []
              /\ (exists a, wildcard_ancestor qname origin a
                            /\ NSECSet.nsec_covering_name v (dns_name.from_text_star a) <> [])
              /\ NSECSet.nsec_covering_name v origin = [])
      /\ (In (SnameNotCoveredNameError qname) (NSECStatusNXDOMAIN.errors s)
          <-> NSECSet.nsec_covering_name v qname = [])
      /\ (In (WildcardNotCoveredNSEC (dns_name.from_text_star origin))
             (NSECStatusNXDOMAIN.errors s)
          <-> forall a, wildcard_ancestor qname origin a ->
                        NSECSet.nsec_covering_name v (dns_name.from_text_star a) = [])
      /\ ((exists o n, In (LastNSECNextNotZone o n origin) (NSECStatusNXDOMAIN.errors s))
          <-> NSECSet.nsec_covering_name v origin <> []).
Proof.
  intros qname rdtype origin v Hsub Hlen Hown.
  unfold NSECStatusNXDOMAIN.__init__.
  rewrite (from_text_short origin Hlen). cbn [bind].
  unfold NSECStatusNXDOMAIN.init_fields.
  assert (Horigin :
            NSECSet.nsec_covering_name v origin = []
            \/ (NSECSet.nsec_covering_name v origin <> []
                /\ exists o n,
                    LastNSECNextNotZone_of
                      (record_covering origin (NSECSet.nsec_covering_name v origin) [])
                      origin v = Ok (LastNSECNextNotZone o n origin))).
  { destruct (NSECSet.nsec_covering_name v origin) eqn:E; [left; reflexivity |].
    right. split; [discriminate |]. rewrite <- E.
    apply LastNSECNextNotZone_of_ok; [exact Hown | rewrite E; discriminate]. }
  destruct (wildcard_scan_spec v origin qname Hsub)
    as [(a & Ha & Hc & Hscan) | (Hnone & Hscan)];
    rewrite Hscan; cbn [bind];
    unfold NSECStatusNXDOMAIN._set_validation_status;
    cbn [NSECStatusNXDOMAIN.nsec_names_covering_qname
         NSECStatusNXDOMAIN.nsec_names_covering_wildcard
         NSECStatusNXDOMAIN.nsec_names_covering_origin
         NSECStatusNXDOMAIN.qname NSECStatusNXDOMAIN.origin
         NSECStatusNXDOMAIN.wildcard_name];
    destruct Horigin as [Ho | (Ho & o & n & Hlast)];
    try rewrite Hlast;
    unfold record_covering;
    try rewrite Ho;
    destruct (NSECSet.nsec_covering_name v qname) as [| cq cqs] eqn:Hq;
    destruct (NSECSet.nsec_covering_name v origin) as [| co cos] eqn:Hco;
    try congruence;
    cbn; eexists; (split; [reflexivity |]); cbn; unfold_status;
    repeat split; intros;
    repeat match goal with
           | H : _ /\ _ |- _ => destruct H
           | H : exists _, _ |- _ => destruct H
           | H : _ \/ _ |- _ => destruct H
           | H : False |- _ => contradiction
           end;
    try discriminate; try congruence; auto;
    try (exfalso; eauto; fail);
    try (eexists; eauto; fail);
    try (do 2 eexists; eauto; fail).
Qed.

(** a listed view keeps the contract when every listed covering name is
    listed among its RRsets *)
Lemma nsec_view_covering_owned rrsets referral covering :
  forallb (fun kv : name * name_set =>
             forallb (fun x => match dict_get name_eqb x rrsets with
                               | Some _ => true
                               | None => false
                               end) (snd kv)) covering = true ->
  covering_owned (SampleViews.nsec_view rrsets referral covering).
Proof.
  intros Hall n x Hin. unfold NSECSet.rrsets_getitem. simpl in *.
  unfold SampleViews.lookup_set in Hin.
  induction covering as [| [k names] rest IH]; simpl in *; [contradiction |].
  apply andb_true_iff in Hall. destruct Hall as [Hnames Hrest].
  destruct (name_eqb n k).
  - rewrite forallb_forall in Hnames. specialize (Hnames x Hin).
    destruct (dict_get name_eqb x rrsets); [eauto | discriminate].
  - apply IH; assumption.
Qed.

Lemma nxdomain_view_covering_owned : covering_owned SampleViews.nxdomain_view.
Proof.
  unfold SampleViews.nxdomain_view. apply nsec_view_covering_owned. reflexivity.
Qed.

(** C6 at scenario 5 of the specification *)
Lemma C6_nsec_nxdomain_valid_iff_witness :
  exists s,
    NSECStatusNXDOMAIN.__init__ SampleViews.foo 1 Samples.zone
      SampleViews.nxdomain_view = Ok s
    /\ NSECStatusNXDOMAIN.validation_status s = NSEC_STATUS_VALID.
Proof.
  destruct (C6_nsec_nxdomain_valid_iff SampleViews.foo 1 Samples.zone
              SampleViews.nxdomain_view eq_refl ltac:(vm_compute; discriminate)
              nxdomain_view_covering_owned)
    as (s & E & Hvalid & _).
  exists s. split; [exact E |]. apply Hvalid.
  split; [vm_compute; discriminate |].
  split; [| reflexivity].
  exists Samples.zone. split; [| vm_compute; discriminate].
  exists ["foo"], []. split; [discriminate | split; reflexivity].
Defined.

(* ------------------------------------------------------------------ *)
(** ** Projection of the view and the cited names *)

Lemma name_mem_In (n : name) (s : name_set) : name_mem n s = true <-> In n s.
Proof.
  unfold name_mem. split.
  - apply set_mem_correct1.
  - apply set_mem_correct2.
Qed.

Lemma owners_project (v : NSECSet.t) (names : list name) :
  NSECSet.owners (NSECSet.project v names)
  = filter (fun n => name_mem n names) (NSECSet.owners v).
Proof.
  unfold NSECSet.owners, NSECSet.project, dict_keys. simpl.
  induction (NSECSet.rrsets v) as [| [k r] l IH]; simpl; [reflexivity |].
  destruct (name_mem k names); simpl; rewrite IH; reflexivity.
Qed.

Lemma In_owners_project (v : NSECSet.t) (names : list name) (n : name) :
  In n (NSECSet.owners (NSECSet.project v names))
  <-> In n (NSECSet.owners v) /\ In n names.
Proof.
  rewrite owners_project, filter_In, name_mem_In. reflexivity.
Qed.

Lemma owners_project_all (v : NSECSet.t) :
  NSECSet.owners (NSECSet.project v (NSECSet.owners v)) = NSECSet.owners v.
Proof.
  rewrite owners_project.
  assert (H : forall l, incl l (NSECSet.owners v) ->
                        filter (fun n => name_mem n (NSECSet.owners v)) l = l).
  { induction l as [| x l IH]; intros Hl; simpl; [reflexivity |].
    assert (Hx : name_mem x (NSECSet.owners v) = true)
      by (apply name_mem_In, Hl; left; reflexivity).
    rewrite Hx, IH; [reflexivity |].
    intros y Hy. apply Hl. right. exact Hy. }
  apply H, incl_refl.
Qed.

Section Unions.

Context {E : Type} (E_eq_dec : forall a b : E, {a = b} + {a <> b}).

Lemma In_fold_union (l : list (list E)) (acc : list E) (x : E) :
  In x (fold_left (set_union E_eq_dec) l acc)
  <-> In x acc \/ exists s, In s l /\ In x s.
Proof.
  revert acc. induction l as [| s l IH]; intros acc; simpl.
  - split; [auto | intros [H | (s & [] & _)]; exact H].
  - rewrite IH, set_union_iff. split.
    + intros [[H | H] | (s' & Hs' & Hx)]; eauto 6.
    + intros [H | (s' & [-> | Hs'] & Hx)]; eauto 6.
Qed.

End Unions.

Lemma In_dict_values {E} (s : list E) (d : list (name * list E)) :
  In s (dict_values d) <-> exists k, In (k, s) d.
Proof.
  unfold dict_values. rewrite in_map_iff. split.
  - intros ([k s'] & Hs & Hin). simpl in Hs. subst. eauto.
  - intros (k & Hin). exists (k, s). auto.
Qed.

Lemma In_update_all (l : list (name * name_set)) (acc : name_set) (n : name) :
  In n (fold_left set_update (dict_values l) acc) <-> In n acc \/ in_values n l.
Proof.
  unfold set_update. rewrite In_fold_union. unfold in_values.
  split; (intros [H | H]; [left; exact H | right]).
  - destruct H as (s & Hs & Hn). apply In_dict_values in Hs. destruct Hs as [k Hk]. eauto.
  - destruct H as (k & s & Hk & Hn). exists s. split; [apply In_dict_values; eauto | exact Hn].
Qed.

Lemma In_set_add (a n : name) (s : name_set) :
  In n (set_add name_eq_dec a s) <-> n = a \/ In n s.
Proof. apply set_add_iff. Qed.

Lemma in_values_app {E} (x : E) (d1 d2 : list (name * list E)) :
  in_values x (d1 ++ d2) <-> in_values x d1 \/ in_values x d2.
Proof.
  unfold in_values. split.
  - intros (k & s & Hin & Hx). apply in_app_or in Hin. destruct Hin; eauto 6.
  - intros [(k & s & Hin & Hx) | (k & s & Hin & Hx)]; exists k, s;
      (split; [apply in_or_app; auto | exact Hx]).
Qed.

Lemma In_update_all_app (l1 l2 : list (name * name_set)) (n : name) :
  In n (update_all (dict_values l1 ++ dict_values l2))
  <-> in_values n l1 \/ in_values n l2.
Proof.
  unfold update_all, dict_values. rewrite <- map_app.
  fold (dict_values (l1 ++ l2)). rewrite In_update_all, in_values_app.
  simpl. tauto.
Qed.

Lemma In_filter_not_None (l : list (option name)) (n : name) :
  In n (NSEC3StatusWildcard.filter_not_None l) <-> In (Some n) l.
Proof.
  induction l as [| [m |] l IH]; simpl.
  - tauto.
  - rewrite IH. split; intros [H | H]; auto; left; congruence.
  - rewrite IH. split; [auto | intros [H | H]; [discriminate | exact H]].
Qed.

Lemma cited_nsec_noanswer (f : NSECStatusNoAnswer.fields) (n : name) :
  In n (NSECStatusNoAnswer.cited f) <-> Cited.nsec_noanswer f n.
Proof.
  unfold NSECStatusNoAnswer.cited, Cited.nsec_noanswer.
  destruct (NSECStatusNoAnswer.nsec_for_qname f) as [info |];
    destruct (NSECStatusNoAnswer.nsec_for_wildcard_name f) as [w |];
    rewrite ?In_set_add, ?In_update_all; simpl;
    intuition (try congruence; try discriminate).
Qed.

Lemma cited_nsec3_nxdomain (f : NSEC3StatusNXDOMAIN.fields name) (n : name) :
  In n (NSEC3StatusNXDOMAIN.cited f) <-> Cited.nsec3_nxdomain f n.
Proof.
  unfold NSEC3StatusNXDOMAIN.cited, Cited.nsec3_nxdomain, update_all, dict_values.
  rewrite <- !map_app.
  match goal with
  | |- context [map snd ?l] => fold (dict_values l)
  end.
  rewrite In_update_all, !in_values_app. simpl. tauto.
Qed.

Lemma cited_nsec3_wildcard (f : NSEC3StatusNXDOMAIN.fields (option name)) (n : name) :
  In n (NSEC3StatusWildcard.cited f) <-> Cited.nsec3_wildcard f n.
Proof.
  unfold NSEC3StatusWildcard.cited, Cited.nsec3_wildcard, in_values.
  rewrite In_filter_not_None, In_fold_union. simpl. split.
  - intros [[] | (s & Hs & Hn)].
    apply in_app_or in Hs. destruct Hs as [Hs | Hs].
    + apply In_dict_values in Hs. destruct Hs as [k Hk]. left. eauto.
    + apply in_map_iff in Hs. destruct Hs as (s' & <- & Hs').
      apply In_dict_values in Hs'. destruct Hs' as [k Hk].
      apply in_map_iff in Hn. destruct Hn as (m & Hm & Hin).
      injection Hm as ->. right. eauto.
  - intros [(k & s & Hk & Hn) | (k & s & Hk & Hn)]; right.
    + exists s. split; [| exact Hn].
      apply in_or_app. left. apply In_dict_values. eauto.
    + exists (map (@Some name) s). split; [| apply in_map; exact Hn].
      apply in_or_app. right. apply in_map. apply In_dict_values. eauto.
Qed.

Lemma cited_nsec3_noanswer (f : NSEC3StatusNoAnswer.fields) (n : name) :
  In n (NSEC3StatusNoAnswer.cited f) <-> Cited.nsec3_noanswer f n.
Proof.
  unfold NSEC3StatusNoAnswer.cited, Cited.nsec3_noanswer, set_update, update_all.
  rewrite set_union_iff.
  destruct (truthy (NSEC3StatusNoAnswer.nsec_for_qname f)).
  - rewrite set_union_iff. fold set_update. rewrite In_update_all. simpl. tauto.
  - fold set_update. rewrite !In_update_all. simpl. tauto.
Qed.

(** the two branches of the projection at the end of every
    [_set_validation_status] *)
Lemma retained_owners (v : NSECSet.t) (status : Z) (cited : name_set)
    (Cited_by : name -> Prop) :
  (forall n, In n cited <-> Cited_by n) ->
  let retained := if status =? NSEC_STATUS_VALID
                  then NSECSet.project v cited
                  else NSECSet.project v (NSECSet.owners v) in
  (status = NSEC_STATUS_VALID ->
   forall n, In n (NSECSet.owners retained) <-> In n (NSECSet.owners v) /\ Cited_by n)
  /\ (status <> NSEC_STATUS_VALID -> NSECSet.owners retained = NSECSet.owners v).
Proof.
  intros Hc. simpl. split.
  - intros ->. simpl. intros n. rewrite In_owners_project, Hc. reflexivity.
  - intros Hs. apply Z.eqb_neq in Hs. rewrite Hs. apply owners_project_all.
Qed.

(** C3: for the three NSEC and the three NSEC3 classes, a VALID status
    retains the projection of the input view onto exactly the owner names
    the proof cites (its covering, matching and closest-encloser names), so
    the retained owners are the input owners among the cited names; any
    other status retains every owner of the input view. *)
Theorem C3_retained_view :
  (forall qname rdtype origin v s,
      NSECStatusNXDOMAIN.__init__ qname rdtype origin v = Ok s ->
      (NSECStatusNXDOMAIN.validation_status s = NSEC_STATUS_VALID ->
       forall n, In n (NSECSet.owners (NSECStatusNXDOMAIN.nsec_set_info s))
                 <-> In n (NSECSet.owners v)
                     /\ Cited.nsec_nxdomain (NSECStatusNXDOMAIN.self s) n)
      /\ (NSECStatusNXDOMAIN.validation_status s <> NSEC_STATUS_VALID ->
          NSECSet.owners (NSECStatusNXDOMAIN.nsec_set_info s) = NSECSet.owners v))
  /\ (forall qname wildcard_name rdtype origin v s,
         NSECStatusWildcard.__init__ qname wildcard_name rdtype origin v = Ok s ->
         (NSECStatusNXDOMAIN.validation_status s = NSEC_STATUS_VALID ->
          forall n, In n (NSECSet.owners (NSECStatusNXDOMAIN.nsec_set_info s))
                    <-> In n (NSECSet.owners v)
                        /\ Cited.nsec_wildcard (NSECStatusNXDOMAIN.self s) n)
         /\ (NSECStatusNXDOMAIN.validation_status s <> NSEC_STATUS_VALID ->
             NSECSet.owners (NSECStatusNXDOMAIN.nsec_set_info s) = NSECSet.owners v))
  /\ (forall qname rdtype origin v s,
         NSECStatusNoAnswer.__init__ qname rdtype origin v = Ok s ->
         (NSECStatusNoAnswer.validation_status s = NSEC_STATUS_VALID ->
          forall n, In n (NSECSet.owners (NSECStatusNoAnswer.nsec_set_info s))
                    <-> In n (NSECSet.owners v)
                        /\ Cited.nsec_noanswer (NSECStatusNoAnswer.self s) n)
         /\ (NSECStatusNoAnswer.validation_status s <> NSEC_STATUS_VALID ->
             NSECSet.owners (NSECStatusNoAnswer.nsec_set_info s) = NSECSet.owners v))
  /\ (forall qname rdtype origin v,
         let s := NSEC3StatusNXDOMAIN.__init__ qname rdtype origin v in
         (NSEC3StatusNXDOMAIN.validation_status s = NSEC_STATUS_VALID ->
          forall n, In n (NSECSet.owners (NSEC3StatusNXDOMAIN.nsec_set_info s))
                    <-> In n (NSECSet.owners v)
                        /\ Cited.nsec3_nxdomain (NSEC3StatusNXDOMAIN.self s) n)
         /\ (NSEC3StatusNXDOMAIN.validation_status s <> NSEC_STATUS_VALID ->
             NSECSet.owners (NSEC3StatusNXDOMAIN.nsec_set_info s) = NSECSet.owners v))
  /\ (forall qname wildcard_name rdtype origin v s,
         NSEC3StatusWildcard.__init__ qname wildcard_name rdtype origin v = Ok s ->
         (NSEC3StatusNXDOMAIN.validation_status s = NSEC_STATUS_VALID ->
          forall n, In n (NSECSet.owners (NSEC3StatusNXDOMAIN.nsec_set_info s))
                    <-> In n (NSECSet.owners v)
                        /\ Cited.nsec3_wildcard (NSEC3StatusNXDOMAIN.self s) n)
         /\ (NSEC3StatusNXDOMAIN.validation_status s <> NSEC_STATUS_VALID ->
             NSECSet.owners (NSEC3StatusNXDOMAIN.nsec_set_info s) = NSECSet.owners v))
  /\ (forall qname rdtype origin v s,
         NSEC3StatusNoAnswer.__init__ qname rdtype origin v = Ok s ->
         (NSEC3StatusNoAnswer.validation_status s = NSEC_STATUS_VALID ->
          forall n, In n (NSECSet.owners (NSEC3StatusNoAnswer.nsec_set_info s))
                    <-> In n (NSECSet.owners v)
                        /\ Cited.nsec3_noanswer (NSEC3StatusNoAnswer.self s) n)
         /\ (NSEC3StatusNoAnswer.validation_status s <> NSEC_STATUS_VALID ->
             NSECSet.owners (NSEC3StatusNoAnswer.nsec_set_info s) = NSECSet.owners v)).
Proof.
  repeat match goal with |- _ /\ _ => split end.
  - unfold NSECStatusNXDOMAIN.__init__, NSECStatusNXDOMAIN._set_validation_status,
      NSECStatusNXDOMAIN.retain.
    intros qname rdtype origin v s E. inv_ok;
    cbn [NSECStatusNXDOMAIN.validation_status NSECStatusNXDOMAIN.nsec_set_info
         NSECStatusNXDOMAIN.self];
    apply retained_owners; intros n; apply In_update_all_app.
  - unfold NSECStatusWildcard.__init__, NSECStatusWildcard._set_validation_status2,
      NSECStatusNXDOMAIN.retain.
    intros qname wildcard_name rdtype origin v s E. inv_ok;
    cbn [NSECStatusNXDOMAIN.validation_status NSECStatusNXDOMAIN.nsec_set_info
         NSECStatusNXDOMAIN.self];
    apply retained_owners; intros n; unfold update_all, Cited.nsec_wildcard;
    rewrite In_update_all; simpl; tauto.
  - unfold NSECStatusNoAnswer.__init__, NSECStatusNoAnswer._set_validation_status.
    intros qname rdtype origin v s E. inv_ok;
    cbn [NSECStatusNoAnswer.validation_status NSECStatusNoAnswer.nsec_set_info
         NSECStatusNoAnswer.self];
    apply retained_owners; apply cited_nsec_noanswer.
  - unfold NSEC3StatusNXDOMAIN.__init__, NSEC3StatusNXDOMAIN._set_validation_status.
    intros qname rdtype origin v.
    cbn [NSEC3StatusNXDOMAIN.validation_status NSEC3StatusNXDOMAIN.nsec_set_info
         NSEC3StatusNXDOMAIN.self].
    apply retained_owners. apply cited_nsec3_nxdomain.
  - unfold NSEC3StatusWildcard.__init__, NSEC3StatusWildcard._set_validation_status.
    intros qname wildcard_name rdtype origin v s E. inv_ok;
    cbn [NSEC3StatusNXDOMAIN.validation_status NSEC3StatusNXDOMAIN.nsec_set_info
         NSEC3StatusNXDOMAIN.self];
    apply retained_owners; apply cited_nsec3_wildcard.
  - unfold NSEC3StatusNoAnswer.__init__, NSEC3StatusNoAnswer._set_validation_status.
    intros qname rdtype origin v s E. inv_ok;
    cbn [NSEC3StatusNoAnswer.validation_status NSEC3StatusNoAnswer.nsec_set_info
         NSEC3StatusNoAnswer.self];
    apply retained_owners; apply cited_nsec3_noanswer.
Qed.

(** C3 at scenario 5 of the specification: the VALID proof retains the two
    cited owners [example.] and [a.example.] of the three in the view. *)
Lemma C3_retained_view_witness :
  exists s,
    NSECStatusNXDOMAIN.__init__ SampleViews.foo 1 Samples.zone
      SampleViews.nxdomain_view = Ok s
    /\ NSECStatusNXDOMAIN.validation_status s = NSEC_STATUS_VALID
    /\ NSECSet.owners (NSECStatusNXDOMAIN.nsec_set_info s)
       = [Samples.zone; SampleViews.a_example]
    /\ forall n, In n (NSECSet.owners (NSECStatusNXDOMAIN.nsec_set_info s))
                 <-> In n (NSECSet.owners SampleViews.nxdomain_view)
                     /\ Cited.nsec_nxdomain (NSECStatusNXDOMAIN.self s) n.
Proof.
  destruct C3_retained_view as (Hnx & _).
  destruct (NSECStatusNXDOMAIN.__init__ SampleViews.foo 1 Samples.zone
              SampleViews.nxdomain_view) as [s | e] eqn:E;
    [| vm_compute in E; discriminate E].
  exists s. split; [reflexivity |].
  assert (Hs : NSECStatusNXDOMAIN.validation_status s = NSEC_STATUS_VALID)
    by (vm_compute in E; inversion E; reflexivity).
  split; [exact Hs |].
  split; [vm_compute in E; inversion E; reflexivity |].
  destruct (Hnx _ _ _ _ _ E) as [Hvalid _]. exact (Hvalid Hs).
Defined.

(* ------------------------------------------------------------------ *)
(** ** NSEC3StatusNoAnswer *)

(** In the wildcard branch of [_set_validation_status], with no NSEC3
    covering the next closer name and a valid algorithm reported, the
    evaluation stops at the unbound [next_closest_encloser]. *)
Lemma nsec3_noanswer_wildcard_branch_raises (f : NSEC3StatusNoAnswer.fields)
    (v : NSECSet.t) :
  NSEC3StatusNoAnswer.nsec_for_qname f = [] ->
  NSEC3StatusNoAnswer.nsec_for_wildcard_name f <> [] ->
  NSEC3StatusNoAnswer.nsec_names_covering_qname f = [] ->
  fst (NSECSet.get_algorithm_support v) <> [] ->
  NSEC3StatusNoAnswer._set_validation_status f v = Raise NameError.
Proof.
  intros Hq Hw Hc Hv.
  unfold NSEC3StatusNoAnswer._set_validation_status, NSEC3StatusNoAnswer.evaluate.
  destruct (NSECSet.get_algorithm_support v) as [va ia]. simpl in Hv.
  rewrite Hq, Hc.
  destruct (NSEC3StatusNoAnswer.nsec_for_wildcard_name f); [congruence |].
  destruct va; [congruence |]. reflexivity.
Qed.

(** C4: the construction of NSEC3StatusNoAnswer does not run to completion
    on every input.  With an NSEC3 matching the wildcard [*.example.], none
    matching or covering [foo.example.], and algorithm 1 valid, it raises
    [NameError] where NextClosestEncloserNotCoveredWildcardNoData was to be
    recorded. *)
Theorem C4_nsec3_noanswer_raises_NameError :
  NSEC3StatusNoAnswer.__init__ SampleViews.foo 1 Samples.zone
    SampleViews.wildcard_nodata_view = Raise NameError.
Proof. vm_compute. reflexivity. Qed.

Lemma opt_out_inner (v : NSECSet.t) (names : name_set) (acc : bool) :
  (forall n, In n names -> exists info, NSECSet.rrsets_getitem v n = Ok info) ->
  for_each (NSEC3StatusNoAnswer.opt_out_step v) names acc
  = Ok (acc || existsb (opt_out_flagged v) names).
Proof.
  revert acc. induction names as [| n names IH]; intros acc Hall; simpl.
  - rewrite orb_false_r. reflexivity.
  - destruct (Hall n (or_introl eq_refl)) as [info Hinfo].
    unfold NSEC3StatusNoAnswer.opt_out_step at 1, opt_out_flagged at 1.
    rewrite Hinfo. simpl.
    rewrite IH by (intros m Hm; apply Hall; right; exact Hm).
    destruct (flag_set _ _), acc; reflexivity.
Qed.

Lemma scan_opt_out_spec (v : NSECSet.t) (covering : list (name * name_set)) :
  covering_held v covering ->
  NSEC3StatusNoAnswer.scan_opt_out v covering
  = Ok (existsb (fun item => existsb (opt_out_flagged v) (snd item)) covering).
Proof.
  unfold NSEC3StatusNoAnswer.scan_opt_out.
  change (existsb (fun item => existsb (opt_out_flagged v) (snd item)) covering)
    with (false || existsb (fun item : name * name_set =>
                              existsb (opt_out_flagged v) (snd item)) covering).
  generalize false.
  induction covering as [| [d names] rest IH]; intros acc Hall; simpl.
  - rewrite orb_false_r. reflexivity.
  - rewrite opt_out_inner
      by (intros n Hn; apply (Hall d names n); [left; reflexivity | exact Hn]).
    simpl. rewrite IH.
    + rewrite orb_assoc. reflexivity.
    + intros d' names' n Hin Hn. apply (Hall d' names' n); [right; exact Hin | exact Hn].
Qed.

Lemma nsec3_noanswer_init_rdtype qname rdtype origin v f :
  NSEC3StatusNoAnswer.init_fields qname rdtype origin v = Ok f ->
  NSEC3StatusNoAnswer.rdtype f = rdtype.
Proof.
  unfold NSEC3StatusNoAnswer.init_fields. intros E. inv_ok. reflexivity.
Qed.

(** the branch of lines 1133-1143, read on the attributes the loops of
    [__init__] have set: with no matching NSEC3, a flagged name among the
    covering names recorded makes a DS proof VALID *)
Lemma nsec3_noanswer_opt_out_valid :
  forall (qname origin : name) (v : NSECSet.t) (f : NSEC3StatusNoAnswer.fields),
    NSEC3StatusNoAnswer.init_fields qname rdatatype_DS origin v = Ok f ->
    NSEC3StatusNoAnswer.nsec_for_qname f = [] ->
    NSEC3StatusNoAnswer.nsec_for_wildcard_name f = [] ->
    covering_held v (NSEC3StatusNoAnswer.nsec_names_covering_qname f) ->
    (exists d names n,
        In (d, names) (NSEC3StatusNoAnswer.nsec_names_covering_qname f)
        /\ In n names /\ opt_out_flagged v n = true) ->
    exists s,
      NSEC3StatusNoAnswer.__init__ qname rdatatype_DS origin v = Ok s
      /\ NSEC3StatusNoAnswer.validation_status s = NSEC_STATUS_VALID
      /\ NSEC3StatusNoAnswer.errors s = []
      /\ NSEC3StatusNoAnswer.opt_out s = true.
Proof.
  intros qname origin v f Hinit Hq Hw Hheld (d & names & n & Hin & Hn & Hflag).
  unfold NSEC3StatusNoAnswer.__init__. rewrite Hinit. cbn [bind].
  unfold NSEC3StatusNoAnswer._set_validation_status, NSEC3StatusNoAnswer.evaluate.
  destruct (NSECSet.get_algorithm_support v) as [va ia].
  rewrite Hq, Hw, (nsec3_noanswer_init_rdtype _ _ _ _ _ Hinit).
  cbn [truthy].
  assert (Hc : truthy (NSEC3StatusNoAnswer.nsec_names_covering_qname f) = true).
  { destruct (NSEC3StatusNoAnswer.nsec_names_covering_qname f); [contradiction | reflexivity]. }
  rewrite Hc, Z.eqb_refl. cbn [andb].
  rewrite scan_opt_out_spec by exact Hheld.
  match goal with
  | |- context [Ok (existsb ?g ?l)] => assert (Ho : existsb g l = true)
  end.
  { apply existsb_exists. exists (d, names). split; [exact Hin |].
    apply existsb_exists. exists n. split; assumption. }
  rewrite Ho. cbn. eexists. split; [reflexivity |]. cbn. auto.
Qed.

(* ------------------------------------------------------------------ *)
(** ** NSEC3StatusNXDOMAIN without a supported algorithm *)

Lemma dict_get_In {K V} (eqb : K -> K -> bool) (k : K) (d : list (K * V)) (x : V) :
  dict_get eqb k d = Some x -> exists k', In (k', x) d.
Proof.
  induction d as [| [k' v'] d IH]; simpl; [discriminate |].
  destruct (eqb k k').
  - intros E. injection E as ->. eauto.
  - intros E. destruct (IH E) as [k'' Hk]. eauto.
Qed.

Lemma dict_set_Forall {K V} (eqb : K -> K -> bool) (P : K * V -> Prop)
    (k : K) (x : V) (d : list (K * V)) :
  Forall P d -> P (k, x) -> Forall P (dict_set eqb k x d).
Proof.
  intros Hd Hx. induction d as [| [k' v'] d IH]; simpl.
  - constructor; [exact Hx | constructor].
  - inversion Hd; subst. destruct (eqb k k'); constructor; auto.
Qed.

Lemma all_none_getitem (m : name_digest_map_t) n k d :
  all_none m -> name_digest_getitem m n k = Ok d -> d = None.
Proof.
  unfold all_none, name_digest_getitem. intros Hm.
  destruct (dict_get name_eqb n m) as [inner |] eqn:E1; [| discriminate].
  destruct (dict_get digest_key_eqb k inner) as [x |] eqn:E2; [| discriminate].
  intros E. injection E as ->.
  apply dict_get_In in E1. destruct E1 as [n' Hn'].
  apply dict_get_In in E2. destruct E2 as [k' Hk'].
  rewrite Forall_forall in Hm. specialize (Hm _ Hn'). simpl in Hm.
  rewrite Forall_forall in Hm. apply (Hm _ Hk').
Qed.

Lemma all_none_setitem (m : name_digest_map_t) n k :
  all_none m -> all_none (name_digest_setitem m n k None).
Proof.
  unfold all_none, name_digest_setitem. intros Hm.
  apply dict_set_Forall; [exact Hm |]. simpl.
  apply dict_set_Forall; [| reflexivity].
  destruct (dict_get name_eqb n m) as [inner |] eqn:E; [| constructor].
  apply dict_get_In in E. destruct E as [n' Hn'].
  rewrite Forall_forall in Hm. apply (Hm _ Hn').
Qed.

Lemma fold_left_invariant {A B} (P : A -> Prop) (f : A -> B -> A) (l : list B) (a : A) :
  (forall x b, P x -> P (f x b)) -> P a -> P (fold_left f l a).
Proof.
  intros Hstep. revert a. induction l as [| b l IH]; simpl; auto.
Qed.

Lemma fold_left_invariant_In {A B} (P : A -> Prop) (f : A -> B -> A) (l : list B)
    (a : A) :
  (forall x b, In b l -> P x -> P (f x b)) -> P a -> P (fold_left f l a).
Proof.
  revert a. induction l as [| b l IH]; simpl; intros a Hstep Ha; [exact Ha |].
  apply IH; [intros x b' Hb' Hx; apply Hstep; auto | apply Hstep; auto].
Qed.

Section NoSupportedAlgorithm.

Variables (v : NSECSet.t) (qname origin : name).
Hypothesis Hnone : forall n o salt alg iterations names,
    In ((salt, alg, iterations), names) (NSECSet.nsec3_params v) ->
    NSECSet.get_digest_name_for_nsec3 v n o salt alg iterations = None.

Lemma hash_qname_all_none m item :
  In item (NSECSet.nsec3_params v) ->
  all_none m -> all_none (NSEC3StatusNXDOMAIN.hash_qname v qname origin m item).
Proof.
  intros Hin Hm. unfold NSEC3StatusNXDOMAIN.hash_qname.
  destruct item as [[[salt alg] iterations] names]. simpl.
  rewrite (Hnone _ _ _ _ _ names Hin). apply all_none_setitem. exact Hm.
Qed.

Lemma encloser_params_step_nothing encloser st key :
  In key (dict_keys (NSECSet.nsec3_params v)) ->
  covered_nothing st ->
  covered_nothing (NSEC3StatusNXDOMAIN.encloser_params_step v qname origin encloser st key).
Proof.
  destruct st as [[m cq] cw]. destruct key as [[salt alg] iterations].
  intros Hin (Hm & -> & ->). unfold NSEC3StatusNXDOMAIN.encloser_params_step.
  apply in_map_iff in Hin. destruct Hin as ([[[s' a'] i'] names] & Hk & Hin).
  cbn [fst] in Hk. injection Hk as -> -> ->.
  rewrite !(Hnone _ _ _ _ _ names Hin).
  destruct (name_digest_getitem m _ _) as [d | e] eqn:E.
  - apply all_none_getitem in E; [| exact Hm]. subst d. simpl.
    repeat split; auto using all_none_setitem.
  - simpl. repeat split; auto using all_none_setitem.
Qed.

Lemma init_fields_nothing {E} (closest_encloser : list (name * list E)) :
  let f := NSEC3StatusNXDOMAIN.init_fields qname origin v closest_encloser [] in
  NSEC3StatusNXDOMAIN.nsec_names_covering_qname f = []
  /\ NSEC3StatusNXDOMAIN.nsec_names_covering_wildcard f = []
  /\ NSEC3StatusNXDOMAIN.closest_encloser f = closest_encloser
  /\ NSEC3StatusNXDOMAIN.qname f = qname.
Proof.
  unfold NSEC3StatusNXDOMAIN.init_fields.
  match goal with
  | |- context [fold_left ?f ?l ?a] =>
      match type of a with
      | NSEC3StatusNXDOMAIN.loop_state =>
          assert (H : covered_nothing (fold_left f l a))
      | (_ * _ * _)%type =>
          assert (H : covered_nothing (fold_left f l a))
      end
  end.
  { apply fold_left_invariant.
    - intros st encloser Hst. unfold NSEC3StatusNXDOMAIN.encloser_step.
      apply fold_left_invariant_In; [| exact Hst].
      intros st' key Hkey Hst'. apply encloser_params_step_nothing; assumption.
    - simpl. split; [| auto].
      apply fold_left_invariant_In; [| constructor].
      intros m item Hitem Hm. apply hash_qname_all_none; assumption. }
  destruct (fold_left _ (dict_keys closest_encloser) _) as [[m cq] cw].
  destruct H as (_ & -> & ->). simpl. auto.
Qed.

End NoSupportedAlgorithm.

Lemma error_in_last (e : Error) (l : list Error) : error_in e (l ++ [e]) = true.
Proof.
  unfold error_in. rewrite existsb_app. simpl.
  destruct (Error_eq_dec e e); [| congruence].
  rewrite orb_true_r. reflexivity.
Qed.

(** C7: when the view reports no valid algorithm and at least one invalid
    one (so that, as the view promises, no digest is computed under the
    parameter tuples of its NSEC3 records, the only ones the constructor
    asks about), NSEC3StatusNXDOMAIN is INVALID and its errors are
    UnsupportedNSEC3Algorithm for the first invalid algorithm, once, and
    nothing else: no NoClosestEncloserNameError, no
    NextClosestEncloserNotCoveredNameError, no WildcardNotCoveredNSEC3. *)
Theorem C7_nsec3_nxdomain_unsupported_only :
  forall (qname : name) (rdtype : Z) (origin : name) (v : NSECSet.t)
         (alg : Z) (invalid_algs : list Z),
    NSECSet.get_algorithm_support v = ([], alg :: invalid_algs) ->
    digests_need_support v ->
    let s := NSEC3StatusNXDOMAIN.__init__ qname rdtype origin v in
    NSEC3StatusNXDOMAIN.validation_status s = NSEC_STATUS_INVALID
    /\ NSEC3StatusNXDOMAIN.errors s = [UnsupportedNSEC3Algorithm alg]
    /\ count_occ Error_eq_dec (NSEC3StatusNXDOMAIN.errors s)
         (UnsupportedNSEC3Algorithm alg) = 1%nat
    /\ (forall e, In e (NSEC3StatusNXDOMAIN.errors s) ->
                  match e with
                  | NoClosestEncloserNameError _
                  | NextClosestEncloserNotCoveredNameError _
                  | WildcardNotCoveredNSEC3 _ => False
                  | _ => True
                  end).
Proof.
  intros qname rdtype origin v alg ia Halgs Hsupport.
  assert (Hnone : forall n o salt a iterations names,
             In ((salt, a, iterations), names) (NSECSet.nsec3_params v) ->
             NSECSet.get_digest_name_for_nsec3 v n o salt a iterations = None).
  { intros n o salt a iterations names Hin.
    apply (Hsupport n o salt a iterations names Hin). rewrite Halgs. simpl. tauto. }
  assert (Herrors :
            let s := NSEC3StatusNXDOMAIN.__init__ qname rdtype origin v in
            NSEC3StatusNXDOMAIN.validation_status s = NSEC_STATUS_INVALID
            /\ NSEC3StatusNXDOMAIN.errors s = [UnsupportedNSEC3Algorithm alg]).
  { unfold NSEC3StatusNXDOMAIN.__init__, NSEC3StatusNXDOMAIN._set_validation_status,
      NSEC3StatusNXDOMAIN.evaluate.
    destruct (init_fields_nothing v qname origin Hnone
                (NSECSet.get_closest_encloser v qname origin))
      as (Hcq & Hcw & Hce & _).
    cbn [NSEC3StatusNXDOMAIN.validation_status NSEC3StatusNXDOMAIN.errors].
    rewrite Halgs, Hcq, Hcw, Hce.
    destruct (NSECSet.get_closest_encloser v qname origin) as [| [encloser names] rest].
    - split; reflexivity.
    - unfold err_invalid_alg_once, err_invalid_alg, invalid_alg_err.
      cbn [truthy negb andb].
      rewrite p_errors_set_status, p_errors_err, error_in_last. cbn. split; reflexivity. }
  cbv zeta in *. destruct Herrors as [Hs He]. rewrite He.
  split; [exact Hs |]. split; [reflexivity |]. split.
  - cbn [count_occ].
    destruct (Error_eq_dec (UnsupportedNSEC3Algorithm alg) (UnsupportedNSEC3Algorithm alg));
      [reflexivity | congruence].
  - intros e [<- | []]. exact I.
Qed.

Lemma unsupported_view_digests_need_support :
  digests_need_support SampleViews.unsupported_view.
Proof. intros n origin salt alg iterations names _ _. reflexivity. Qed.

(** C7 at scenario 7 of the specification: only algorithm 99, no closest
    encloser *)
Lemma C7_nsec3_nxdomain_unsupported_only_witness :
  let s := NSEC3StatusNXDOMAIN.__init__ SampleViews.foo 1 Samples.zone
             SampleViews.unsupported_view in
  NSEC3StatusNXDOMAIN.validation_status s = NSEC_STATUS_INVALID
  /\ NSEC3StatusNXDOMAIN.errors s = [UnsupportedNSEC3Algorithm 99].
Proof.
  destruct (C7_nsec3_nxdomain_unsupported_only SampleViews.foo 1 Samples.zone
              SampleViews.unsupported_view 99 [] eq_refl
              unsupported_view_digests_need_support) as (Hs & He & _).
  split; [exact Hs | exact He].
Defined.

(* ------------------------------------------------------------------ *)
(** ** Serialization: the keys [description] and [status] *)

Lemma has_key_setitem (k k' : string) (x : value) (d : ordered_dict) :
  has_key k (setitem k' x d) = (String.eqb k k' || has_key k d)%bool.
Proof.
  unfold has_key, setitem.
  induction d as [| [k0 v0] d IH]; simpl.
  - destruct (String.eqb k k'); reflexivity.
  - destruct (String.eqb k' k0) eqn:E1; simpl.
    + apply String.eqb_eq in E1. subst k0.
      destruct (String.eqb k k'); reflexivity.
    + destruct (String.eqb k k0) eqn:E2.
      * rewrite orb_true_r. reflexivity.
      * exact IH.
Qed.

Lemma has_key_findings (k : string) warnings errors cc loglevel (d : ordered_dict) :
  String.eqb k "warnings" = false -> String.eqb k "errors" = false ->
  has_key k (serialize_findings warnings errors cc loglevel d) = has_key k d.
Proof.
  intros Hw He. unfold serialize_findings.
  split_checks; rewrite ?has_key_setitem, ?Hw, ?He; reflexivity.
Qed.

(** RRSIGStatus.serialize puts [description] and [status] under the same
    condition, [loglevel <= INFO or show_basic]. *)
Lemma rrsig_serialize_description_status (s : RRSIGStatus.t) (cc : bool)
    (loglevel : Z) (d : ordered_dict) :
  RRSIGStatus_serialize.serialize s cc loglevel = Ok d ->
  has_key "description" d
  = ((loglevel <=? logging_INFO) || RRSIGStatus_serialize.show_basic s loglevel)%bool
  /\ has_key "status" d
     = ((loglevel <=? logging_INFO) || RRSIGStatus_serialize.show_basic s loglevel)%bool.
Proof.
  unfold RRSIGStatus_serialize.serialize. intros E.
  inv_ok; unfold RRSIGStatus_serialize.meta_setitem in *;
    repeat (inv_ok;
            match goal with
            | H : match ?x with VDict _ => _ | _ => _ end = Ok _ |- _ =>
                destruct x; try discriminate H
            end);
    inv_ok;
    rewrite !has_key_findings by reflexivity;
    rewrite ?has_key_setitem; cbn;
    repeat match goal with
           | H : ?b = true |- context [?b] => rewrite H
           | H : ?b = false |- context [?b] => rewrite H
           end;
    split; reflexivity.
Qed.

(** C9: CNAMEFromDNAMEStatus.serialize does not put [description] and
    [status] under the same condition.  For a VALID synthesis with a TTL
    warning serialized at level WARNING, [show_basic] holds and
    [description] is present, while [status] is left out: its test is
    [loglevel <= INFO or validation_status != VALID], where the other
    classes test [show_basic]. *)
Theorem C9_dname_serialize_omits_status :
  let s := CNAMEFromDNAMEStatus.__init__ SampleCNAME.synthesized
             (Some SampleCNAME.included) in
  CNAMEFromDNAMEStatus.validation_status s = DNAME_STATUS_VALID
  /\ CNAMEFromDNAMEStatus.warnings s = [DNAMETTLMismatch]
  /\ CNAMEFromDNAMEStatus_serialize.show_basic s logging_WARNING = true
  /\ exists d,
       CNAMEFromDNAMEStatus_serialize.serialize s None true logging_WARNING = Ok d
       /\ dict_keys d = ["description"; "servers"; "warnings"]
       /\ has_key "description" d = true
       /\ has_key "status" d = false.
Proof.
  cbv zeta. split; [reflexivity |]. split; [reflexivity |]. split; [reflexivity |].
  eexists. split; [vm_compute; reflexivity |].
  split; [reflexivity |]. split; reflexivity.
Qed.

(* ------------------------------------------------------------------ *)
(** ** RRSIGStatus: when the status stays VALID, and what is recorded *)

Lemma set_if_valid_stays_valid (s : Z) (p : progress) :
  s <> STATUS_VALID ->
  (p_status (set_if_valid s p) = STATUS_VALID <-> False).
Proof.
  intros Hs. rewrite set_if_valid_status.
  destruct (Z.eqb_spec (p_status p) STATUS_VALID); split; try contradiction; congruence.
Qed.

(** the status of a check that may only downgrade: VALID afterwards means
    VALID before and the check not triggered *)
Ltac stays_valid :=
  split_checks;
  rewrite ?p_status_err, ?p_status_warn, ?set_if_valid_status, ?p_status_err,
    ?p_status_warn;
  unfold_status;
  try match goal with
      | |- context [p_status ?p =? 0] => destruct (Z.eqb_spec (p_status p) 0)
      end;
  intuition (try discriminate; try congruence; try lia).

Lemma rrsig_keying_valid rrsig dnskey au sv p :
  p_status (RRSIGStatus.check_keying rrsig dnskey au sv p) = RRSIG_STATUS_VALID
  <-> p_status p = RRSIG_STATUS_VALID /\ is_None sv || au = false.
Proof. unfold RRSIGStatus.check_keying. stays_valid. Qed.

Lemma rrsig_signer_valid rrset rrsig zone_name p :
  p_status (RRSIGStatus.check_signer rrset rrsig zone_name p) = RRSIG_STATUS_VALID
  <-> p_status p = RRSIG_STATUS_VALID
      /\ RRSIGStatus.signer_mismatch rrset rrsig zone_name = false.
Proof.
  unfold RRSIGStatus.check_signer.
  destruct (RRSIGStatus.signer_mismatch rrset rrsig zone_name); stays_valid.
Qed.

Lemma rrsig_revoke_valid rrsig k p :
  p_status (RRSIGStatus.check_revoke rrsig (Some k) p) = RRSIG_STATUS_VALID
  <-> p_status p = RRSIG_STATUS_VALID
      /\ flag_set (DNSKEY.flags (DNSKEY.rdata k)) DNSKEY_FLAGS_revoke
         && negb (RRSIG.covers rrsig =? rdatatype_DNSKEY) = false.
Proof. unfold RRSIGStatus.check_revoke. stays_valid. Qed.

Lemma rrsig_check_revoke_none rrsig p : RRSIGStatus.check_revoke rrsig None p = p.
Proof. reflexivity. Qed.

Lemma rrsig_window_valid rrsig ts mttl p :
  p_status (RRSIGStatus.window_progress rrsig ts mttl p) = RRSIG_STATUS_VALID
  <-> p_status p = RRSIG_STATUS_VALID
      /\ RRSIG.inception rrsig <= ts < RRSIG.expiration rrsig.
Proof.
  unfold RRSIGStatus.window_progress.
  destruct (Z.ltb_spec ts (RRSIG.inception rrsig));
    destruct (Z.geb_spec ts (RRSIG.expiration rrsig));
    stays_valid.
Qed.

Lemma rrsig_signature_valid rrsig k au sv p :
  exists p',
    RRSIGStatus.check_signature rrsig (Some k) au sv p = Ok p'
    /\ (p_status p' = RRSIG_STATUS_VALID
        <-> p_status p = RRSIG_STATUS_VALID
            /\ negb au && eq_False sv && (DNSKEY.key_tag k =? RRSIG.key_tag rrsig) = false).
Proof.
  unfold RRSIGStatus.check_signature.
  destruct (negb au && eq_False sv); cbn [andb];
    [destruct (DNSKEY.key_tag k =? RRSIG.key_tag rrsig) |];
    eexists; (split; [reflexivity |]); stays_valid.
Qed.

(** X1: when the RRSIG is a key of [rrsig_info], RRSIGStatus raises
    [ValueError] if the window check has to convert a timestamp that is no
    [datetime], and returns otherwise.  The status it returns is VALID
    exactly when a DNSKEY is supplied, the primitive gave a verdict and
    [algorithm_unknown] is unset, the signer is in scope, the revocation
    check is not triggered, the reference time is inside the validity
    window, and the signature is not rejected under matching key tags.  The
    TTL checks play no part, and a rejected signature under different key
    tags leaves the status VALID. *)
Theorem X1_rrsig_valid_iff :
  forall (c : crypto.t) (rrset : RRsetInfo.t) (rrsig : RRSIG.t)
         (dnskey : option DNSKEY.t) (zone_name : option name) (reference_ts : Z)
         (algorithm_unknown : bool) (info : RRsetInfo.rrsig_info_t),
    RRsetInfo.rrsig_info rrset rrsig = Some info ->
    let representable :=
      RRSIGStatus.window_representable rrsig reference_ts
        (RRSIGStatus.min_ttl rrset rrsig info) in
    (representable = false ->
     RRSIGStatus.__init__ c rrset rrsig dnskey zone_name reference_ts
       algorithm_unknown = Raise ValueError)
    /\ (representable = true ->
        exists s,
          RRSIGStatus.__init__ c rrset rrsig dnskey zone_name reference_ts
            algorithm_unknown = Ok s
          /\ (RRSIGStatus.validation_status s = RRSIG_STATUS_VALID
              <-> exists k,
                  dnskey = Some k
                  /\ RRSIGStatus.signature_valid s <> None
                  /\ algorithm_unknown = false
                  /\ RRSIGStatus.signer_mismatch rrset rrsig zone_name = false
                  /\ flag_set (DNSKEY.flags (DNSKEY.rdata k)) DNSKEY_FLAGS_revoke
                     && negb (RRSIG.covers rrsig =? rdatatype_DNSKEY) = false
                  /\ RRSIG.inception rrsig <= reference_ts < RRSIG.expiration rrsig
                  /\ ~ (RRSIGStatus.signature_valid s = Some false
                        /\ DNSKEY.key_tag k = RRSIG.key_tag rrsig))).
Proof.
  intros c rrset rrsig dnskey zone_name ts au info Hinfo representable.
  subst representable.
  unfold RRSIGStatus.__init__, RRsetInfo.rrsig_info_getitem. rewrite Hinfo.
  cbn [bind]. rewrite rrsig_check_window_cases.
  split; intros Hrep; rewrite Hrep; [reflexivity |]. clear Hrep.
  cbn [bind].
  set (sv := RRSIGStatus.compute_signature_valid c rrset rrsig dnskey).
  destruct dnskey as [k |].
  - match goal with
    | |- context [RRSIGStatus.check_signature ?r ?d ?a ?v ?p] =>
        destruct (rrsig_signature_valid r k a v p) as (p' & E & Hv)
    end.
    rewrite E. cbn [bind]. eexists. split; [reflexivity |].
    cbn [RRSIGStatus.validation_status RRSIGStatus.signature_valid].
    rewrite Hv, rrsig_window_valid, rrsig_revoke_valid, rrsig_signer_valid,
      rrsig_check_ttl_status, rrsig_keying_valid.
    cbn [p_status]. split.
    + intros (((((_ & Hk) & Hs) & Hr) & Hw) & Hsig).
      exists k. apply orb_false_iff in Hk. destruct Hk as [Hnone Hau].
      repeat split; try assumption; try tauto.
      * destruct sv; [discriminate | discriminate Hnone].
      * intros [Hf Ht]. rewrite Hau, Hf in Hsig.
        apply Z.eqb_eq in Ht. rewrite Ht in Hsig. discriminate.
    + intros (k' & Hk' & Hsv & Hau & Hs & Hr & [Hw1 Hw2] & Hsig).
      injection Hk' as <-.
      repeat split; try assumption; try reflexivity.
      * apply orb_false_iff. split; [destruct sv; [reflexivity | congruence] | exact Hau].
      * rewrite Hau. cbn [negb andb].
        destruct sv as [[|] |]; cbn [eq_False andb]; try reflexivity.
        destruct (Z.eqb_spec (DNSKEY.key_tag k) (RRSIG.key_tag rrsig)); [| reflexivity].
        exfalso. apply Hsig. split; [reflexivity | assumption].
  - unfold RRSIGStatus.check_signature. subst sv.
    cbn [RRSIGStatus.compute_signature_valid eq_False]. rewrite andb_false_r.
    cbn [bind]. eexists. split; [reflexivity |].
    cbn [RRSIGStatus.validation_status].
    rewrite rrsig_window_valid, rrsig_check_revoke_none, rrsig_signer_valid,
      rrsig_check_ttl_status, rrsig_keying_valid.
    cbn. split; [intuition discriminate | intros (k & Hk & _); discriminate].
Qed.

(** X1 at scenario 1 of the specification: an RRSIG in its window, signed
    by the zone, verified by a key that is not revoked *)
Lemma X1_rrsig_valid_iff_witness :
  exists s,
    RRSIGStatus.__init__ Samples.crypto_ok (Samples.rrset 3600)
      (Samples.rrsig Samples.zone (Samples.t0 - 60) (Samples.t0 + 86400))
      (Some (Samples.dnskey 256 12345)) (Some Samples.zone) Samples.t0 false = Ok s
    /\ RRSIGStatus.validation_status s = RRSIG_STATUS_VALID.
Proof.
  destruct (X1_rrsig_valid_iff Samples.crypto_ok (Samples.rrset 3600)
              (Samples.rrsig Samples.zone (Samples.t0 - 60) (Samples.t0 + 86400))
              (Some (Samples.dnskey 256 12345)) (Some Samples.zone) Samples.t0 false
              {| RRsetInfo.ttl := 3600; RRsetInfo.servers_clients := [] |} eq_refl)
    as [_ Hret].
  destruct (Hret eq_refl) as (s & E & Hiff).
  exists s. split; [exact E |]. apply Hiff.
  exists (Samples.dnskey 256 12345).
  assert (Hsv : RRSIGStatus.signature_valid s = Some true)
    by (vm_compute in E; inversion E; reflexivity).
  rewrite Hsv.
  repeat split; try reflexivity; try discriminate.
  intros [H _]. discriminate H.
Defined.

Lemma p_warnings_err e p : p_warnings (err e p) = p_warnings p.
Proof. reflexivity. Qed.

Lemma p_warnings_warn w p : p_warnings (warn w p) = p_warnings p ++ [w].
Proof. reflexivity. Qed.

Lemma set_if_valid_warnings s p : p_warnings (set_if_valid s p) = p_warnings p.
Proof. unfold set_if_valid. destruct (_ =? _); reflexivity. Qed.

(** X2: the errors and warnings of RRSIGStatus depend on the conditions of
    the checks only, not on the status reached: every condition that holds
    is recorded, once, in the order of the checks, also after an earlier
    check has set the status. *)
Theorem X2_rrsig_findings_complete :
  forall (c : crypto.t) (rrset : RRsetInfo.t) (rrsig : RRSIG.t)
         (dnskey : option DNSKEY.t) (zone_name : option name) (reference_ts : Z)
         (algorithm_unknown : bool) (info : RRsetInfo.rrsig_info_t)
         (s : RRSIGStatus.t),
    RRsetInfo.rrsig_info rrset rrsig = Some info ->
    RRSIGStatus.__init__ c rrset rrsig dnskey zone_name reference_ts
      algorithm_unknown = Ok s ->
    RRSIGStatus.errors s
    = rrsig_expected_errors rrset rrsig dnskey zone_name reference_ts
        algorithm_unknown (RRSIGStatus.signature_valid s) info
    /\ RRSIGStatus.warnings s
       = rrsig_expected_warnings rrset rrsig dnskey algorithm_unknown
           (RRSIGStatus.signature_valid s) info.
Proof.
  intros c rrset rrsig dnskey zone_name ts au info s Hinfo.
  unfold RRSIGStatus.__init__, RRsetInfo.rrsig_info_getitem. rewrite Hinfo.
  cbn [bind]. rewrite rrsig_check_window_cases.
  destruct (RRSIGStatus.window_representable rrsig ts _); [| discriminate].
  cbn [bind]. intros E. apply bind_Ok in E. destruct E as (p & Ep & E).
  injection E as <-. cbn [RRSIGStatus.errors RRSIGStatus.warnings RRSIGStatus.signature_valid].
  set (sv := RRSIGStatus.compute_signature_valid c rrset rrsig dnskey) in *.
  unfold rrsig_expected_errors, rrsig_expected_warnings.
  revert Ep.
  unfold RRSIGStatus.check_signature, RRSIGStatus.window_progress,
    RRSIGStatus.check_revoke, RRSIGStatus.check_signer, RRSIGStatus.check_ttl,
    RRSIGStatus.check_keying.
  destruct dnskey as [k |];
    destruct (is_None sv || au);
    destruct (negb au && eq_False sv);
    destruct (negb (RRsetInfo.rrset_ttl rrset =? RRsetInfo.ttl info));
    destruct (RRsetInfo.ttl info >? RRSIG.original_ttl rrsig);
    destruct (RRSIGStatus.signer_mismatch rrset rrsig zone_name);
    destruct (ts <? RRSIG.inception rrsig);
    destruct (ts >=? RRSIG.expiration rrsig);
    destruct (ts + RRSIGStatus.min_ttl rrset rrsig info >=? RRSIG.expiration rrsig);
    try destruct (flag_set (DNSKEY.flags (DNSKEY.rdata k)) DNSKEY_FLAGS_revoke
                  && negb (RRSIG.covers rrsig =? rdatatype_DNSKEY));
    try destruct (DNSKEY.key_tag k =? RRSIG.key_tag rrsig) eqn:Hkt;
    try (rewrite (Z.eqb_sym (RRSIG.key_tag rrsig) (DNSKEY.key_tag k)), Hkt);
    cbn [andb negb];
    intros Ep; try discriminate Ep; injection Ep as <-;
    rewrite ?p_errors_err, ?p_warnings_err, ?p_errors_warn, ?p_warnings_warn,
      ?set_if_valid_errors, ?set_if_valid_warnings,
      ?p_errors_err, ?p_warnings_err, ?p_errors_warn, ?p_warnings_warn,
      ?set_if_valid_errors, ?set_if_valid_warnings,
      ?p_errors_err, ?p_warnings_err, ?p_errors_warn, ?p_warnings_warn,
      ?set_if_valid_errors, ?set_if_valid_warnings,
      ?p_errors_err, ?p_warnings_err, ?p_errors_warn, ?p_warnings_warn,
      ?set_if_valid_errors, ?set_if_valid_warnings,
      ?p_errors_err, ?p_warnings_err, ?p_errors_warn, ?p_warnings_warn,
      ?set_if_valid_errors, ?set_if_valid_warnings,
      ?p_errors_err, ?p_warnings_err, ?p_errors_warn, ?p_warnings_warn,
      ?set_if_valid_errors, ?set_if_valid_warnings;
    cbn [p_errors p_warnings app]; split; reflexivity.
Qed.

(** X2 on an RRSIG that is both out of scope and expired: both errors, in
    the order of the checks *)
Lemma X2_rrsig_findings_complete_witness :
  exists s,
    RRSIGStatus.__init__ Samples.crypto_ok (Samples.rrset 3600)
      (Samples.rrsig Samples.other_zone (Samples.t0 - 60) (Samples.t0 - 1))
      (Some (Samples.dnskey 256 12345)) (Some Samples.zone) Samples.t0 false = Ok s
    /\ RRSIGStatus.errors s
       = [SignerNotZone Samples.zone Samples.other_zone;
          ExpirationInPast (Samples.t0 - 1) Samples.t0]
    /\ RRSIGStatus.warnings s = [].
Proof.
  destruct (RRSIGStatus.__init__ Samples.crypto_ok (Samples.rrset 3600)
              (Samples.rrsig Samples.other_zone (Samples.t0 - 60) (Samples.t0 - 1))
              (Some (Samples.dnskey 256 12345)) (Some Samples.zone) Samples.t0 false)
    as [s | e] eqn:E; [| vm_compute in E; discriminate E].
  exists s. split; [reflexivity |].
  destruct (X2_rrsig_findings_complete Samples.crypto_ok (Samples.rrset 3600)
              (Samples.rrsig Samples.other_zone (Samples.t0 - 60) (Samples.t0 - 1))
              (Some (Samples.dnskey 256 12345)) (Some Samples.zone) Samples.t0 false
              {| RRsetInfo.ttl := 3600; RRsetInfo.servers_clients := [] |} s
              eq_refl E) as [He Hw].
  rewrite He, Hw.
  assert (Hsv : RRSIGStatus.signature_valid s = Some true)
    by (vm_compute in E; inversion E; reflexivity).
  rewrite Hsv. split; reflexivity.
Defined.

(* ------------------------------------------------------------------ *)
(** ** DSStatus: the decision table *)

(** X3: DSStatus always returns, and its status is the one of the first
    rule that applies (no key, unknown digest algorithm, revoked key with a
    different or the same key tag, rejected digest under the same key tag,
    else VALID), while its errors and warnings record every condition that
    holds.  In particular a rejected digest under a different key tag, with
    the revoke bit clear, leaves the status VALID and records nothing. *)
Theorem X3_ds_decision_table :
  forall (c : crypto.t) (ds : DS.t) (ds_meta : DSMeta.t) (dnskey : option DNSKEY.t)
         (digest_algorithm_unknown : bool),
    exists s,
      DSStatus.__init__ c ds ds_meta dnskey digest_algorithm_unknown = Ok s
      /\ DSStatus.digest_valid s = DSStatus.compute_digest_valid c ds dnskey
      /\ DSStatus.validation_status s
         = ds_expected_status ds dnskey digest_algorithm_unknown (DSStatus.digest_valid s)
      /\ DSStatus.errors s
         = ds_expected_errors ds dnskey digest_algorithm_unknown (DSStatus.digest_valid s)
      /\ DSStatus.warnings s
         = ds_expected_warnings ds dnskey digest_algorithm_unknown (DSStatus.digest_valid s).
Proof.
  intros c ds ds_meta dnskey dau.
  unfold DSStatus.__init__, DSStatus.check_keying, DSStatus.check_revoke,
    DSStatus.check_digest, ds_expected_status, ds_expected_errors,
    ds_expected_warnings.
  destruct dnskey as [k |].
  - destruct (DSStatus.compute_digest_valid c ds (Some k)) as [[|] |];
      destruct dau;
      destruct (flag_set (DNSKEY.flags (DNSKEY.rdata k)) DNSKEY_FLAGS_revoke);
      destruct (DNSKEY.key_tag k =? DS.key_tag ds);
      cbn; eexists; (split; [reflexivity |]); cbn; repeat split; reflexivity.
  - destruct dau; cbn; eexists; (split; [reflexivity |]); cbn;
      repeat split; reflexivity.
Qed.

(* ------------------------------------------------------------------ *)
(** ** Names: next closer names and the scan outside the zone *)

Lemma labels_last_next (e l : name) (x : label) :
  dns_name.labels_last (S (List.length e)) (l ++ x :: e) = x :: e.
Proof.
  unfold dns_name.labels_last. rewrite length_app. simpl List.length.
  replace (List.length l + S (List.length e) - S (List.length e))%nat
    with (List.length l) by lia.
  rewrite skipn_app, skipn_all, Nat.sub_diag. reflexivity.
Qed.

Lemma labels_last_short (k : nat) (n : name) :
  (List.length n <= k)%nat -> dns_name.labels_last k n = n.
Proof.
  intros H. unfold dns_name.labels_last. destruct k; [reflexivity |].
  replace (List.length n - S k)%nat with 0%nat by lia. reflexivity.
Qed.

(** X4: the next closer name is the closest encloser extended by the label
    of [qname] that precedes it, for the NSEC3 classes
    ([_get_next_closest_encloser]) and, from the wildcard name, for
    NSECStatusWildcard ([_next_closest_encloser]); when the encloser is not
    shorter than [qname], the slice is all of [qname]. *)
Theorem X4_next_closest_encloser :
  forall (encloser l : name) (x : label) (qname : name)
         (f : NSECStatusNXDOMAIN.fields),
    _get_next_closest_encloser (l ++ x :: encloser) encloser = x :: encloser
    /\ ((List.length qname <= List.length encloser + 1)%nat ->
        _get_next_closest_encloser qname encloser = qname)
    /\ (NSECStatusNXDOMAIN.qname f = l ++ x :: encloser ->
        NSECStatusNXDOMAIN.wildcard_name f = dns_name.from_text_star encloser ->
        NSECStatusWildcard._next_closest_encloser f = x :: encloser).
Proof.
  intros encloser l x qname f. unfold _get_next_closest_encloser.
  replace (List.length encloser + 1)%nat with (S (List.length encloser)) by lia.
  split; [apply labels_last_next |].
  split; [apply labels_last_short |].
  intros Hq Hw. unfold NSECStatusWildcard._next_closest_encloser.
  rewrite Hq, Hw. apply (labels_last_next encloser l x).
Qed.

(** X4 for [foo.example.] with closest encloser [example.] *)
Lemma X4_next_closest_encloser_witness :
  _get_next_closest_encloser SampleViews.foo Samples.zone = SampleViews.foo
  /\ _get_next_closest_encloser ["a"; "b"; "example"; ""] Samples.zone
     = ["b"; "example"; ""]
  /\ _get_next_closest_encloser Samples.zone Samples.zone = Samples.zone.
Proof.
  pose (f := {| NSECStatusNXDOMAIN.qname := SampleViews.foo;
                NSECStatusNXDOMAIN.origin := Samples.zone;
                NSECStatusNXDOMAIN.wildcard_name := SampleViews.star_example;
                NSECStatusNXDOMAIN.nsec_names_covering_qname := [];
                NSECStatusNXDOMAIN.nsec_names_covering_wildcard := [];
                NSECStatusNXDOMAIN.nsec_names_covering_origin := [] |}).
  destruct (X4_next_closest_encloser Samples.zone [] "foo" Samples.zone f)
    as (H1 & H2 & _).
  destruct (X4_next_closest_encloser Samples.zone ["a"] "b" Samples.zone f)
    as (H3 & _).
  split; [exact H1 |]. split; [exact H3 |]. apply H2. simpl. lia.
Defined.

Lemma is_suffix_tail (s p : name) (x : label) :
  dns_name.is_suffix s (x :: p) = false -> dns_name.is_suffix s p = false.
Proof.
  simpl. destruct (name_eqb (x :: p) s); [discriminate | auto].
Qed.

Lemma wildcard_scan_outside (v : NSECSet.t) (origin qname : name) :
  dns_name.is_suffix origin qname = false ->
  (forall a, NSECSet.nsec_covering_name v (dns_name.from_text_star a) = []) ->
  NSECStatusNXDOMAIN.wildcard_scan v origin qname = Raise NoParent.
Proof.
  intros Hout Hnone. induction qname as [| x p IH].
  - simpl in *. destruct (name_eqb [] origin); [discriminate | reflexivity].
  - cbn [NSECStatusNXDOMAIN.wildcard_scan].
    assert (Hne : name_eqb (x :: p) origin = false).
    { simpl in Hout. destruct (name_eqb (x :: p) origin); [discriminate | reflexivity]. }
    rewrite Hne. destruct (name_eqb (x :: p) dns_name.root); [reflexivity |].
    rewrite Hnone. cbn [truthy]. apply IH. eapply is_suffix_tail. exact Hout.
Qed.

(** X5: for a [qname] that does not end with the labels of [origin], and a
    view in which no wildcard name is covered, the constructors of
    NSECStatusNXDOMAIN and NSECStatusWildcard do not return a status: for an
    [origin] of more than 253 octets line 363 raises [NameTooLong];
    otherwise the scan walks past the root and [parent()] raises
    [NoParent]. *)
Theorem X5_nsec_scan_outside_zone :
  forall (qname wildcard_name : name) (rdtype : Z) (origin : name) (v : NSECSet.t),
    dns_name.is_suffix origin qname = false ->
    (forall a, NSECSet.nsec_covering_name v (dns_name.from_text_star a) = []) ->
    let raised :=
      if 253 <? dns_name.wire_length origin then NameTooLong else NoParent in
    NSECStatusNXDOMAIN.__init__ qname rdtype origin v = Raise raised
    /\ NSECStatusWildcard.__init__ qname wildcard_name rdtype origin v = Raise raised.
Proof.
  intros qname wildcard_name rdtype origin v Hout Hnone raised. subst raised.
  unfold NSECStatusNXDOMAIN.__init__, NSECStatusWildcard.__init__.
  destruct (Z.ltb_spec 253 (dns_name.wire_length origin)) as [Hlong | Hshort].
  - rewrite (from_text_long origin Hlong). split; reflexivity.
  - rewrite (from_text_short origin Hshort). cbn [bind].
    unfold NSECStatusNXDOMAIN.init_fields.
    rewrite (wildcard_scan_outside v origin qname Hout Hnone). split; reflexivity.
Qed.

(** X5 for [www.example.] checked against the zone [attacker.] *)
Lemma X5_nsec_scan_outside_zone_witness :
  NSECStatusNXDOMAIN.__init__ Samples.www 1 Samples.other_zone
    (SampleViews.nsec_view [] false []) = Raise NoParent
  /\ NSECStatusWildcard.__init__ Samples.www SampleViews.star_example 1
       Samples.other_zone (SampleViews.nsec_view [] false []) = Raise NoParent.
Proof.
  apply (X5_nsec_scan_outside_zone Samples.www SampleViews.star_example 1
           Samples.other_zone (SampleViews.nsec_view [] false [])).
  - reflexivity.
  - intros a. reflexivity.
Defined.

(* ------------------------------------------------------------------ *)
(** ** NSECStatusWildcard *)

Lemma wildcard_scan_returns (v : NSECSet.t) (origin qname : name) :
  dns_name.is_subdomain qname origin = true ->
  exists found, NSECStatusNXDOMAIN.wildcard_scan v origin qname = Ok found.
Proof.
  intros Hsub.
  destruct (wildcard_scan_spec v origin qname Hsub)
    as [(a & _ & _ & E) | (_ & E)]; rewrite E; eauto.
Qed.

(** X6: for [qname] under an [origin] of at most 253 octets (so that
    [*.origin] is a name) and a view whose covering names are owners it
    holds, NSECStatusWildcard returns; it keeps the wildcard name
    it was given and no covering names for it; its status is VALID exactly
    when an NSEC covers [qname], an NSEC covers the next closer name (the
    last [len(wildcard_name)] labels of [qname]) and no NSEC covers
    [origin].  The next closer name is only looked at when [qname] is
    covered: WildcardExpansionInvalid and SnameNotCoveredWildcardAnswer
    exclude each other. *)
Theorem X6_nsec_wildcard_valid_iff :
  forall (qname wildcard_name : name) (rdtype : Z) (origin : name) (v : NSECSet.t),
    dns_name.is_subdomain qname origin = true ->
    dns_name.wire_length origin <= 253 ->
    covering_owned v ->
    exists s,
      NSECStatusWildcard.__init__ qname wildcard_name rdtype origin v = Ok s
      /\ NSECStatusNXDOMAIN.wildcard_name (NSECStatusNXDOMAIN.self s) = wildcard_name
      /\ NSECStatusNXDOMAIN.nsec_names_covering_wildcard (NSECStatusNXDOMAIN.self s) = []
      /\ let next_closer :=
           dns_name.labels_last (List.length wildcard_name) qname in
         (NSECStatusNXDOMAIN.validation_status s = NSEC_STATUS_VALID
          <-> NSECSet.nsec_covering_name v qname <> []
              /\ NSECSet.nsec_covering_name v next_closer <> []
              /\ NSECSet.nsec_covering_name v origin = [])
         /\ (In (SnameNotCoveredWildcardAnswer qname) (NSECStatusNXDOMAIN.errors s)
             <-> NSECSet.nsec_covering_name v qname = [])
         /\ (In (WildcardExpansionInvalid qname wildcard_name next_closer)
                (NSECStatusNXDOMAIN.errors s)
             <-> NSECSet.nsec_covering_name v qname <> []
                 /\ NSECSet.nsec_covering_name v next_closer = [])
         /\ ((exists o n, In (LastNSECNextNotZone o n origin) (NSECStatusNXDOMAIN.errors s))
             <-> NSECSet.nsec_covering_name v origin <> []).
Proof.
  intros qname wildcard_name rdtype origin v Hsub Hlen Hown.
  unfold NSECStatusWildcard.__init__.
  rewrite (from_text_short origin Hlen). cbn [bind].
  unfold NSECStatusNXDOMAIN.init_fields.
  destruct (wildcard_scan_returns v origin qname Hsub) as [found Hscan].
  rewrite Hscan. cbn [bind].
  assert (Horigin :
            NSECSet.nsec_covering_name v origin = []
            \/ (NSECSet.nsec_covering_name v origin <> []
                /\ exists o n,
                    LastNSECNextNotZone_of
                      (record_covering origin (NSECSet.nsec_covering_name v origin) [])
                      origin v = Ok (LastNSECNextNotZone o n origin))).
  { destruct (NSECSet.nsec_covering_name v origin) eqn:E; [left; reflexivity |].
    right. split; [discriminate |]. rewrite <- E.
    apply LastNSECNextNotZone_of_ok; [exact Hown | rewrite E; discriminate]. }
  destruct found as [[w names] |];
    cbn [bind];
    unfold NSECStatusWildcard._set_validation_status2,
      NSECStatusWildcard._next_closest_encloser;
    cbv zeta;
    cbn [NSECStatusNXDOMAIN.nsec_names_covering_qname
         NSECStatusNXDOMAIN.nsec_names_covering_wildcard
         NSECStatusNXDOMAIN.nsec_names_covering_origin
         NSECStatusNXDOMAIN.qname NSECStatusNXDOMAIN.origin
         NSECStatusNXDOMAIN.wildcard_name];
    destruct Horigin as [Ho | (Ho & o & n & Hlast)];
    try rewrite Hlast;
    unfold record_covering;
    try rewrite Ho;
    destruct (NSECSet.nsec_covering_name v qname) as [| cq cqs] eqn:Hq;
    destruct (NSECSet.nsec_covering_name v origin) as [| co cos] eqn:Hco;
    try congruence;
    destruct (NSECSet.nsec_covering_name v
                (dns_name.labels_last (List.length wildcard_name) qname))
      as [| cn cns] eqn:Hn;
    cbn; eexists; (split; [reflexivity |]); cbn; unfold_status;
    repeat split; intros;
    repeat match goal with
           | H : _ /\ _ |- _ => destruct H
           | H : exists _, _ |- _ => destruct H
           | H : _ \/ _ |- _ => destruct H
           | H : False |- _ => contradiction
           end;
    try discriminate; try congruence; auto;
    try (exfalso; eauto; fail);
    try (eexists; eauto; fail);
    try (do 2 eexists; eauto; fail).
Qed.

(** X6 on the view of scenario 5, for an answer expanded from
    [*.example.] *)
Lemma X6_nsec_wildcard_valid_iff_witness :
  exists s,
    NSECStatusWildcard.__init__ SampleViews.foo SampleViews.star_example 1
      Samples.zone SampleViews.nxdomain_view = Ok s
    /\ NSECStatusNXDOMAIN.validation_status s = NSEC_STATUS_VALID.
Proof.
  destruct (X6_nsec_wildcard_valid_iff SampleViews.foo SampleViews.star_example 1
              Samples.zone SampleViews.nxdomain_view eq_refl
              ltac:(vm_compute; discriminate) nxdomain_view_covering_owned)
    as (s & E & _ & _ & Hvalid & _).
  exists s. split; [exact E |]. apply Hvalid.
  repeat split; try reflexivity; vm_compute; discriminate.
Defined.

(* ------------------------------------------------------------------ *)
(** ** NSECStatusNoAnswer *)

Lemma dict_get_key (d : list (name * NSECSet.rrset_info_t)) (n : name) :
  In n (dict_keys d) -> exists info, dict_get name_eqb n d = Some info.
Proof.
  induction d as [| [k r] d IH]; simpl; [contradiction |].
  intros [-> | Hin].
  - rewrite name_eqb_refl. eauto.
  - destruct (name_eqb n k); [eauto | apply IH; exact Hin].
Qed.

Lemma rrsets_getitem_owner (v : NSECSet.t) (n : name) :
  In n (NSECSet.owners v) -> exists info, NSECSet.rrsets_getitem v n = Ok info.
Proof.
  intros Hin. unfold NSECSet.rrsets_getitem.
  destruct (dict_get_key _ _ Hin) as [info ->]. eauto.
Qed.

Lemma rrsets_getitem_cases (v : NSECSet.t) (n : name) :
  (exists info, NSECSet.rrsets_getitem v n = Ok info)
  \/ NSECSet.rrsets_getitem v n = Raise KeyError.
Proof.
  unfold NSECSet.rrsets_getitem. destruct (dict_get name_eqb n (NSECSet.rrsets v)); eauto.
Qed.

Lemma rdtype_exists_in_bitmap_ok (v : NSECSet.t) (n : name) (t : Z) info :
  NSECSet.rrsets_getitem v n = Ok info ->
  NSECSet.rdtype_exists_in_bitmap v n t
  = Ok (existsb (Z.eqb t) (NSECSet.types (NSECSet.rrset_0 info))).
Proof.
  intros H. unfold NSECSet.rdtype_exists_in_bitmap. rewrite H. reflexivity.
Qed.

Lemma find_ancestor_nsec_total (v : NSECSet.t) (qname : name) (names : list name) :
  incl names (NSECSet.owners v) ->
  exists r, NSECStatusNoAnswer.find_ancestor_nsec v qname names = Ok r.
Proof.
  induction names as [| n names IH]; intros Hincl; simpl; [eauto |].
  destruct (rrsets_getitem_owner v n) as [info Hinfo];
    [apply Hincl; left; reflexivity |].
  rewrite Hinfo. cbn [bind].
  destruct (_ && _); [eauto |].
  apply IH. intros x Hx. apply Hincl. right. exact Hx.
Qed.

Lemma match_qname_total (v : NSECSet.t) (qname : name) (rdtype : Z) :
  exists r, NSECStatusNoAnswer.match_qname v qname rdtype = Ok r.
Proof.
  unfold NSECStatusNoAnswer.match_qname.
  destruct (rrsets_getitem_cases v qname) as [[info Hinfo] | Hnone].
  - rewrite Hinfo. cbn [bind].
    rewrite !(rdtype_exists_in_bitmap_ok v qname _ info Hinfo). cbn. eauto.
  - rewrite Hnone. cbn.
    destruct (find_ancestor_nsec_total v qname (NSECSet.owners v) (incl_refl _))
      as [r Hr].
    rewrite Hr. cbn. eauto.
Qed.

Lemma match_qname_direct (v : NSECSet.t) (qname : name) (rdtype : Z) info :
  NSECSet.rrsets_getitem v qname = Ok info ->
  let has t := existsb (Z.eqb t) (NSECSet.types (NSECSet.rrset_0 info)) in
  NSECStatusNoAnswer.match_qname v qname rdtype
  = Ok (Some info, has rdtype, has rdatatype_NS, has rdatatype_DS, has rdatatype_SOA).
Proof.
  intros Hinfo. unfold NSECStatusNoAnswer.match_qname.
  rewrite Hinfo. cbn [bind].
  rewrite !(rdtype_exists_in_bitmap_ok v qname _ info Hinfo). reflexivity.
Qed.

Lemma wildcard_try_cases (v : NSECSet.t) (rdtype : Z) (w : name)
    (s : NSECStatusNoAnswer.wildcard_state) :
  (exists info,
      NSECSet.rrsets_getitem v w = Ok info
      /\ NSECStatusNoAnswer.wildcard_try v rdtype w s
         = Ok (Some info,
               Some (existsb (Z.eqb rdtype) (NSECSet.types (NSECSet.rrset_0 info))), w))
  \/ (NSECSet.rrsets_getitem v w = Raise KeyError
      /\ NSECStatusNoAnswer.wildcard_try v rdtype w s = Ok s).
Proof.
  unfold NSECStatusNoAnswer.wildcard_try. destruct s as [[a b] wn].
  destruct (rrsets_getitem_cases v w) as [[info Hinfo] | Hnone].
  - left. exists info. split; [exact Hinfo |].
    rewrite Hinfo, (rdtype_exists_in_bitmap_ok v w _ info Hinfo). reflexivity.
  - right. split; [exact Hnone |]. rewrite Hnone. reflexivity.
Qed.

Lemma noanswer_scan_returns (v : NSECSet.t) (rdtype : Z) (origin qname : name) :
  dns_name.is_subdomain qname origin = true ->
  forall s, exists s', NSECStatusNoAnswer.wildcard_scan v rdtype origin qname s = Ok s'.
Proof.
  induction qname as [| x p IH]; intros Hsub s.
  - simpl. destruct (name_eqb [] origin) eqn:E; [eauto |].
    exfalso. unfold dns_name.is_subdomain in Hsub.
    apply andb_true_iff in Hsub. destruct Hsub as [_ Hs]. simpl in Hs.
    rewrite E in Hs. discriminate.
  - cbn [NSECStatusNoAnswer.wildcard_scan].
    destruct (name_eqb (x :: p) origin) eqn:E; [eauto |].
    apply name_eqb_neq in E.
    destruct (is_subdomain_parent x p origin Hsub E) as [Hsub' Hroot].
    apply name_eqb_neq in Hroot. rewrite Hroot.
    destruct (wildcard_try_cases v rdtype (dns_name.from_text_star p) s)
      as [(info & _ & ->) | (_ & ->)]; cbn [bind]; apply IH; exact Hsub'.
Qed.

(** the wildcard of the origin, when the view holds it, is the one the scan
    ends with *)
Lemma noanswer_scan_origin_wins (v : NSECSet.t) (rdtype : Z) (origin : name) info :
  NSECSet.rrsets_getitem v (dns_name.from_text_star origin) = Ok info ->
  forall l s,
    l <> [] ->
    dns_name.is_subdomain (l ++ origin) origin = true ->
    NSECStatusNoAnswer.wildcard_scan v rdtype origin (l ++ origin) s
    = Ok (Some info,
          Some (existsb (Z.eqb rdtype) (NSECSet.types (NSECSet.rrset_0 info))),
          dns_name.from_text_star origin).
Proof.
  intros Hinfo. induction l as [| x l IH]; intros s Hl Hsub; [congruence |].
  cbn [app NSECStatusNoAnswer.wildcard_scan].
  assert (Hne : x :: l ++ origin <> origin).
  { intros H. apply (f_equal (@List.length label)) in H. simpl in H.
    rewrite length_app in H. lia. }
  destruct (is_subdomain_parent x (l ++ origin) origin Hsub Hne) as [Hsub' Hroot].
  apply name_eqb_neq in Hne. apply name_eqb_neq in Hroot.
  cbn [app] in Hne, Hroot. rewrite Hne, Hroot.
  destruct l as [| y l].
  - cbn [app] in *.
    destruct (wildcard_try_cases v rdtype (dns_name.from_text_star origin) s)
      as [(info' & Hinfo' & ->) | (Hnone & _)]; [| congruence].
    assert (info' = info) by congruence. subst info'.
    cbn [bind]. destruct origin as [| o os]; simpl; rewrite ?name_eqb_refl; reflexivity.
  - destruct (wildcard_try_cases v rdtype (dns_name.from_text_star ((y :: l) ++ origin)) s)
      as [(info' & _ & ->) | (_ & ->)]; cbn [bind]; apply IH;
      try discriminate; exact Hsub'.
Qed.

(** X7: the wildcard scan of NSECStatusNoAnswer has no [break], so when the
    view holds an NSEC at [*.origin], that is the wildcard the object ends
    with, whatever wildcards nearer to [qname] the view also holds
    (NSECStatusNXDOMAIN stops at the first covered wildcard instead). *)
Theorem X7_nsec_noanswer_wildcard_of_origin :
  forall (l : name) (rdtype : Z) (origin : name) (v : NSECSet.t)
         (info : NSECSet.rrset_info_t),
    l <> [] ->
    dns_name.is_subdomain (l ++ origin) origin = true ->
    NSECSet.rrsets_getitem v (dns_name.from_text_star origin) = Ok info ->
    exists f,
      NSECStatusNoAnswer.init_fields (l ++ origin) rdtype origin v = Ok f
      /\ NSECStatusNoAnswer.wildcard_name f = dns_name.from_text_star origin
      /\ NSECStatusNoAnswer.nsec_for_wildcard_name f = Some info
      /\ NSECStatusNoAnswer.wildcard_has_rdtype f
         = Some (existsb (Z.eqb rdtype) (NSECSet.types (NSECSet.rrset_0 info))).
Proof.
  intros l rdtype origin v info Hl Hsub Hinfo.
  unfold NSECStatusNoAnswer.init_fields.
  destruct (match_qname_total v (l ++ origin) rdtype) as [[[[[a b] c] d] e] Hm].
  rewrite Hm. cbn [bind].
  rewrite (noanswer_scan_origin_wins v rdtype origin info Hinfo l _ Hl Hsub).
  cbn [bind]. eexists. split; [reflexivity |]. cbn. auto.
Qed.

(** X7 for [a.b.example.] in a view that holds both [*.b.example.] and
    [*.example.] *)
Lemma X7_nsec_noanswer_wildcard_of_origin_witness :
  exists f,
    NSECStatusNoAnswer.init_fields ["a"; "b"; "example"; ""] 1 Samples.zone
      (SampleViews.nsec_view
         [SampleViews.entry ["*"; "b"; "example"; ""] SampleViews.z_example 0 [16];
          SampleViews.entry SampleViews.star_example SampleViews.a_example 0 [1]]
         false []) = Ok f
    /\ NSECStatusNoAnswer.wildcard_name f = SampleViews.star_example
    /\ NSECStatusNoAnswer.wildcard_has_rdtype f = Some true.
Proof.
  destruct (X7_nsec_noanswer_wildcard_of_origin ["a"; "b"] 1 Samples.zone
              (SampleViews.nsec_view
                 [SampleViews.entry ["*"; "b"; "example"; ""] SampleViews.z_example 0 [16];
                  SampleViews.entry SampleViews.star_example SampleViews.a_example 0 [1]]
                 false [])
              (snd (SampleViews.entry SampleViews.star_example SampleViews.a_example 0 [1])))
    as (f & E & Hw & _ & Hr).
  - discriminate.
  - reflexivity.
  - reflexivity.
  - exists f. split; [exact E |]. split; [exact Hw | exact Hr].
Defined.

(** X8: when the view holds an NSEC at [qname] itself, under an [origin] of
    at most 253 octets (so that [*.origin] is a name), NSECStatusNoAnswer
    returns and judges that record alone: for type DS or a referral the status is VALID
    exactly when the bitmap has NS and has neither DS nor SOA; otherwise
    exactly when the bitmap lacks the queried type.  Wildcards and covering
    names play no part, and each violated bit has its own error. *)
Theorem X8_nsec_noanswer_matching_nsec :
  forall (qname : name) (rdtype : Z) (origin : name) (v : NSECSet.t)
         (info : NSECSet.rrset_info_t),
    dns_name.is_subdomain qname origin = true ->
    dns_name.wire_length origin <= 253 ->
    NSECSet.rrsets_getitem v qname = Ok info ->
    let has t := existsb (Z.eqb t) (NSECSet.types (NSECSet.rrset_0 info)) in
    exists s,
      NSECStatusNoAnswer.__init__ qname rdtype origin v = Ok s
      /\ NSECStatusNoAnswer.nsec_for_qname (NSECStatusNoAnswer.self s) = Some info
      /\ (NSECStatusNoAnswer.validation_status s = NSEC_STATUS_VALID
          <-> if (rdtype =? rdatatype_DS) || NSECSet.referral v
              then has rdatatype_NS = true /\ has rdatatype_DS = false
                   /\ has rdatatype_SOA = false
              else has rdtype = false)
      /\ NSECStatusNoAnswer.errors s
         = if (rdtype =? rdatatype_DS) || NSECSet.referral v
           then (if has rdatatype_NS then [] else [ReferralWithoutNSBitNSEC qname])
                ++ (if has rdatatype_DS then [ReferralWithDSBitNSEC qname] else [])
                ++ (if has rdatatype_SOA then [ReferralWithSOABitNSEC qname] else [])
           else if has rdtype then [StypeInBitmapNoDataNSEC qname rdtype] else [].
Proof.
  intros qname rdtype origin v info Hsub Hlen Hinfo has. subst has. cbv beta.
  unfold NSECStatusNoAnswer.__init__.
  rewrite (from_text_short origin Hlen). cbn [bind].
  unfold NSECStatusNoAnswer.init_fields.
  rewrite (match_qname_direct v qname rdtype info Hinfo). cbn [bind].
  destruct (noanswer_scan_returns v rdtype origin qname Hsub
              (None, None, dns_name.from_text_star origin)) as [[[w wr] wn] Hscan].
  rewrite Hscan. cbn [bind].
  unfold NSECStatusNoAnswer._set_validation_status, NSECStatusNoAnswer.evaluate.
  cbn [NSECStatusNoAnswer.nsec_for_qname NSECStatusNoAnswer.rdtype
       NSECStatusNoAnswer.referral NSECStatusNoAnswer.has_ns
       NSECStatusNoAnswer.has_ds NSECStatusNoAnswer.has_soa
       NSECStatusNoAnswer.has_rdtype NSECStatusNoAnswer.qname].
  set (types := NSECSet.types (NSECSet.rrset_0 info)).
  destruct ((rdtype =? rdatatype_DS) || NSECSet.referral v);
    destruct (existsb (Z.eqb rdatatype_NS) types);
    destruct (existsb (Z.eqb rdatatype_DS) types);
    destruct (existsb (Z.eqb rdatatype_SOA) types);
    destruct (existsb (Z.eqb rdtype) types);
    cbn; eexists; (split; [reflexivity |]); cbn; unfold_status;
    repeat split; intros;
    repeat match goal with H : _ /\ _ |- _ => destruct H end;
    try discriminate; try reflexivity; auto.
Qed.

(** X8 for the apex NSEC of the view of scenario 5, queried for MX *)
Lemma X8_nsec_noanswer_matching_nsec_witness :
  exists s,
    NSECStatusNoAnswer.__init__ Samples.zone 15 Samples.zone
      SampleViews.nxdomain_view = Ok s
    /\ NSECStatusNoAnswer.validation_status s = NSEC_STATUS_VALID
    /\ NSECStatusNoAnswer.errors s = [].
Proof.
  destruct (X8_nsec_noanswer_matching_nsec Samples.zone 15 Samples.zone
              SampleViews.nxdomain_view
              (snd (SampleViews.entry Samples.zone SampleViews.a_example 0
                      [rdatatype_NS; rdatatype_SOA]))
              eq_refl ltac:(vm_compute; discriminate) eq_refl)
    as (s & E & _ & Hvalid & Herr).
  exists s. split; [exact E |]. split; [apply Hvalid; reflexivity | exact Herr].
Defined.

(* ------------------------------------------------------------------ *)
(** ** NSEC3: the algorithm error is recorded at most once *)

Lemma unsupported_count_app alg l1 l2 :
  unsupported_count alg (l1 ++ l2)
  = (unsupported_count alg l1 + unsupported_count alg l2)%nat.
Proof. apply count_occ_app. Qed.

Lemma unsupported_count_semantic alg e :
  semantic_error e -> unsupported_count alg [e] = 0%nat.
Proof.
  intros H. unfold unsupported_count. cbn [count_occ].
  destruct (Error_eq_dec e (UnsupportedNSEC3Algorithm alg)) as [E | _];
    [exfalso; exact (H alg E) | reflexivity].
Qed.

Lemma unsupported_count_single alg e : (unsupported_count alg [e] <= 1)%nat.
Proof.
  unfold unsupported_count. cbn [count_occ].
  destruct (Error_eq_dec e (UnsupportedNSEC3Algorithm alg)); lia.
Qed.

Lemma error_in_false_count alg l :
  error_in (UnsupportedNSEC3Algorithm alg) l = false -> unsupported_count alg l = 0%nat.
Proof.
  unfold error_in, unsupported_count.
  induction l as [| x l IH]; intros H; [reflexivity |].
  cbn [existsb] in H. apply orb_false_iff in H. destruct H as [Hx Hl].
  cbn [count_occ].
  destruct (Error_eq_dec x (UnsupportedNSEC3Algorithm alg)) as [-> | Hne].
  - destruct (Error_eq_dec (UnsupportedNSEC3Algorithm alg)
                (UnsupportedNSEC3Algorithm alg)); [discriminate Hx | congruence].
  - apply IH. exact Hl.
Qed.

Lemma count_err_semantic alg e p :
  semantic_error e ->
  unsupported_count alg (p_errors (err e p)) = unsupported_count alg (p_errors p).
Proof.
  intros H. rewrite p_errors_err, unsupported_count_app,
    (unsupported_count_semantic alg e H). lia.
Qed.

Lemma count_err_invalid_alg alg invalid_algs p :
  (unsupported_count alg (p_errors (err_invalid_alg invalid_algs p))
   <= unsupported_count alg (p_errors p) + 1)%nat.
Proof.
  unfold err_invalid_alg, invalid_alg_err. destruct invalid_algs as [| a ia]; [lia |].
  cbn [truthy]. rewrite p_errors_err, unsupported_count_app.
  pose proof (unsupported_count_single alg (UnsupportedNSEC3Algorithm a)). lia.
Qed.

Lemma count_err_invalid_alg_once alg invalid_algs p :
  (unsupported_count alg (p_errors p) <= 1)%nat ->
  (unsupported_count alg (p_errors (err_invalid_alg_once invalid_algs p)) <= 1)%nat.
Proof.
  intros Hp. unfold err_invalid_alg_once, invalid_alg_err.
  destruct invalid_algs as [| a ia]; [exact Hp |]. cbn [truthy andb].
  destruct (error_in (UnsupportedNSEC3Algorithm a) (p_errors p)) eqn:Hin;
    cbn [negb]; [exact Hp |].
  rewrite p_errors_err, unsupported_count_app.
  destruct (Z.eq_dec a alg) as [-> | Hne].
  - rewrite (error_in_false_count alg _ Hin).
    pose proof (unsupported_count_single alg (UnsupportedNSEC3Algorithm alg)). lia.
  - assert (H0 : unsupported_count alg [UnsupportedNSEC3Algorithm a] = 0%nat).
    { unfold unsupported_count. cbn [count_occ].
      destruct (Error_eq_dec (UnsupportedNSEC3Algorithm a)
                  (UnsupportedNSEC3Algorithm alg)) as [E | _];
        [congruence | reflexivity]. }
    rewrite H0. lia.
Qed.

Ltac semantic := intros ?alg ?H; discriminate.

(** no algorithm error before the first [err_invalid_alg] *)
Ltac count_start :=
  rewrite ?count_err_semantic by semantic;
  rewrite ?p_errors_set_status; cbn [p_errors];
  unfold unsupported_count; cbn [count_occ]; lia.

Lemma nsec3_nxdomain_unsupported_once alg f v :
  (unsupported_count alg (p_errors (NSEC3StatusNXDOMAIN.evaluate f v)) <= 1)%nat.
Proof.
  unfold NSEC3StatusNXDOMAIN.evaluate.
  destruct (NSECSet.get_algorithm_support v) as [va ia].
  destruct (NSEC3StatusNXDOMAIN.closest_encloser f) as [| [encloser names] rest].
  - eapply Nat.le_trans; [apply count_err_invalid_alg |].
    destruct (truthy va); count_start.
  - match goal with
    | |- context [if negb (truthy (NSEC3StatusNXDOMAIN.nsec_names_covering_qname f))
                  then ?a else ?b] =>
        assert (H1 : (unsupported_count alg
                        (p_errors (if negb (truthy
                                      (NSEC3StatusNXDOMAIN.nsec_names_covering_qname f))
                                   then a else b)) <= 1)%nat)
    end.
    { destruct (negb _); [| count_start].
      eapply Nat.le_trans; [apply count_err_invalid_alg |].
      destruct (truthy va); count_start. }
    destruct (negb (truthy (NSEC3StatusNXDOMAIN.nsec_names_covering_wildcard f)));
      [| exact H1].
    apply count_err_invalid_alg_once.
    destruct (truthy va); rewrite ?count_err_semantic by semantic;
      rewrite p_errors_set_status; exact H1.
Qed.

(** at most one [err_invalid_alg] on the path taken *)
Ltac count_once :=
  repeat (rewrite ?count_err_semantic by semantic; rewrite ?p_errors_set_status);
  first [ count_start
        | eapply Nat.le_trans; [apply count_err_invalid_alg |];
          repeat (rewrite ?count_err_semantic by semantic; rewrite ?p_errors_set_status);
          count_start ].

Lemma nsec3_wildcard_unsupported_once alg f v p :
  NSEC3StatusWildcard.evaluate f v = Ok p ->
  (unsupported_count alg (p_errors p) <= 1)%nat.
Proof.
  unfold NSEC3StatusWildcard.evaluate.
  destruct (NSECSet.get_algorithm_support v) as [va ia].
  intros E. inv_ok; count_once.
Qed.

Lemma nsec3_noanswer_unsupported_once alg f v p opt_out :
  NSEC3StatusNoAnswer.evaluate f v = Ok (p, opt_out) ->
  (unsupported_count alg (p_errors p) <= 1)%nat.
Proof.
  unfold NSEC3StatusNoAnswer.evaluate.
  destruct (NSECSet.get_algorithm_support v) as [va ia].
  intros E. inv_ok; split_checks; count_once.
Qed.

(** X9: whatever the view reports, each of the three NSEC3 classes records
    UnsupportedNSEC3Algorithm at most once for any algorithm, also when
    several of its rules fail together. *)
Theorem X9_nsec3_unsupported_at_most_once :
  forall (alg : Z),
    (forall qname rdtype origin v,
        (unsupported_count alg
           (NSEC3StatusNXDOMAIN.errors
              (NSEC3StatusNXDOMAIN.__init__ qname rdtype origin v)) <= 1)%nat)
    /\ (forall qname wildcard_name rdtype origin v s,
           NSEC3StatusWildcard.__init__ qname wildcard_name rdtype origin v = Ok s ->
           (unsupported_count alg (NSEC3StatusNXDOMAIN.errors s) <= 1)%nat)
    /\ (forall qname rdtype origin v s,
           NSEC3StatusNoAnswer.__init__ qname rdtype origin v = Ok s ->
           (unsupported_count alg (NSEC3StatusNoAnswer.errors s) <= 1)%nat).
Proof.
  intros alg. split; [| split].
  - intros. unfold NSEC3StatusNXDOMAIN.__init__, NSEC3StatusNXDOMAIN._set_validation_status.
    cbn [NSEC3StatusNXDOMAIN.errors]. apply nsec3_nxdomain_unsupported_once.
  - unfold NSEC3StatusWildcard.__init__, NSEC3StatusWildcard._set_validation_status.
    intros qname wildcard_name rdtype origin v s E.
    apply bind_Ok in E. destruct E as ([ce m0] & _ & E).
    apply bind_Ok in E. destruct E as (p & Ep & E). injection E as <-.
    cbn [NSEC3StatusNXDOMAIN.errors]. eapply nsec3_wildcard_unsupported_once. exact Ep.
  - unfold NSEC3StatusNoAnswer.__init__, NSEC3StatusNoAnswer._set_validation_status.
    intros qname rdtype origin v s E.
    apply bind_Ok in E. destruct E as (f & _ & E).
    apply bind_Ok in E. destruct E as ([p oo] & Ep & E). injection E as <-.
    cbn [NSEC3StatusNoAnswer.errors]. eapply nsec3_noanswer_unsupported_once. exact Ep.
Qed.

(** X9 where two rules of NSEC3StatusNXDOMAIN fail together under a valid
    and an invalid algorithm, and on the NODATA proof of scenario 6 *)
Lemma X9_nsec3_unsupported_at_most_once_witness :
  unsupported_count 99
    (NSEC3StatusNXDOMAIN.errors
       (NSEC3StatusNXDOMAIN.__init__ SampleViews.foo 1 Samples.zone
          (SampleViews.nsec3_view [] false 1 [] []
             [(Samples.zone, [SampleViews.h "h-example"])] ([1], [99])))) = 1%nat
  /\ exists s,
       NSEC3StatusNoAnswer.__init__ SampleViews.foo rdatatype_DS Samples.zone
         SampleViews.opt_out_view = Ok s
       /\ (unsupported_count 99 (NSEC3StatusNoAnswer.errors s) <= 1)%nat.
Proof.
  destruct (X9_nsec3_unsupported_at_most_once 99) as (_ & _ & Hna).
  split; [vm_compute; reflexivity |].
  destruct (NSEC3StatusNoAnswer.__init__ SampleViews.foo rdatatype_DS Samples.zone
              SampleViews.opt_out_view) as [s | e] eqn:E;
    [| vm_compute in E; discriminate E].
  exists s. split; [reflexivity |]. exact (Hna _ _ _ _ s E).
Defined.

(* ------------------------------------------------------------------ *)
(** ** NSEC3StatusWildcard: the closest encloser is never missing *)

Lemma init_fields_keeps {E} qname origin v (closest_encloser : list (name * list E)) m0 :
  let f := NSEC3StatusNXDOMAIN.init_fields qname origin v closest_encloser m0 in
  NSEC3StatusNXDOMAIN.closest_encloser f = closest_encloser
  /\ NSEC3StatusNXDOMAIN.qname f = qname
  /\ NSEC3StatusNXDOMAIN.origin f = origin.
Proof.
  unfold NSEC3StatusNXDOMAIN.init_fields.
  destruct (fold_left _ (dict_keys closest_encloser) _) as [[m cq] cw].
  simpl. auto.
Qed.

Lemma nsec3_wildcard_evaluate_returns f v :
  NSEC3StatusNXDOMAIN.closest_encloser f <> [] ->
  exists p, NSEC3StatusWildcard.evaluate f v = Ok p.
Proof.
  intros Hce. unfold NSEC3StatusWildcard.evaluate, get_next_closest_encloser.
  destruct (NSEC3StatusNXDOMAIN.closest_encloser f) as [| [e names] rest];
    [congruence |].
  destruct (NSECSet.get_algorithm_support v) as [va ia].
  split_checks; cbn; eauto.
Qed.

(** X10: NSEC3StatusWildcard never reads an attribute of a missing next
    closer name.  When the view reports no closest encloser it infers
    [parent(wildcard_name)] with the member [None], so the object always has
    a closest encloser; the constructor returns, except that it raises
    [NoParent] when the view reports none and [wildcard_name] is the root or
    the empty name. *)
Theorem X10_nsec3_wildcard_closest_encloser :
  forall (qname wildcard_name : name) (rdtype : Z) (origin : name) (v : NSECSet.t),
    match NSEC3StatusWildcard.__init__ qname wildcard_name rdtype origin v with
    | Ok s =>
        NSEC3StatusNXDOMAIN.closest_encloser (NSEC3StatusNXDOMAIN.self s) <> []
        /\ (NSECSet.get_closest_encloser v qname origin = [] ->
            exists parent,
              dns_name.parent wildcard_name = Ok parent
              /\ NSEC3StatusNXDOMAIN.closest_encloser (NSEC3StatusNXDOMAIN.self s)
                 = [(parent, [None])])
    | Raise e =>
        e = NoParent
        /\ NSECSet.get_closest_encloser v qname origin = []
        /\ dns_name.parent wildcard_name = Raise NoParent
    end.
Proof.
  intros qname wildcard_name rdtype origin v.
  unfold NSEC3StatusWildcard.__init__, NSEC3StatusWildcard._set_closest_encloser,
    NSEC3StatusWildcard._set_validation_status.
  destruct (NSECSet.get_closest_encloser v qname origin) as [| [e names] rest] eqn:Hce.
  - cbn [map truthy negb].
    destruct (dns_name.parent wildcard_name) as [parent | ex] eqn:Hp.
    + cbn [bind].
      destruct (init_fields_keeps qname origin v [(parent, [@None name])]
                  (dict_set name_eqb wildcard_name [(None, Some wildcard_name)] []))
        as (Hk & _).
      destruct (nsec3_wildcard_evaluate_returns
                  (NSEC3StatusNXDOMAIN.init_fields qname origin v
                     [(parent, [@None name])]
                     (dict_set name_eqb wildcard_name [(None, Some wildcard_name)] []))
                  v) as [p Hev]; [rewrite Hk; discriminate |].
      rewrite Hev. cbn [bind NSEC3StatusNXDOMAIN.self]. rewrite Hk.
      split; [discriminate |]. intros _. exists parent. auto.
    + assert (Hex : ex = NoParent).
      { unfold dns_name.parent in Hp. destruct wildcard_name as [| x p]; [congruence |].
        destruct (name_eqb (x :: p) dns_name.root); congruence. }
      subst ex. cbn [bind]. auto.
  - cbn [map truthy negb fst snd bind].
    match goal with
    | |- context [NSEC3StatusNXDOMAIN.init_fields ?q ?o ?vv ?ce ?m] =>
        destruct (init_fields_keeps q o vv ce m) as (Hk & _);
        destruct (nsec3_wildcard_evaluate_returns
                    (NSEC3StatusNXDOMAIN.init_fields q o vv ce m) v) as [p Hev];
        [rewrite Hk; discriminate |]
    end.
    rewrite Hev. cbn [bind NSEC3StatusNXDOMAIN.self]. rewrite Hk.
    split; [discriminate |]. intros H. discriminate H.
Qed.

(** X10 for a view without closest encloser and the wildcard [*.example.] *)
Lemma X10_nsec3_wildcard_closest_encloser_witness :
  exists s,
    NSEC3StatusWildcard.__init__ SampleViews.foo SampleViews.star_example 1
      Samples.zone SampleViews.unsupported_view = Ok s
    /\ NSEC3StatusNXDOMAIN.closest_encloser (NSEC3StatusNXDOMAIN.self s)
       = [(Samples.zone, [None])].
Proof.
  pose proof (X10_nsec3_wildcard_closest_encloser SampleViews.foo
                SampleViews.star_example 1 Samples.zone SampleViews.unsupported_view)
    as H.
  destruct (NSEC3StatusWildcard.__init__ SampleViews.foo SampleViews.star_example 1
              Samples.zone SampleViews.unsupported_view) as [s | e] eqn:E.
  - exists s. split; [reflexivity |].
    destruct H as [_ H]. destruct (H eq_refl) as (parent & Hp & Hce).
    rewrite Hce. vm_compute in Hp. injection Hp as <-. reflexivity.
  - destruct H as (_ & _ & Hp). vm_compute in Hp. discriminate Hp.
Defined.

(* ------------------------------------------------------------------ *)
(** ** NSEC3: what the covering dicts hold *)

Lemma record_covering_from_view v d salt alg iterations cq :
  covering_from_view v cq ->
  covering_from_view v
    (record_covering d (NSECSet.nsec3_covering_name v d salt alg iterations) cq).
Proof.
  intros H. unfold record_covering.
  destruct (truthy _) eqn:Ht; [| exact H].
  apply dict_set_Forall; [exact H |]. simpl.
  split; [apply truthy_true_not_nil; exact Ht | eauto].
Qed.

Lemma covering_from_view_held v cq :
  nsec3_covering_owned v -> covering_from_view v cq -> covering_held v cq.
Proof.
  intros Hown Hcq d names n Hin Hn.
  unfold covering_from_view in Hcq. rewrite Forall_forall in Hcq.
  destruct (Hcq _ Hin) as (_ & salt & alg & iterations & Hs). simpl in Hs.
  apply (Hown d salt alg iterations n). rewrite <- Hs. exact Hn.
Qed.

Lemma for_each_invariant {A B} (P : A -> Prop) (body : A -> B -> result A)
    (l : list B) (a a' : A) :
  (forall x b y, P x -> body x b = Ok y -> P y) ->
  P a -> for_each body l a = Ok a' -> P a'.
Proof.
  intros Hstep. revert a. induction l as [| b l IH]; simpl; intros a Ha E.
  - injection E as <-. exact Ha.
  - apply bind_Ok in E. destruct E as (y & Ey & E). eauto.
Qed.

Lemma nxdomain_step_from_view v qname origin encloser st key :
  (let '(_, cq, cw) := st in covering_from_view v cq /\ covering_from_view v cw) ->
  let '(_, cq, cw) :=
    NSEC3StatusNXDOMAIN.encloser_params_step v qname origin encloser st key in
  covering_from_view v cq /\ covering_from_view v cw.
Proof.
  destruct st as [[m cq] cw]. destruct key as [[salt alg] iterations].
  intros [Hq Hw]. unfold NSEC3StatusNXDOMAIN.encloser_params_step.
  split.
  - destruct (match name_digest_getitem m _ _ with Ok d => d | Raise _ => _ end);
      [apply record_covering_from_view |]; exact Hq.
  - destruct (NSECSet.get_digest_name_for_nsec3 v (_get_wildcard encloser) _ _ _ _);
      [apply record_covering_from_view |]; exact Hw.
Qed.

Lemma nxdomain_init_from_view {E} v qname origin (ce : list (name * list E)) m0 :
  let f := NSEC3StatusNXDOMAIN.init_fields qname origin v ce m0 in
  covering_from_view v (NSEC3StatusNXDOMAIN.nsec_names_covering_qname f)
  /\ covering_from_view v (NSEC3StatusNXDOMAIN.nsec_names_covering_wildcard f).
Proof.
  unfold NSEC3StatusNXDOMAIN.init_fields.
  match goal with
  | |- context [fold_left ?g ?l ?a] =>
      match type of a with
      | (_ * _ * _)%type =>
          assert (H : let '(_, cq, cw) := fold_left g l a in
                      covering_from_view v cq /\ covering_from_view v cw)
      end
  end.
  { apply (fold_left_invariant
             (fun st : NSEC3StatusNXDOMAIN.loop_state =>
                let '(_, cq, cw) := st in
                covering_from_view v cq /\ covering_from_view v cw)).
    - intros st encloser Hst. unfold NSEC3StatusNXDOMAIN.encloser_step.
      apply (fold_left_invariant
               (fun st : NSEC3StatusNXDOMAIN.loop_state =>
                  let '(_, cq, cw) := st in
                  covering_from_view v cq /\ covering_from_view v cw));
        [| exact Hst].
      intros st' key Hst'. apply nxdomain_step_from_view. exact Hst'.
    - split; constructor. }
  destruct (fold_left _ (dict_keys ce) _) as [[m cq] cw]. exact H.
Qed.

Lemma noanswer_init_from_view v qname rdtype origin f :
  NSEC3StatusNoAnswer.init_fields qname rdtype origin v = Ok f ->
  covering_from_view v (NSEC3StatusNoAnswer.nsec_names_covering_qname f)
  /\ NSEC3StatusNoAnswer.nsec_names_covering_wildcard f = []
  /\ NSEC3StatusNoAnswer.wildcard_name f = None.
Proof.
  unfold NSEC3StatusNoAnswer.init_fields. intros E.
  apply bind_Ok in E. destruct E as (w & _ & E).
  apply bind_Ok in E. destruct E as (q & Eq & E). injection E as <-.
  cbn. split; [| auto].
  revert Eq.
  apply (for_each_invariant
           (fun q => covering_from_view v (NSEC3StatusNoAnswer.q_covering_qname q)));
    [| constructor].
  intros x [[[salt alg] iterations] names] y Hx.
  unfold NSEC3StatusNoAnswer.params_step2. cbn [fst snd].
  assert (Hfold :
            covering_from_view v
              (NSEC3StatusNoAnswer.q_covering_qname
                 (fold_left
                    (NSEC3StatusNoAnswer.next_closer_step v qname origin
                       (salt, alg, iterations))
                    (dict_keys (NSECSet.get_closest_encloser v qname origin)) x))).
  { apply (fold_left_invariant
             (fun q => covering_from_view v (NSEC3StatusNoAnswer.q_covering_qname q)));
      [| exact Hx].
    intros st encloser Hst. unfold NSEC3StatusNoAnswer.next_closer_step. cbn.
    destruct (NSECSet.get_digest_name_for_nsec3 v _ _ _ _ _);
      [apply record_covering_from_view |]; exact Hst. }
  intros E. apply bind_Ok in E. destruct E as (dn & _ & E).
  destruct dn as [d |]; [destruct (digest_in (Some d) names) |].
  - inv_ok. exact Hx.
  - injection E as <-. exact Hfold.
  - injection E as <-. exact Hfold.
Qed.

(** X11: the three NSEC3 classes record under [nsec_names_covering_qname]
    (and, for NXDOMAIN and Wildcard, [nsec_names_covering_wildcard]) only
    non-empty covering sets that the view reported for the digest they are
    keyed by, so a non-empty dict means a covering NSEC3 exists; in
    NSEC3StatusNoAnswer [nsec_names_covering_wildcard] stays empty and
    [wildcard_name] stays [None].  When the view's covering names are owners
    it holds, so are all the names recorded. *)
Theorem X11_nsec3_covering_dicts :
  (forall qname rdtype origin v,
      let f := NSEC3StatusNXDOMAIN.self
                 (NSEC3StatusNXDOMAIN.__init__ qname rdtype origin v) in
      covering_from_view v (NSEC3StatusNXDOMAIN.nsec_names_covering_qname f)
      /\ covering_from_view v (NSEC3StatusNXDOMAIN.nsec_names_covering_wildcard f))
  /\ (forall qname wildcard_name rdtype origin v s,
         NSEC3StatusWildcard.__init__ qname wildcard_name rdtype origin v = Ok s ->
         let f := NSEC3StatusNXDOMAIN.self s in
         covering_from_view v (NSEC3StatusNXDOMAIN.nsec_names_covering_qname f)
         /\ covering_from_view v (NSEC3StatusNXDOMAIN.nsec_names_covering_wildcard f))
  /\ (forall qname rdtype origin v f,
         NSEC3StatusNoAnswer.init_fields qname rdtype origin v = Ok f ->
         covering_from_view v (NSEC3StatusNoAnswer.nsec_names_covering_qname f)
         /\ NSEC3StatusNoAnswer.nsec_names_covering_wildcard f = []
         /\ NSEC3StatusNoAnswer.wildcard_name f = None
         /\ (nsec3_covering_owned v ->
             covering_held v (NSEC3StatusNoAnswer.nsec_names_covering_qname f))).
Proof.
  split; [| split].
  - intros. unfold f, NSEC3StatusNXDOMAIN.__init__,
      NSEC3StatusNXDOMAIN._set_validation_status.
    cbn [NSEC3StatusNXDOMAIN.self]. apply nxdomain_init_from_view.
  - unfold NSEC3StatusWildcard.__init__, NSEC3StatusWildcard._set_validation_status.
    intros qname wildcard_name rdtype origin v s E.
    apply bind_Ok in E. destruct E as ([ce m0] & _ & E).
    apply bind_Ok in E. destruct E as (p & _ & E). injection E as <-.
    cbn [NSEC3StatusNXDOMAIN.self]. apply nxdomain_init_from_view.
  - intros qname rdtype origin v f E.
    destruct (noanswer_init_from_view v qname rdtype origin f E) as (H1 & H2 & H3).
    repeat split; try assumption.
    intros Hown. apply covering_from_view_held; assumption.
Qed.

(** X11 at scenario 6 of the specification: the covering set of the digest
    of [foo.example.] is recorded, and it is an owner of the view *)
Lemma X11_nsec3_covering_dicts_witness :
  exists f,
    NSEC3StatusNoAnswer.init_fields SampleViews.foo rdatatype_DS Samples.zone
      SampleViews.opt_out_view = Ok f
    /\ NSEC3StatusNoAnswer.nsec_names_covering_qname f
       = [(SampleViews.h "h-foo", [SampleViews.h "h-m"])]
    /\ covering_from_view SampleViews.opt_out_view
         (NSEC3StatusNoAnswer.nsec_names_covering_qname f)
    /\ covering_held SampleViews.opt_out_view
         (NSEC3StatusNoAnswer.nsec_names_covering_qname f).
Proof.
  destruct (NSEC3StatusNoAnswer.init_fields SampleViews.foo rdatatype_DS Samples.zone
              SampleViews.opt_out_view) as [f | e] eqn:E;
    [| vm_compute in E; discriminate E].
  exists f. split; [reflexivity |].
  destruct X11_nsec3_covering_dicts as (_ & _ & H).
  destruct (H SampleViews.foo rdatatype_DS Samples.zone SampleViews.opt_out_view f E)
    as (H1 & _ & _ & H4).
  split; [vm_compute in E; inversion E; reflexivity |].
  split; [exact H1 |].
  apply H4. intros d salt alg iterations x Hx.
  cbn in Hx. unfold SampleViews.lookup_set, dict_get in Hx.
  cbn [find fst snd] in Hx.
  destruct (name_eqb d (SampleViews.h "h-foo")); cbn in Hx; [| destruct Hx].
  destruct Hx as [<- | []]. eexists. vm_compute. reflexivity.
Defined.

(* ------------------------------------------------------------------ *)
(** ** NSEC3: the digest memo *)

Lemma params_eqb_eq (a b : NSECSet.params) : NSECSet.params_eqb a b = true <-> a = b.
Proof.
  destruct a as [[s1 a1] i1], b as [[s2 a2] i2]. unfold NSECSet.params_eqb.
  destruct (list_eq_dec Byte.byte_eq_dec s1 s2) as [-> | Hs]; simpl.
  - rewrite andb_true_iff, !Z.eqb_eq. split.
    + intros [-> ->]. reflexivity.
    + intros E. injection E as -> ->. auto.
  - split; [discriminate | congruence].
Qed.

Lemma digest_key_eqb_eq (a b : digest_key) : digest_key_eqb a b = true <-> a = b.
Proof.
  destruct a as [x |], b as [y |]; simpl;
    try (split; [discriminate | congruence]); try tauto.
  rewrite params_eqb_eq. split; congruence.
Qed.

Lemma dict_get_set {K V} (eqb : K -> K -> bool) (k k' : K) (x : V) (d : list (K * V)) :
  (forall a b, eqb a b = true <-> a = b) ->
  dict_get eqb k' (dict_set eqb k x d)
  = if eqb k' k then Some x else dict_get eqb k' d.
Proof.
  intros Heq. induction d as [| [k0 x0] d IH]; simpl.
  - reflexivity.
  - destruct (eqb k k0) eqn:E0; simpl.
    + apply Heq in E0. subst k0. destruct (eqb k' k); reflexivity.
    + rewrite IH. destruct (eqb k' k0) eqn:E1, (eqb k' k) eqn:E2; try reflexivity.
      apply Heq in E1, E2. subst. 
      assert (eqb k0 k0 = true) by (apply Heq; reflexivity). congruence.
Qed.

Lemma getitem_setitem (m : name_digest_map_t) n k d n' k' :
  name_digest_getitem (name_digest_setitem m n k d) n' k'
  = if name_eqb n' n && digest_key_eqb k' k then Ok d
    else name_digest_getitem m n' k'.
Proof.
  unfold name_digest_getitem, name_digest_setitem.
  rewrite (dict_get_set name_eqb n n' _ m name_eqb_eq).
  destruct (name_eqb n' n) eqn:En; simpl; [| reflexivity].
  apply name_eqb_eq in En. subst n'.
  rewrite (dict_get_set digest_key_eqb k k' d _ digest_key_eqb_eq).
  destruct (digest_key_eqb k' k); [reflexivity |].
  destruct (dict_get name_eqb n m); reflexivity.
Qed.

Lemma memo_sound_nil v origin : memo_sound v origin [].
Proof. intros n salt alg iterations d H. discriminate H. Qed.

Lemma memo_sound_setitem v origin m n salt alg iterations :
  memo_sound v origin m ->
  memo_sound v origin
    (name_digest_setitem m n (Some (salt, alg, iterations))
       (NSECSet.get_digest_name_for_nsec3 v n origin salt alg iterations)).
Proof.
  intros Hm n' salt' alg' iterations' d. rewrite getitem_setitem.
  destruct (name_eqb n' n && digest_key_eqb _ _) eqn:E.
  - apply andb_true_iff in E. destruct E as [En Ek].
    apply name_eqb_eq in En. apply digest_key_eqb_eq in Ek.
    injection Ek as -> -> ->. subst n'. intros H. injection H as <-. reflexivity.
  - apply Hm.
Qed.

Lemma memo_has_setitem m n k d n' k' :
  memo_has m n' k' -> memo_has (name_digest_setitem m n k d) n' k'.
Proof.
  intros [x Hx]. unfold memo_has. rewrite getitem_setitem.
  destruct (_ && _); eauto.
Qed.

Lemma memo_has_setitem_same m n k d : memo_has (name_digest_setitem m n k d) n k.
Proof.
  unfold memo_has. rewrite getitem_setitem, name_eqb_refl.
  assert (H : digest_key_eqb k k = true) by (apply digest_key_eqb_eq; reflexivity).
  rewrite H. simpl. eauto.
Qed.

Lemma nxdomain_step_memo v qname origin encloser st key :
  memo_sound v origin (fst (fst st)) ->
  memo_sound v origin
    (fst (fst (NSEC3StatusNXDOMAIN.encloser_params_step v qname origin encloser st key))).
Proof.
  destruct st as [[m cq] cw]. destruct key as [[salt alg] iterations].
  cbn [fst NSEC3StatusNXDOMAIN.encloser_params_step]. intros Hm.
  apply memo_sound_setitem.
  destruct (name_digest_getitem m _ _) as [d | e] eqn:E.
  - rewrite (Hm _ _ _ _ _ E). apply memo_sound_setitem. exact Hm.
  - apply memo_sound_setitem. exact Hm.
Qed.

Lemma nxdomain_init_memo {E} v qname origin (ce : list (name * list E)) m0 :
  memo_sound v origin m0 ->
  memo_sound v origin
    (NSEC3StatusNXDOMAIN.name_digest_map
       (NSEC3StatusNXDOMAIN.init_fields qname origin v ce m0)).
Proof.
  intros H0. unfold NSEC3StatusNXDOMAIN.init_fields.
  match goal with
  | |- context [fold_left ?g ?l ?a] =>
      match type of a with
      | (_ * _ * _)%type =>
          assert (H : memo_sound v origin (fst (fst (fold_left g l a))))
      end
  end.
  { apply (fold_left_invariant
             (fun st : NSEC3StatusNXDOMAIN.loop_state =>
                memo_sound v origin (fst (fst st)))).
    - intros st encloser Hst. unfold NSEC3StatusNXDOMAIN.encloser_step.
      apply (fold_left_invariant
               (fun st : NSEC3StatusNXDOMAIN.loop_state =>
                  memo_sound v origin (fst (fst st)))); [| exact Hst].
      intros st' key Hst'. apply nxdomain_step_memo. exact Hst'.
    - cbn [fst].
      apply (fold_left_invariant (memo_sound v origin)); [| exact H0].
      intros m [[[salt alg] iterations] names] Hm.
      unfold NSEC3StatusNXDOMAIN.hash_qname. cbn [fst].
      apply memo_sound_setitem. exact Hm. }
  destruct (fold_left _ (dict_keys ce) _) as [[m cq] cw]. exact H.
Qed.

Lemma wildcard_step_ok v origin rdtype salt alg iterations names s e :
  (forall d, In d names -> exists info, NSECSet.rrsets_getitem v d = Ok info) ->
  exists s',
    NSEC3StatusNoAnswer.wildcard_step v origin rdtype (salt, alg, iterations) names s e
    = Ok s'
    /\ NSEC3StatusNoAnswer.w_map s'
       = name_digest_setitem (NSEC3StatusNoAnswer.w_map s) (_get_wildcard e)
           (Some (salt, alg, iterations))
           (NSECSet.get_digest_name_for_nsec3 v (_get_wildcard e) origin salt alg
              iterations)
    /\ (forall d,
           In d (NSEC3StatusNoAnswer.w_nsec_for_wildcard_name s')
           <-> In d (NSEC3StatusNoAnswer.w_nsec_for_wildcard_name s)
               \/ (NSECSet.get_digest_name_for_nsec3 v (_get_wildcard e) origin salt alg
                     iterations = Some d
                   /\ In d names)).
Proof.
  intros Hown. unfold NSEC3StatusNoAnswer.wildcard_step.
  destruct (NSECSet.get_digest_name_for_nsec3 v (_get_wildcard e) origin salt alg
              iterations) as [d0 |] eqn:Ed; cbn [digest_in].
  - destruct (name_mem d0 names) eqn:Em.
    + apply name_mem_In in Em. destruct (Hown d0 Em) as [info Hinfo].
      rewrite !(rdtype_exists_in_bitmap_ok v d0 _ info Hinfo). cbn.
      eexists. split; [reflexivity |]. cbn. split; [reflexivity |].
      intros d. rewrite set_add_iff. split.
      * intros [-> | H]; auto.
      * intros [H | [H _]]; [auto |]. injection H as ->. auto.
    + cbn. eexists. split; [reflexivity |]. cbn. split; [reflexivity |].
      intros d. split; [auto |]. intros [H | [H Hin]]; [exact H |].
      injection H as ->. apply name_mem_In in Hin. congruence.
  - cbn. eexists. split; [reflexivity |]. cbn. split; [reflexivity |].
    intros d. split; [auto |]. intros [H | [H _]]; [exact H | discriminate].
Qed.

Lemma wildcard_loop_ok v origin rdtype salt alg iterations names enclosers :
  (forall d, In d names -> exists info, NSECSet.rrsets_getitem v d = Ok info) ->
  forall s,
    memo_sound v origin (NSEC3StatusNoAnswer.w_map s) ->
    exists s',
      for_each (NSEC3StatusNoAnswer.wildcard_step v origin rdtype (salt, alg, iterations)
                  names) enclosers s = Ok s'
      /\ memo_sound v origin (NSEC3StatusNoAnswer.w_map s')
      /\ (forall n k, memo_has (NSEC3StatusNoAnswer.w_map s) n k ->
                      memo_has (NSEC3StatusNoAnswer.w_map s') n k)
      /\ (forall d,
             In d (NSEC3StatusNoAnswer.w_nsec_for_wildcard_name s')
             <-> In d (NSEC3StatusNoAnswer.w_nsec_for_wildcard_name s)
                 \/ exists e,
                     In e enclosers
                     /\ NSECSet.get_digest_name_for_nsec3 v (_get_wildcard e) origin salt
                          alg iterations = Some d
                     /\ In d names).
Proof.
  intros Hown. induction enclosers as [| e l IH]; intros s Hm; cbn [for_each].
  - exists s. repeat split; auto.
    intros [H | (e & [] & _)]. exact H.
  - destruct (wildcard_step_ok v origin rdtype salt alg iterations names s e Hown)
      as (s1 & E1 & Emap & Hset).
    rewrite E1. cbn [bind].
    destruct (IH s1) as (s' & E' & Hm' & Hmono & Hset').
    { rewrite Emap. apply memo_sound_setitem. exact Hm. }
    exists s'. split; [exact E' |]. split; [exact Hm' |]. split.
    + intros n k H. apply Hmono. rewrite Emap. apply memo_has_setitem. exact H.
    + intros d. rewrite Hset', Hset. split.
      * intros [[H | H] | (e' & He' & H)]; [auto | right; exists e | right; exists e'];
          cbn [In]; tauto.
      * intros [H | (e' & [<- | He'] & H)]; [auto | auto |].
        right. exists e'. tauto.
Qed.

Lemma params_loop1_ok v qname origin rdtype ce l :
  (forall key names d, In (key, names) l -> In d names ->
                       exists info, NSECSet.rrsets_getitem v d = Ok info) ->
  forall s,
    memo_sound v origin (NSEC3StatusNoAnswer.w_map s) ->
    exists s',
      for_each (NSEC3StatusNoAnswer.params_step1 v qname origin rdtype ce) l s = Ok s'
      /\ memo_sound v origin (NSEC3StatusNoAnswer.w_map s')
      /\ (forall n k, memo_has (NSEC3StatusNoAnswer.w_map s) n k ->
                      memo_has (NSEC3StatusNoAnswer.w_map s') n k)
      /\ (forall key names, In (key, names) l ->
                            memo_has (NSEC3StatusNoAnswer.w_map s') qname (Some key))
      /\ (forall d,
             In d (NSEC3StatusNoAnswer.w_nsec_for_wildcard_name s')
             <-> In d (NSEC3StatusNoAnswer.w_nsec_for_wildcard_name s)
                 \/ exists e salt alg iterations names,
                     In e (dict_keys ce)
                     /\ In ((salt, alg, iterations), names) l
                     /\ NSECSet.get_digest_name_for_nsec3 v (_get_wildcard e) origin salt
                          alg iterations = Some d
                     /\ In d names).
Proof.
  induction l as [| [[[salt alg] iterations] names] l IH]; intros Hown s Hm;
    cbn [for_each].
  - exists s. repeat split; auto.
    + intros key names [].
    + intros [H | (e & salt & alg & iterations & names & _ & [] & _)]. exact H.
  - unfold NSEC3StatusNoAnswer.params_step1 at 1. cbn [fst snd].
    match goal with
    | |- context [for_each _ (dict_keys ce) ?s0] =>
        destruct (wildcard_loop_ok v origin rdtype salt alg iterations names
                    (dict_keys ce)
                    (fun d H => Hown _ _ d (or_introl eq_refl) H) s0)
          as (s1 & E1 & Hm1 & Hmono1 & Hset1)
    end.
    { cbn. apply memo_sound_setitem. exact Hm. }
    rewrite E1. cbn [bind].
    destruct (IH (fun key names d H => Hown key names d (or_intror H)) s1 Hm1)
      as (s' & E' & Hm' & Hmono & Hkeys & Hset').
    exists s'. split; [exact E' |]. split; [exact Hm' |]. split; [| split].
    + intros n k H. apply Hmono, Hmono1. cbn. apply memo_has_setitem. exact H.
    + intros key names' [H | H].
      * injection H as <- <-. apply Hmono, Hmono1. cbn. apply memo_has_setitem_same.
      * eapply Hkeys. exact H.
    + intros d. rewrite Hset', Hset1. cbn [NSEC3StatusNoAnswer.w_nsec_for_wildcard_name].
      split.
      * intros [[H | (e & He & H)] | (e & s2 & a2 & i2 & n2 & He & Hin & H)].
        -- auto.
        -- right. exists e, salt, alg, iterations, names. cbn [In]. tauto.
        -- right. exists e, s2, a2, i2, n2. cbn [In]. tauto.
      * intros [H | (e & s2 & a2 & i2 & n2 & He & [Hin | Hin] & H)].
        -- auto.
        -- injection Hin as <- <- <- <-. left. right. exists e. tauto.
        -- right. exists e, s2, a2, i2, n2. tauto.
Qed.

Lemma next_closer_loop_ok v qname origin salt alg iterations enclosers s :
  memo_sound v origin (NSEC3StatusNoAnswer.q_map s) ->
  let s' := fold_left (NSEC3StatusNoAnswer.next_closer_step v qname origin
                         (salt, alg, iterations)) enclosers s in
  memo_sound v origin (NSEC3StatusNoAnswer.q_map s')
  /\ (forall n k, memo_has (NSEC3StatusNoAnswer.q_map s) n k ->
                  memo_has (NSEC3StatusNoAnswer.q_map s') n k)
  /\ NSEC3StatusNoAnswer.q_nsec_for_qname s' = NSEC3StatusNoAnswer.q_nsec_for_qname s.
Proof.
  intros Hm.
  apply (fold_left_invariant
           (fun x =>
              memo_sound v origin (NSEC3StatusNoAnswer.q_map x)
              /\ (forall n k, memo_has (NSEC3StatusNoAnswer.q_map s) n k ->
                              memo_has (NSEC3StatusNoAnswer.q_map x) n k)
              /\ NSEC3StatusNoAnswer.q_nsec_for_qname x
                 = NSEC3StatusNoAnswer.q_nsec_for_qname s)).
  - intros x e (H1 & H2 & H3). unfold NSEC3StatusNoAnswer.next_closer_step. cbn.
    split; [apply memo_sound_setitem; exact H1 |]. split; [| exact H3].
    intros n k H. apply memo_has_setitem, H2, H.
  - auto.
Qed.

Lemma params_step2_ok v qname origin rdtype ce s salt alg iterations names :
  (forall d, In d names -> exists info, NSECSet.rrsets_getitem v d = Ok info) ->
  memo_sound v origin (NSEC3StatusNoAnswer.q_map s) ->
  memo_has (NSEC3StatusNoAnswer.q_map s) qname (Some (salt, alg, iterations)) ->
  exists s',
    NSEC3StatusNoAnswer.params_step2 v qname origin rdtype ce s
      ((salt, alg, iterations), names) = Ok s'
    /\ memo_sound v origin (NSEC3StatusNoAnswer.q_map s')
    /\ (forall n k, memo_has (NSEC3StatusNoAnswer.q_map s) n k ->
                    memo_has (NSEC3StatusNoAnswer.q_map s') n k)
    /\ (forall d,
           In d (NSEC3StatusNoAnswer.q_nsec_for_qname s')
           <-> In d (NSEC3StatusNoAnswer.q_nsec_for_qname s)
               \/ (NSECSet.get_digest_name_for_nsec3 v qname origin salt alg iterations
                   = Some d
                   /\ In d names)).
Proof.
  intros Hown Hm [x Hx]. unfold NSEC3StatusNoAnswer.params_step2. cbn [fst snd].
  rewrite Hx. cbn [bind]. apply Hm in Hx. subst x.
  destruct (next_closer_loop_ok v qname origin salt alg iterations (dict_keys ce) s Hm)
    as (F1 & F2 & F3).
  destruct (NSECSet.get_digest_name_for_nsec3 v qname origin salt alg iterations)
    as [d0 |] eqn:Ed; cbn [digest_in].
  - destruct (name_mem d0 names) eqn:Em.
    + apply name_mem_In in Em. destruct (Hown d0 Em) as [info Hinfo].
      rewrite !(rdtype_exists_in_bitmap_ok v d0 _ info Hinfo). cbn.
      eexists. split; [reflexivity |]. cbn. split; [exact Hm |]. split; [auto |].
      intros d. rewrite set_add_iff. split.
      * intros [-> | H]; auto.
      * intros [H | [H _]]; [auto |]. injection H as ->. auto.
    + eexists. split; [reflexivity |]. split; [exact F1 |]. split; [exact F2 |].
      intros d. rewrite F3. split; [auto |]. intros [H | [H Hin]]; [exact H |].
      injection H as ->. apply name_mem_In in Hin. congruence.
  - eexists. split; [reflexivity |]. split; [exact F1 |]. split; [exact F2 |].
    intros d. rewrite F3. split; [auto |]. intros [H | [H _]]; [exact H | discriminate].
Qed.

Lemma params_loop2_ok v qname origin rdtype ce l :
  (forall key names d, In (key, names) l -> In d names ->
                       exists info, NSECSet.rrsets_getitem v d = Ok info) ->
  forall s,
    memo_sound v origin (NSEC3StatusNoAnswer.q_map s) ->
    (forall key names, In (key, names) l ->
                       memo_has (NSEC3StatusNoAnswer.q_map s) qname (Some key)) ->
    exists s',
      for_each (NSEC3StatusNoAnswer.params_step2 v qname origin rdtype ce) l s = Ok s'
      /\ memo_sound v origin (NSEC3StatusNoAnswer.q_map s')
      /\ (forall d,
             In d (NSEC3StatusNoAnswer.q_nsec_for_qname s')
             <-> In d (NSEC3StatusNoAnswer.q_nsec_for_qname s)
                 \/ exists salt alg iterations names,
                     In ((salt, alg, iterations), names) l
                     /\ NSECSet.get_digest_name_for_nsec3 v qname origin salt alg
                          iterations = Some d
                     /\ In d names).
Proof.
  induction l as [| [[[salt alg] iterations] names] l IH]; intros Hown s Hm Hkeys;
    cbn [for_each].
  - exists s. repeat split; auto.
    intros [H | (salt & alg & iterations & names & [] & _)]. exact H.
  - destruct (params_step2_ok v qname origin rdtype ce s salt alg iterations names)
      as (s1 & E1 & Hm1 & Hmono1 & Hset1).
    { intros d H. exact (Hown _ _ d (or_introl eq_refl) H). }
    { exact Hm. }
    { apply (Hkeys _ names). left. reflexivity. }
    match goal with
    | |- context [bind ?r _] => replace r with (Ok s1) by (symmetry; exact E1)
    end.
    cbn [bind].
    destruct (IH (fun key names d H => Hown key names d (or_intror H)) s1 Hm1)
      as (s' & E' & Hm' & Hset').
    { intros key names' H. apply Hmono1. apply (Hkeys key names'). right. exact H. }
    exists s'. split; [exact E' |]. split; [exact Hm' |].
    intros d. rewrite Hset', Hset1. split.
    + intros [[H | H] | (s2 & a2 & i2 & n2 & Hin & H)].
      * auto.
      * right. exists salt, alg, iterations, names. cbn [In]. tauto.
      * right. exists s2, a2, i2, n2. cbn [In]. tauto.
    + intros [H | (s2 & a2 & i2 & n2 & [Hin | Hin] & H)].
      * auto.
      * injection Hin as <- <- <- <-. left. right. exact H.
      * right. exists s2, a2, i2, n2. tauto.
Qed.

(** X12: the digest memo [name_digest_map] of the NSEC3 classes is sound:
    whatever is stored under a name and a parameter tuple is the digest the
    view computes for them, so the cached read of NSEC3StatusNXDOMAIN (the
    [try] of lines 747-750) and the read [name_digest_map[qname][key]] of
    NSEC3StatusNoAnswer never differ from a fresh computation. *)
Theorem X12_nsec3_digest_memo_sound :
  (forall qname rdtype origin v,
      memo_sound v origin
        (NSEC3StatusNXDOMAIN.name_digest_map
           (NSEC3StatusNXDOMAIN.self
              (NSEC3StatusNXDOMAIN.__init__ qname rdtype origin v))))
  /\ (forall qname wildcard_name rdtype origin v s,
         NSEC3StatusWildcard.__init__ qname wildcard_name rdtype origin v = Ok s ->
         memo_sound v origin
           (NSEC3StatusNXDOMAIN.name_digest_map (NSEC3StatusNXDOMAIN.self s)))
  /\ (forall qname rdtype origin v s,
         NSEC3StatusNoAnswer.__init__ qname rdtype origin v = Ok s ->
         memo_sound v origin
           (NSEC3StatusNoAnswer.name_digest_map (NSEC3StatusNoAnswer.self s))).
Proof.
  split; [| split].
  - intros. unfold NSEC3StatusNXDOMAIN.__init__,
      NSEC3StatusNXDOMAIN._set_validation_status.
    cbn [NSEC3StatusNXDOMAIN.self]. apply nxdomain_init_memo, memo_sound_nil.
  - unfold NSEC3StatusWildcard.__init__, NSEC3StatusWildcard._set_validation_status,
      NSEC3StatusWildcard._set_closest_encloser.
    intros qname wildcard_name rdtype origin v s E.
    apply bind_Ok in E. destruct E as ([ce m0] & E0 & E).
    apply bind_Ok in E. destruct E as (p & _ & E). injection E as <-.
    cbn [NSEC3StatusNXDOMAIN.self]. apply nxdomain_init_memo.
    destruct (negb _) in E0.
    + apply bind_Ok in E0. destruct E0 as (parent & _ & E0). injection E0 as <- <-.
      intros n salt alg iterations d. unfold name_digest_getitem. cbn.
      destruct (name_eqb n wildcard_name); discriminate.
    + injection E0 as <- <-. apply memo_sound_nil.
  - unfold NSEC3StatusNoAnswer.__init__, NSEC3StatusNoAnswer._set_validation_status,
      NSEC3StatusNoAnswer.init_fields.
    intros qname rdtype origin v s E.
    apply bind_Ok in E. destruct E as (f & Ef & E).
    apply bind_Ok in E. destruct E as ([p o] & _ & E). injection E as <-.
    cbn [NSEC3StatusNoAnswer.self].
    apply bind_Ok in Ef. destruct Ef as (w & Ew & Ef).
    apply bind_Ok in Ef. destruct Ef as (q & Eq & Ef). injection Ef as <-.
    cbn [NSEC3StatusNoAnswer.name_digest_map].
    assert (Hw : memo_sound v origin (NSEC3StatusNoAnswer.w_map w)).
    { revert Ew.
      apply (for_each_invariant
               (fun w => memo_sound v origin (NSEC3StatusNoAnswer.w_map w)));
        [| apply memo_sound_nil].
      intros x [[[salt alg] iterations] names] y Hx.
      unfold NSEC3StatusNoAnswer.params_step1. cbn [fst snd].
      apply (for_each_invariant
               (fun w => memo_sound v origin (NSEC3StatusNoAnswer.w_map w)));
        [| cbn; apply memo_sound_setitem; exact Hx].
      intros x' e y' Hx' E'. unfold NSEC3StatusNoAnswer.wildcard_step in E'.
      apply bind_Ok in E'. destruct E' as (x'' & E1 & E'). injection E' as <-. cbn.
      assert (NSEC3StatusNoAnswer.w_map x'' = NSEC3StatusNoAnswer.w_map x') as ->.
      { destruct (NSECSet.get_digest_name_for_nsec3 v (_get_wildcard e) origin salt alg
                    iterations); [destruct (digest_in _ _) |]; inv_ok; reflexivity. }
      apply memo_sound_setitem. exact Hx'. }
    revert Eq.
    apply (for_each_invariant
             (fun q => memo_sound v origin (NSEC3StatusNoAnswer.q_map q)));
      [| exact Hw].
    intros x [[[salt alg] iterations] names] y Hx.
    unfold NSEC3StatusNoAnswer.params_step2. cbn [fst snd]. intros E.
    apply bind_Ok in E. destruct E as (dn & _ & E).
    pose proof (next_closer_loop_ok v qname origin salt alg iterations
                  (dict_keys (NSECSet.get_closest_encloser v qname origin)) x Hx)
      as (F1 & _).
    destruct dn as [d |]; [destruct (digest_in (Some d) names) |].
    + inv_ok. exact Hx.
    + injection E as <-. exact F1.
    + injection E as <-. exact F1.
Qed.

(** X12 at scenario 6 of the specification *)
Lemma X12_nsec3_digest_memo_sound_witness :
  exists s,
    NSEC3StatusNoAnswer.__init__ SampleViews.foo rdatatype_DS Samples.zone
      SampleViews.opt_out_view = Ok s
    /\ name_digest_getitem
         (NSEC3StatusNoAnswer.name_digest_map (NSEC3StatusNoAnswer.self s))
         SampleViews.foo (Some ([], 1, 10)) = Ok (Some (SampleViews.h "h-foo"))
    /\ memo_sound SampleViews.opt_out_view Samples.zone
         (NSEC3StatusNoAnswer.name_digest_map (NSEC3StatusNoAnswer.self s)).
Proof.
  destruct (NSEC3StatusNoAnswer.__init__ SampleViews.foo rdatatype_DS Samples.zone
              SampleViews.opt_out_view) as [s | e] eqn:E;
    [| vm_compute in E; discriminate E].
  exists s. split; [reflexivity |].
  split; [vm_compute in E; inversion E; reflexivity |].
  destruct X12_nsec3_digest_memo_sound as (_ & _ & H).
  exact (H SampleViews.foo rdatatype_DS Samples.zone SampleViews.opt_out_view s E).
Defined.

(** X13: over a view whose parameter groups list only owners it holds, the
    two loops of NSEC3StatusNoAnswer.__init__ (lines 1031-1070) run to the
    end: no lookup in [name_digest_map] and no call of
    [rdtype_exists_in_bitmap] raises.  [nsec_for_qname] is then exactly the
    set of NSEC3 owners that equal the digest of [qname] under their own
    parameter tuple, and [nsec_for_wildcard_name] the set of those that equal
    the digest of the wildcard of a closest encloser. *)
Theorem X13_nsec3_noanswer_init_returns (qname : name) (rdtype : Z) (origin : name)
    (v : NSECSet.t) :
  params_owned v ->
  exists f,
    NSEC3StatusNoAnswer.init_fields qname rdtype origin v = Ok f
    /\ (forall d, In d (NSEC3StatusNoAnswer.nsec_for_qname f)
                  <-> matched_by v origin qname d)
    /\ (forall d, In d (NSEC3StatusNoAnswer.nsec_for_wildcard_name f)
                  <-> exists encloser,
                      In encloser (dict_keys (NSECSet.get_closest_encloser v qname origin))
                      /\ matched_by v origin (_get_wildcard encloser) d).
Proof.
  intros Hown. unfold NSEC3StatusNoAnswer.init_fields.
  destruct (params_loop1_ok v qname origin rdtype
              (NSECSet.get_closest_encloser v qname origin) (NSECSet.nsec3_params v) Hown
              {| NSEC3StatusNoAnswer.w_map := [];
                 NSEC3StatusNoAnswer.w_nsec_for_wildcard_name := empty_set name;
                 NSEC3StatusNoAnswer.w_has_rdtype := false;
                 NSEC3StatusNoAnswer.w_has_cname := false |})
    as (w & Ew & Hmw & _ & Hkeys & Hsetw).
  { apply memo_sound_nil. }
  rewrite Ew. cbn [bind].
  destruct (params_loop2_ok v qname origin rdtype
              (NSECSet.get_closest_encloser v qname origin) (NSECSet.nsec3_params v) Hown
              {| NSEC3StatusNoAnswer.q_map := NSEC3StatusNoAnswer.w_map w;
                 NSEC3StatusNoAnswer.q_nsec_for_qname := empty_set name;
                 NSEC3StatusNoAnswer.q_has_rdtype := false;
                 NSEC3StatusNoAnswer.q_has_cname := false;
                 NSEC3StatusNoAnswer.q_has_ns := false;
                 NSEC3StatusNoAnswer.q_has_ds := false;
                 NSEC3StatusNoAnswer.q_has_soa := false;
                 NSEC3StatusNoAnswer.q_covering_qname := [] |})
    as (q & Eq & _ & Hsetq).
  { exact Hmw. }
  { exact Hkeys. }
  rewrite Eq. cbn [bind].
  eexists. split; [reflexivity |]. cbn. split.
  - intros d. rewrite Hsetq. cbn. unfold matched_by. tauto.
  - intros d. rewrite Hsetw. cbn. unfold matched_by. split.
    + intros [[] | (e & s & a & i & n & H)]. exists e. split; [tauto |].
      exists s, a, i, n. tauto.
    + intros (e & He & s & a & i & n & H). right. exists e, s, a, i, n. tauto.
Qed.

(** X13 on a view where an NSEC3 owner matches [*.example.] *)
Lemma X13_nsec3_noanswer_init_returns_witness :
  params_owned SampleViews.wildcard_nodata_view
  /\ exists f,
      NSEC3StatusNoAnswer.init_fields SampleViews.foo 1 Samples.zone
        SampleViews.wildcard_nodata_view = Ok f
      /\ (forall d, In d (NSEC3StatusNoAnswer.nsec_for_qname f)
                    <-> matched_by SampleViews.wildcard_nodata_view Samples.zone
                          SampleViews.foo d)
      /\ (forall d, In d (NSEC3StatusNoAnswer.nsec_for_wildcard_name f)
                    <-> exists encloser,
                        In encloser
                          (dict_keys
                             (NSECSet.get_closest_encloser SampleViews.wildcard_nodata_view
                                SampleViews.foo Samples.zone))
                        /\ matched_by SampleViews.wildcard_nodata_view Samples.zone
                             (_get_wildcard encloser) d).
Proof.
  assert (H : params_owned SampleViews.wildcard_nodata_view).
  { intros key names d [Hk | []] Hd. injection Hk as <- <-.
    destruct Hd as [<- | [<- | []]]; eexists; vm_compute; reflexivity. }
  split; [exact H |].
  exact (X13_nsec3_noanswer_init_returns SampleViews.foo 1 Samples.zone
           SampleViews.wildcard_nodata_view H).
Defined.

(* ------------------------------------------------------------------ *)
(** ** NSEC3StatusNoAnswer: where the evaluation stops *)

Lemma noanswer_evaluate_cases (f : NSEC3StatusNoAnswer.fields) (v : NSECSet.t) :
  NSEC3StatusNoAnswer.wildcard_name f = None ->
  covering_held v (NSEC3StatusNoAnswer.nsec_names_covering_qname f) ->
  match NSEC3StatusNoAnswer.evaluate f v with
  | Ok _ =>
      ~ wildcard_only f
      \/ (~ next_closer_reported f v
          /\ NSEC3StatusNoAnswer.wildcard_has_rdtype f = false)
  | Raise e =>
      wildcard_only f
      /\ ((e = NameError /\ next_closer_reported f v)
          \/ (e = AttributeError
              /\ ~ next_closer_reported f v
              /\ NSEC3StatusNoAnswer.wildcard_has_rdtype f = true))
  end.
Proof.
  intros Hw Hheld.
  unfold NSEC3StatusNoAnswer.evaluate, wildcard_only, next_closer_reported.
  rewrite Hw.
  destruct (NSECSet.get_algorithm_support v) as [va ia]. cbn [fst].
  destruct (NSEC3StatusNoAnswer.nsec_for_qname f) as [| n1 l1]; cbn [truthy].
  - destruct (NSEC3StatusNoAnswer.nsec_for_wildcard_name f) as [| n2 l2]; cbn [truthy].
    + destruct (_ && _).
      * rewrite (scan_opt_out_spec v _ Hheld). cbn [bind].
        destruct (negb _); left; intros [_ H]; congruence.
      * left. intros [_ H]. congruence.
    + destruct (NSEC3StatusNoAnswer.nsec_names_covering_qname f) as [| c lc];
        destruct va as [| a la];
        destruct (NSEC3StatusNoAnswer.wildcard_has_rdtype f); cbn;
        try (right; split; [intros [H1 H2]; congruence | reflexivity]);
        (split; [split; congruence |]);
        try (left; repeat split; congruence);
        right; (split; [reflexivity |]); (split; [| reflexivity]);
        intros [H1 H2]; congruence.
  - destruct (_ || _); left; intros [H _]; discriminate H.
Qed.

(** X14: how far the two defects of NSEC3StatusNoAnswer reach.  Once the
    loops of [__init__] have run over a view whose covering names are owners
    it holds, the construction raises [NameError] (line 1127) exactly when
    no NSEC3 matches the name, one matches a wildcard, no NSEC3 covers the
    next closer name and an algorithm is supported; it raises
    [AttributeError] (line 1132, [wildcard_name] is [None]) exactly when no
    NSEC3 matches the name, one matches a wildcard that has the type in its
    bitmap, and the first defect is not met; in every other case it returns
    an object. *)
Theorem X14_nsec3_noanswer_defect_extent (qname : name) (rdtype : Z) (origin : name)
    (v : NSECSet.t) (f : NSEC3StatusNoAnswer.fields) :
  NSEC3StatusNoAnswer.init_fields qname rdtype origin v = Ok f ->
  nsec3_covering_owned v ->
  (NSEC3StatusNoAnswer.__init__ qname rdtype origin v = Raise NameError
   <-> wildcard_only f /\ next_closer_reported f v)
  /\ (NSEC3StatusNoAnswer.__init__ qname rdtype origin v = Raise AttributeError
      <-> wildcard_only f /\ ~ next_closer_reported f v
          /\ NSEC3StatusNoAnswer.wildcard_has_rdtype f = true)
  /\ ((exists s, NSEC3StatusNoAnswer.__init__ qname rdtype origin v = Ok s)
      <-> ~ wildcard_only f
          \/ (~ next_closer_reported f v
              /\ NSEC3StatusNoAnswer.wildcard_has_rdtype f = false)).
Proof.
  intros Ef Hown.
  destruct (noanswer_init_from_view v qname rdtype origin f Ef) as (Hcq & _ & Hw).
  pose proof (noanswer_evaluate_cases f v Hw (covering_from_view_held v _ Hown Hcq))
    as Hcases.
  unfold NSEC3StatusNoAnswer.__init__. rewrite Ef. cbn [bind].
  unfold NSEC3StatusNoAnswer._set_validation_status.
  destruct (NSEC3StatusNoAnswer.evaluate f v) as [[p o] | e]; cbn [bind].
  - split; [| split].
    + split; [discriminate |]. intros [H1 H2].
      destruct Hcases as [H | [H _]]; contradiction.
    + split; [discriminate |]. intros (H1 & H2 & H3).
      destruct Hcases as [H | [_ H]]; [contradiction | congruence].
    + split; [intros _; exact Hcases | eauto].
  - destruct Hcases as [Hwo [[-> Hn] | (-> & Hn & Hr)]].
    + split; [| split].
      * tauto.
      * split; [discriminate |]. tauto.
      * split; [intros [s Hs]; discriminate Hs |].
        intros [H | [H _]]; contradiction.
    + split; [| split].
      * split; [discriminate |]. tauto.
      * tauto.
      * split; [intros [s Hs]; discriminate Hs |].
        intros [H | [_ H]]; [contradiction | congruence].
Qed.

(** X14 on a view where an NSEC3 owner matches [*.example.] and none covers
    the next closer name *)
Lemma X14_nsec3_noanswer_defect_extent_witness :
  exists f,
    NSEC3StatusNoAnswer.init_fields SampleViews.foo 1 Samples.zone
      SampleViews.wildcard_nodata_view = Ok f
    /\ nsec3_covering_owned SampleViews.wildcard_nodata_view
    /\ wildcard_only f
    /\ next_closer_reported f SampleViews.wildcard_nodata_view
    /\ NSEC3StatusNoAnswer.__init__ SampleViews.foo 1 Samples.zone
         SampleViews.wildcard_nodata_view = Raise NameError.
Proof.
  destruct (NSEC3StatusNoAnswer.init_fields SampleViews.foo 1 Samples.zone
              SampleViews.wildcard_nodata_view) as [f | e] eqn:E;
    [| vm_compute in E; discriminate E].
  assert (Hown : nsec3_covering_owned SampleViews.wildcard_nodata_view).
  { intros d salt alg iterations x Hx. destruct Hx. }
  assert (Hwo : wildcard_only f).
  { vm_compute in E. inversion E. split; [reflexivity | discriminate]. }
  assert (Hn : next_closer_reported f SampleViews.wildcard_nodata_view).
  { vm_compute in E. inversion E. split; [reflexivity | discriminate]. }
  exists f. repeat (split; [assumption || reflexivity |]).
  apply (X14_nsec3_noanswer_defect_extent SampleViews.foo 1 Samples.zone
           SampleViews.wildcard_nodata_view f E Hown).
  split; assumption.
Defined.

(* ------------------------------------------------------------------ *)
(** ** Serialization of constructed objects *)

Lemma has_key_In (k : string) (d : ordered_dict) :
  has_key k d = true <-> In k (dict_keys d).
Proof.
  unfold has_key. induction d as [| [k0 x0] d IH]; simpl.
  - split; [discriminate | contradiction].
  - destruct (String.eqb_spec k k0) as [-> | Hne].
    + split; auto.
    + rewrite IH. split; [auto | intros [H | H]; [congruence | exact H]].
Qed.

(** X15: CNAMEFromDNAMEStatus.serialize returns for every object the
    constructor builds, at every log level and with or without an RRset
    serializer, and writes its keys in the order description, dname, meta,
    status, servers, warnings, errors, each under its own test.  [status] is
    never present without [description]; [description] is present without
    [status] exactly for a VALID synthesis that carries a warning, at a level
    above INFO and up to WARNING. *)
Theorem X15_dname_serialize_keys :
  forall (synthesized_cname : SynthesizedCNAME.t) (included_cname : option CNAMEInfo.t)
         (rrset_info_serializer : option CNAMEFromDNAMEStatus_serialize.serializer_t)
         (consolidate_clients : bool) (loglevel : Z),
    let s := CNAMEFromDNAMEStatus.__init__ synthesized_cname included_cname in
    let show_basic := CNAMEFromDNAMEStatus_serialize.show_basic s loglevel in
    let dname_shown :=
      match rrset_info_serializer with
      | Some f =>
          value_truthy (f (SynthesizedCNAME.dname_info synthesized_cname)
                          consolidate_clients loglevel)
      | None => loglevel <=? logging_DEBUG
      end in
    exists d,
      CNAMEFromDNAMEStatus_serialize.serialize s rrset_info_serializer
        consolidate_clients loglevel = Ok d
      /\ dict_keys d
         = serialized_keys
             ((loglevel <=? logging_INFO) || show_basic)
             ((if dname_shown then ["dname"] else [])
              ++ (if loglevel <=? logging_DEBUG then ["meta"] else []))
             ((loglevel <=? logging_INFO)
              || negb (CNAMEFromDNAMEStatus.validation_status s =? STATUS_VALID))
             ((loglevel <=? logging_DEBUG) || show_basic)
             (truthy (CNAMEFromDNAMEStatus.warnings s) && (loglevel <=? logging_WARNING))
             (truthy (CNAMEFromDNAMEStatus.errors s) && (loglevel <=? logging_ERROR))
      /\ (has_key "status" d = true -> has_key "description" d = true)
      /\ (has_key "description" d = true /\ has_key "status" d = false
          <-> logging_INFO < loglevel <= logging_WARNING
              /\ CNAMEFromDNAMEStatus.validation_status s = DNAME_STATUS_VALID
              /\ CNAMEFromDNAMEStatus.warnings s <> []).
Proof.
  intros syn inc ser cc loglevel.
  unfold CNAMEFromDNAMEStatus_serialize.serialize,
    CNAMEFromDNAMEStatus_serialize.show_basic, show_findings, serialize_findings,
    CNAMEFromDNAMEStatus.__init__, CNAMEFromDNAMEStatus.evaluate.
  cbv zeta.
  cbv [logging_INFO logging_DEBUG logging_WARNING logging_ERROR].
  destruct inc as [inc |];
    [destruct (negb (name_eqb (CNAMEInfo.target inc)
                       (CNAMEInfo.target (SynthesizedCNAME.cname syn))));
     destruct (negb (CNAMEInfo.rrset_ttl inc
                     =? CNAMEInfo.rrset_ttl (SynthesizedCNAME.cname syn)));
     [destruct (CNAMEInfo.rrset_ttl inc =? 0) | | destruct (CNAMEInfo.rrset_ttl inc =? 0) |]
    |];
    cbn [CNAMEFromDNAMEStatus.synthesized_cname];
    (destruct ser as [f |];
     [destruct (value_truthy (f (SynthesizedCNAME.dname_info syn) cc loglevel)) |]);
    destruct (Z.leb_spec loglevel 10); destruct (Z.leb_spec loglevel 20);
    destruct (Z.leb_spec loglevel 30); destruct (Z.leb_spec loglevel 40);
    try lia;
    cbn; (eexists; split; [reflexivity |]); cbn;
    (split; [reflexivity |]); (split; [intros; reflexivity || assumption |]);
    unfold DNAME_STATUS_VALID, STATUS_VALID;
    (split; [intros [Ha Hb]; try discriminate Ha; try discriminate Hb;
             repeat split; try lia; try reflexivity; discriminate
            | intros (Ha & Hb & Hc); try lia; try discriminate Hb; try congruence;
              split; reflexivity]).
Qed.

Lemma set_if_valid_known (mapping : list (Z * string)) (s : Z) (p : progress) :
  status_known mapping s -> status_known mapping (p_status p) ->
  status_known mapping (p_status (set_if_valid s p)).
Proof.
  intros Hs Hp. rewrite set_if_valid_status. destruct (_ =? _); assumption.
Qed.

Ltac known :=
  repeat first
    [ assumption
    | rewrite p_status_err
    | rewrite p_status_warn
    | apply set_if_valid_known; [vm_compute; eauto |] ].

Lemma rrsig_checks_known c rrset rrsig dnskey zone_name reference_ts algorithm_unknown s :
  RRSIGStatus.__init__ c rrset rrsig dnskey zone_name reference_ts algorithm_unknown
  = Ok s ->
  status_known rrsig_status_mapping (RRSIGStatus.validation_status s).
Proof.
  unfold RRSIGStatus.__init__. intros E.
  apply bind_Ok in E. destruct E as (info & _ & E).
  apply bind_Ok in E. destruct E as (pw & Ew & E).
  apply rrsig_check_window_Ok in Ew. destruct Ew as [-> _].
  apply bind_Ok in E. destruct E as (p & Ep & E). injection E as <-.
  cbn [RRSIGStatus.validation_status].
  revert Ep.
  match goal with
  | |- RRSIGStatus.check_signature _ _ _ _ ?q = _ -> _ =>
      assert (Hq : status_known rrsig_status_mapping (p_status q)); [| revert Hq; generalize q]
  end.
  - unfold RRSIGStatus.window_progress, RRSIGStatus.check_revoke, RRSIGStatus.check_signer,
      RRSIGStatus.check_ttl, RRSIGStatus.check_keying.
    split_checks; known; vm_compute; eauto.
  - intros q Hq. unfold RRSIGStatus.check_signature.
    destruct (_ && _); [| intros E; injection E as <-; exact Hq].
    destruct dnskey as [k |]; [| discriminate].
    destruct (_ =? _); intros E; injection E as <-; known.
Qed.

Lemma ds_checks_known c ds ds_meta dnskey digest_algorithm_unknown s :
  DSStatus.__init__ c ds ds_meta dnskey digest_algorithm_unknown = Ok s ->
  status_known ds_status_mapping (DSStatus.validation_status s).
Proof.
  unfold DSStatus.__init__. intros E.
  apply bind_Ok in E. destruct E as (p & Ep & E). injection E as <-.
  cbn [DSStatus.validation_status].
  revert Ep.
  match goal with
  | |- DSStatus.check_digest _ _ _ _ ?q = _ -> _ =>
      assert (Hq : status_known ds_status_mapping (p_status q)); [| revert Hq; generalize q]
  end.
  - unfold DSStatus.check_revoke, DSStatus.check_keying.
    split_checks; known; vm_compute; eauto.
  - intros q Hq. unfold DSStatus.check_digest.
    destruct (_ && _); [| intros E; injection E as <-; exact Hq].
    destruct dnskey as [k |]; [| discriminate].
    destruct (_ =? _); intros E; injection E as <-; known.
Qed.

Lemma status_getitem_known (mapping : list (Z * string)) (status : Z) :
  status_known mapping status ->
  exists text, status_getitem mapping status = Ok (VStr text).
Proof.
  intros [text H]. exists text. unfold status_getitem. rewrite H. reflexivity.
Qed.

(** X16: RRSIGStatus.serialize returns for every object the constructor
    builds, at every log level: the status has a name in
    [rrsig_status_mapping], the RRSIG is a key of [rrsig_info], and
    [d['meta']] exists whenever an entry is written into it.  The keys come in
    the order description, rdata, meta, status, servers, warnings, errors,
    with [description] and [status] under the same test; at level DEBUG
    [meta] holds ttl, age, remaining_lifetime, then dnskey when a key was
    given, then dnskey_key_tag_pre_revoke when its key tag differs from the
    RRSIG's. *)
Theorem X16_rrsig_serialize_returns :
  forall (c : crypto.t) (rrset : RRsetInfo.t) (rrsig : RRSIG.t)
         (dnskey : option DNSKEY.t) (zone_name : option name) (reference_ts : Z)
         (algorithm_unknown : bool) (s : RRSIGStatus.t)
         (consolidate_clients : bool) (loglevel : Z),
    RRSIGStatus.__init__ c rrset rrsig dnskey zone_name reference_ts
      algorithm_unknown = Ok s ->
    let show_basic := RRSIGStatus_serialize.show_basic s loglevel in
    exists d,
      RRSIGStatus_serialize.serialize s consolidate_clients loglevel = Ok d
      /\ dict_keys d
         = serialized_keys
             ((loglevel <=? logging_INFO) || show_basic)
             (if loglevel <=? logging_DEBUG then ["rdata"; "meta"] else [])
             ((loglevel <=? logging_INFO) || show_basic)
             ((loglevel <=? logging_DEBUG) || show_basic)
             (truthy (RRSIGStatus.warnings s) && (loglevel <=? logging_WARNING))
             (truthy (RRSIGStatus.errors s) && (loglevel <=? logging_ERROR))
      /\ meta_keys d
         = if loglevel <=? logging_DEBUG
           then Some (["ttl"; "age"; "remaining_lifetime"]
                      ++ match dnskey with
                         | None => []
                         | Some k =>
                             "dnskey"
                             :: (if RRSIG.key_tag rrsig =? DNSKEY.key_tag k
                                 then []
                                 else ["dnskey_key_tag_pre_revoke"])
                         end)
           else None.
Proof.
  intros c rrset rrsig dnskey zone_name ts au s cc loglevel E.
  destruct (status_getitem_known _ _
              (rrsig_checks_known c rrset rrsig dnskey zone_name ts au s E))
    as [text Htext].
  revert Htext.
  unfold RRSIGStatus.__init__ in E.
  apply bind_Ok in E. destruct E as (info & Einfo & E).
  apply bind_Ok in E. destruct E as (pw & _ & E).
  apply bind_Ok in E. destruct E as (p & _ & E). injection E as <-.
  unfold RRSIGStatus_serialize.serialize, RRSIGStatus_serialize.show_basic,
    show_findings, serialize_findings, RRSIGStatus_serialize.rdata_and_meta.
  cbn [RRSIGStatus.validation_status RRSIGStatus.warnings RRSIGStatus.errors
       RRSIGStatus.rrset RRSIGStatus.rrsig RRSIGStatus.dnskey].
  rewrite Einfo. intros Htext. rewrite Htext.
  cbv [logging_INFO logging_DEBUG logging_WARNING logging_ERROR].
  destruct (status_in (p_status p) _);
    destruct (p_warnings p) as [| w ws]; destruct (p_errors p) as [| e es];
    (destruct dnskey as [k |];
     [destruct (RRSIG.key_tag rrsig =? DNSKEY.key_tag k) |]);
    destruct (Z.leb_spec loglevel 10); destruct (Z.leb_spec loglevel 20);
    destruct (Z.leb_spec loglevel 30); destruct (Z.leb_spec loglevel 40);
    try lia;
    cbn; (eexists; split; [reflexivity |]); split; reflexivity.
Qed.

(** X16 at scenario 1 of the specification, serialized at level DEBUG *)
Lemma X16_rrsig_serialize_returns_witness :
  exists s d,
    RRSIGStatus.__init__ Samples.crypto_ok (Samples.rrset 3600)
      (Samples.rrsig Samples.zone (Samples.t0 - 60) (Samples.t0 + 86400))
      (Some (Samples.dnskey 256 12345)) (Some Samples.zone) Samples.t0 false = Ok s
    /\ RRSIGStatus_serialize.serialize s true logging_DEBUG = Ok d
    /\ dict_keys d = ["description"; "rdata"; "meta"; "status"; "servers"].
Proof.
  destruct (RRSIGStatus.__init__ Samples.crypto_ok (Samples.rrset 3600)
              (Samples.rrsig Samples.zone (Samples.t0 - 60) (Samples.t0 + 86400))
              (Some (Samples.dnskey 256 12345)) (Some Samples.zone) Samples.t0 false)
    as [s | e] eqn:E; [| vm_compute in E; discriminate E].
  destruct (X16_rrsig_serialize_returns _ _ _ _ _ _ _ s true logging_DEBUG E)
    as (d & Ed & Hkeys & _).
  exists s, d. split; [reflexivity |]. split; [exact Ed |].
  rewrite Hkeys. vm_compute in E. inversion E. reflexivity.
Defined.

Lemma ds_init_returns c ds ds_meta dnskey digest_algorithm_unknown :
  exists s, DSStatus.__init__ c ds ds_meta dnskey digest_algorithm_unknown = Ok s.
Proof.
  unfold DSStatus.__init__, DSStatus.check_digest.
  destruct dnskey as [k |].
  - destruct (_ && _); [destruct (_ =? _) |]; cbn [bind]; eauto.
  - cbn [DSStatus.compute_digest_valid eq_False]. rewrite andb_false_r.
    cbn [bind]. eauto.
Qed.

(** X17: DSStatus.serialize returns for every object the constructor builds,
    at every log level, with or without a DNSKEY.  The keys come in the
    order description, rdata, meta, status, servers, warnings, errors, with
    [description] and [status] under the same test; at level DEBUG [meta]
    holds ttl and dnskey (the value [None] without a key), then
    dnskey_key_tag_pre_revoke when the key tag of the DNSKEY differs from the
    DS's. *)
Theorem X17_ds_serialize_returns :
  forall (c : crypto.t) (ds : DS.t) (ds_meta : DSMeta.t) (dnskey : option DNSKEY.t)
         (digest_algorithm_unknown : bool) (consolidate_clients : bool) (loglevel : Z),
    exists s d,
      DSStatus.__init__ c ds ds_meta dnskey digest_algorithm_unknown = Ok s
      /\ DSStatus_serialize.serialize s consolidate_clients loglevel = Ok d
      /\ (let show_basic := DSStatus_serialize.show_basic s loglevel in
          dict_keys d
          = serialized_keys
              ((loglevel <=? logging_INFO) || show_basic)
              (if loglevel <=? logging_DEBUG then ["rdata"; "meta"] else [])
              ((loglevel <=? logging_INFO) || show_basic)
              ((loglevel <=? logging_DEBUG) || show_basic)
              (truthy (DSStatus.warnings s) && (loglevel <=? logging_WARNING))
              (truthy (DSStatus.errors s) && (loglevel <=? logging_ERROR)))
      /\ meta_keys d
         = if loglevel <=? logging_DEBUG
           then Some (["ttl"; "dnskey"]
                      ++ match dnskey with
                         | None => []
                         | Some k =>
                             if DS.key_tag ds =? DNSKEY.key_tag k
                             then []
                             else ["dnskey_key_tag_pre_revoke"]
                         end)
           else None.
Proof.
  intros c ds ds_meta dnskey dau cc loglevel.
  destruct (ds_init_returns c ds ds_meta dnskey dau) as (s & E).
  exists s.
  destruct (status_getitem_known _ _ (ds_checks_known c ds ds_meta dnskey dau s E))
    as [text Htext].
  revert Htext.
  pose proof E as E'.
  unfold DSStatus.__init__ in E'.
  apply bind_Ok in E'. destruct E' as (p & _ & E'). injection E' as <-.
  unfold DSStatus_serialize.serialize, DSStatus_serialize.show_basic,
    show_findings, serialize_findings, DSStatus_serialize.rdata.
  cbn [DSStatus.validation_status DSStatus.warnings DSStatus.errors
       DSStatus.ds DSStatus.ds_meta DSStatus.dnskey].
  intros Htext. rewrite Htext.
  cbv [logging_INFO logging_DEBUG logging_WARNING logging_ERROR].
  destruct (status_in (p_status p) _);
    destruct (p_warnings p) as [| w ws]; destruct (p_errors p) as [| e es];
    (destruct dnskey as [k |];
     [destruct (DS.key_tag ds =? DNSKEY.key_tag k) |]);
    destruct (Z.leb_spec loglevel 10); destruct (Z.leb_spec loglevel 20);
    destruct (Z.leb_spec loglevel 30); destruct (Z.leb_spec loglevel 40);
    try lia;
    cbn; (eexists; split; [exact E |]); (split; [reflexivity |]); split; reflexivity.
Qed.

(* ------------------------------------------------------------------ *)
(** ** NSEC: serialization reads the retained view *)

Lemma getitem_project (v : NSECSet.t) (names : list name) (n : name) :
  NSECSet.rrsets_getitem (NSECSet.project v names) n
  = if name_mem n names then NSECSet.rrsets_getitem v n else Raise KeyError.
Proof.
  unfold NSECSet.rrsets_getitem, NSECSet.project. cbn [NSECSet.rrsets].
  induction (NSECSet.rrsets v) as [| [k r] l IH]; cbn [filter dict_get fst].
  - destruct (name_mem n names); reflexivity.
  - destruct (name_eqb n k) eqn:E.
    + apply name_eqb_eq in E. subst k.
      destruct (name_mem n names); cbn [dict_get]; [rewrite name_eqb_refl; reflexivity |].
      rewrite IH. reflexivity.
    + destruct (name_mem k names); cbn [dict_get]; [rewrite E |]; exact IH.
Qed.

Lemma getitem_owner (v : NSECSet.t) (n : name) info :
  NSECSet.rrsets_getitem v n = Ok info -> In n (NSECSet.owners v).
Proof.
  unfold NSECSet.rrsets_getitem, NSECSet.owners, dict_keys.
  induction (NSECSet.rrsets v) as [| [k r] l IH]; cbn [dict_get map fst];
    [discriminate |].
  destruct (name_eqb n k) eqn:E.
  - apply name_eqb_eq in E. subst k. left. reflexivity.
  - intros H. right. apply IH. exact H.
Qed.

Lemma getitem_retain (v : NSECSet.t) (status : Z) (cited : list name_set) (n : name) info :
  NSECSet.rrsets_getitem v n = Ok info ->
  In n (update_all cited) ->
  NSECSet.rrsets_getitem (NSECStatusNXDOMAIN.retain status cited v) n = Ok info.
Proof.
  intros Hn Hc. unfold NSECStatusNXDOMAIN.retain.
  destruct (status =? NSEC_STATUS_VALID); rewrite getitem_project.
  - apply name_mem_In in Hc. rewrite Hc. exact Hn.
  - pose proof (getitem_owner v n info Hn) as Hm. apply name_mem_In in Hm.
    rewrite Hm. exact Hn.
Qed.

Lemma In_update_all_values (cited : list name_set) (s : name_set) (n : name) :
  In s cited -> In n s -> In n (update_all cited).
Proof.
  intros Hs Hn. unfold update_all, set_update. apply In_fold_union. eauto.
Qed.

Lemma chain_retained (label : string) (v : NSECSet.t) (status : Z)
    (cited : list name_set) (covering : list (name * name_set)) :
  covering_owned v ->
  covering_from_nsec v covering ->
  incl (dict_values covering) cited ->
  exists c,
    NSECStatusNXDOMAIN_serialize.chain label covering
      (NSECStatusNXDOMAIN.retain status cited v) = Ok c
    /\ (c <> None <-> covering <> []).
Proof.
  intros Hown Hcov Hincl. destruct covering as [| [k names] rest]; cbn.
  - exists None. split; [reflexivity | tauto].
  - inversion Hcov as [| x l [Hne Heq] _]. subst. cbn [fst snd] in *.
    destruct names as [| n names]; [congruence |].
    destruct (Hown k n) as [info Hinfo]; [rewrite <- Heq; left; reflexivity |].
    rewrite (getitem_retain v status cited n info Hinfo).
    + cbn. eexists. split; [reflexivity |]. split; discriminate.
    + apply (In_update_all_values cited (n :: names)); [| left; reflexivity].
      apply Hincl. left. reflexivity.
Qed.

Lemma wildcard_scan_found (v : NSECSet.t) (origin qname w : name) (names : name_set) :
  NSECStatusNXDOMAIN.wildcard_scan v origin qname = Ok (Some (w, names)) ->
  names <> [] /\ names = NSECSet.nsec_covering_name v w.
Proof.
  induction qname as [| x p IH]; cbn [NSECStatusNXDOMAIN.wildcard_scan].
  - destruct (name_eqb [] origin); discriminate.
  - destruct (name_eqb (x :: p) origin); [discriminate |].
    destruct (name_eqb (x :: p) dns_name.root); [discriminate |].
    destruct (truthy _) eqn:Et; [| exact IH].
    intros E. injection E as <- <-. split; [| reflexivity].
    apply truthy_true_not_nil. exact Et.
Qed.

Lemma record_covering_from_nsec (v : NSECSet.t) (n : name) :
  covering_from_nsec v (record_covering n (NSECSet.nsec_covering_name v n) []).
Proof.
  unfold record_covering. destruct (truthy _) eqn:Et; [| constructor].
  cbn. constructor; [| constructor]. cbn.
  split; [apply truthy_true_not_nil; exact Et | reflexivity].
Qed.

Lemma nsec_init_from_nsec (v : NSECSet.t) (qname origin : name) f :
  NSECStatusNXDOMAIN.init_fields qname origin v = Ok f ->
  covering_from_nsec v (NSECStatusNXDOMAIN.nsec_names_covering_qname f)
  /\ covering_from_nsec v (NSECStatusNXDOMAIN.nsec_names_covering_wildcard f)
  /\ covering_from_nsec v (NSECStatusNXDOMAIN.nsec_names_covering_origin f).
Proof.
  unfold NSECStatusNXDOMAIN.init_fields. intros E.
  apply bind_Ok in E. destruct E as (found & Ef & E).
  destruct found as [[w names] |]; injection E as <-; cbn.
  - split; [apply record_covering_from_nsec |].
    split; [| apply record_covering_from_nsec].
    destruct (wildcard_scan_found v origin qname w names Ef) as [Hne Heq].
    constructor; [| constructor]. cbn. auto.
  - split; [apply record_covering_from_nsec |].
    split; [constructor | apply record_covering_from_nsec].
Qed.

Lemma nsec_nxdomain_known (f : NSECStatusNXDOMAIN.fields) (v : NSECSet.t) s :
  NSECStatusNXDOMAIN._set_validation_status f v = Ok s ->
  status_known nsec_status_mapping (NSECStatusNXDOMAIN.validation_status s).
Proof.
  unfold NSECStatusNXDOMAIN._set_validation_status. intros E.
  apply bind_Ok in E. destruct E as (p & Ep & E). injection E as <-.
  cbn [NSECStatusNXDOMAIN.validation_status].
  revert Ep; split_checks; intros Ep; inv_ok;
    rewrite ?p_status_err, ?p_status_set_status; vm_compute; eauto.
Qed.

Lemma nsec_wildcard_known (f : NSECStatusNXDOMAIN.fields) (v : NSECSet.t) s :
  NSECStatusWildcard._set_validation_status2 f v = Ok s ->
  status_known nsec_status_mapping (NSECStatusNXDOMAIN.validation_status s).
Proof.
  unfold NSECStatusWildcard._set_validation_status2. intros E.
  apply bind_Ok in E. destruct E as (p & Ep & E). injection E as <-.
  cbn [NSECStatusNXDOMAIN.validation_status].
  revert Ep; split_checks; intros Ep; inv_ok;
    rewrite ?p_status_err, ?p_status_set_status; vm_compute; eauto.
Qed.

Lemma nsec_meta_returns (s : NSECStatusNXDOMAIN.t) (v : NSECSet.t) (status : Z)
    (cited : list name_set) :
  let f := NSECStatusNXDOMAIN.self s in
  NSECStatusNXDOMAIN.nsec_set_info s = NSECStatusNXDOMAIN.retain status cited v ->
  covering_owned v ->
  covering_from_nsec v (NSECStatusNXDOMAIN.nsec_names_covering_qname f) ->
  covering_from_nsec v (NSECStatusNXDOMAIN.nsec_names_covering_wildcard f) ->
  incl (dict_values (NSECStatusNXDOMAIN.nsec_names_covering_qname f)) cited ->
  incl (dict_values (NSECStatusNXDOMAIN.nsec_names_covering_wildcard f)) cited ->
  exists m,
    NSECStatusNXDOMAIN_serialize.meta s = Ok m
    /\ dict_keys m
       = ["qname"]
         ++ (if truthy (NSECStatusNXDOMAIN.nsec_names_covering_qname f)
             then ["nsec_chain_covering_qname"] else [])
         ++ ["wildcard"]
         ++ (if truthy (NSECStatusNXDOMAIN.nsec_names_covering_wildcard f)
             then ["nsec_chain_covering_wildcard"] else []).
Proof.
  intros f Hret Hown Hq Hw Iq Iw. unfold NSECStatusNXDOMAIN_serialize.meta.
  fold f. rewrite Hret.
  destruct (chain_retained "qname" v status cited _ Hown Hq Iq) as (c1 & E1 & H1).
  destruct (chain_retained "wildcard" v status cited _ Hown Hw Iw) as (c2 & E2 & H2).
  rewrite E1. cbn [bind]. rewrite E2. cbn [bind].
  eexists. split; [reflexivity |].
  destruct c1 as [x1 |], c2 as [x2 |];
    destruct (NSECStatusNXDOMAIN.nsec_names_covering_qname f) as [| a1 l1];
    destruct (NSECStatusNXDOMAIN.nsec_names_covering_wildcard f) as [| a2 l2];
    try (exfalso; apply H1; [discriminate | fail]);
    try (exfalso; apply H2; [discriminate | fail]);
    try (exfalso; apply H1; discriminate); try (exfalso; apply H2; discriminate);
    try (exfalso; assert (C : @None value <> None) by (apply H1; discriminate);
         apply C; reflexivity);
    try (exfalso; assert (C : @None value <> None) by (apply H2; discriminate);
         apply C; reflexivity);
    reflexivity.
Qed.

Lemma dict_keys_filter (k : string) (m : ordered_dict) :
  dict_keys (filter (fun kv : string * value => negb (String.eqb (fst kv) k)) m)
  = filter (fun x => negb (String.eqb x k)) (dict_keys m).
Proof.
  unfold dict_keys. induction m as [| [k0 x0] m IH]; cbn; [reflexivity |].
  destruct (String.eqb k0 k); cbn; rewrite IH; reflexivity.
Qed.

Lemma nsec_serialize_from_meta (s : NSECStatusNXDOMAIN.t)
    (ser : option NSECStatusNXDOMAIN_serialize.serializer_t) (cc : bool) (loglevel : Z)
    (m : ordered_dict) :
  NSECStatusNXDOMAIN_serialize.meta s = Ok m ->
  status_known nsec_status_mapping (NSECStatusNXDOMAIN.validation_status s) ->
  let show_basic := NSECStatusNXDOMAIN_serialize.show_basic s loglevel in
  let nsec := NSECStatusNXDOMAIN_serialize.nsec_list (NSECStatusNXDOMAIN.nsec_set_info s)
                ser cc loglevel in
  exists d,
    NSECStatusNXDOMAIN_serialize.serialize s ser cc loglevel = Ok d
    /\ dict_keys d
       = serialized_keys
           ((loglevel <=? logging_INFO) || show_basic)
           ((if truthy nsec then ["nsec"] else [])
            ++ (if loglevel <=? logging_DEBUG then ["meta"] else []))
           ((loglevel <=? logging_INFO) || show_basic)
           ((loglevel <=? logging_DEBUG) || show_basic)
           (truthy (NSECStatusNXDOMAIN.warnings s) && (loglevel <=? logging_WARNING))
           (truthy (NSECStatusNXDOMAIN.errors s) && (loglevel <=? logging_ERROR))
    /\ dict_get String.eqb "meta" d
       = if loglevel <=? logging_DEBUG then Some (VDict m) else None.
Proof.
  intros Hm Hk. destruct (status_getitem_known _ _ Hk) as [text Htext].
  unfold NSECStatusNXDOMAIN_serialize.serialize,
    NSECStatusNXDOMAIN_serialize.show_basic, show_findings, serialize_findings.
  cbv zeta. rewrite Hm, Htext.
  cbv [logging_INFO logging_DEBUG logging_WARNING logging_ERROR].
  destruct (NSECStatusNXDOMAIN_serialize.nsec_list _ ser cc loglevel) as [| x xs];
    destruct (NSECStatusNXDOMAIN.validation_status s =? STATUS_VALID);
    destruct (NSECStatusNXDOMAIN.warnings s) as [| w ws];
    destruct (NSECStatusNXDOMAIN.errors s) as [| e es];
    destruct (Z.leb_spec loglevel 10); destruct (Z.leb_spec loglevel 20);
    destruct (Z.leb_spec loglevel 30); destruct (Z.leb_spec loglevel 40);
    try lia;
    cbn; (eexists; split; [reflexivity |]); split; reflexivity.
Qed.

Lemma dict_keys_setitem_present (k : string) (x : value) (d : ordered_dict) :
  has_key k d = true -> dict_keys (setitem k x d) = dict_keys d.
Proof.
  unfold has_key, setitem, dict_keys.
  induction d as [| [k0 x0] d IH]; cbn; [discriminate |].
  destruct (String.eqb_spec k k0) as [-> | Hne]; cbn; [reflexivity |].
  intros H. rewrite IH by exact H. reflexivity.
Qed.

Lemma dict_get_setitem_same (k : string) (x : value) (d : ordered_dict) :
  dict_get String.eqb k (setitem k x d) = Some x.
Proof.
  unfold setitem. rewrite (dict_get_set String.eqb k k x d String.eqb_eq).
  rewrite String.eqb_refl. reflexivity.
Qed.

(** X18: over a view whose covering names are owners it holds, the
    [serialize] of NSECStatusNXDOMAIN and of NSECStatusWildcard returns for
    every object the constructor builds, at every log level: each lookup
    [self.nsec_set_info.rrsets[nsec_name]] of a covering name succeeds in the
    retained view, whether the view was projected on the cited names (VALID)
    or kept whole.  At level DEBUG [meta] holds qname, the chain covering
    qname when there is one, wildcard, and the chain covering the wildcard
    when there is one; NSECStatusWildcard drops [wildcard] and never has a
    chain for it. *)
Theorem X18_nsec_serialize_reads_retained_view :
  forall (qname wildcard_name : name) (rdtype : Z) (origin : name) (v : NSECSet.t)
         (rrset_info_serializer : option NSECStatusNXDOMAIN_serialize.serializer_t)
         (consolidate_clients : bool) (loglevel : Z),
    covering_owned v ->
    (forall s,
        NSECStatusNXDOMAIN.__init__ qname rdtype origin v = Ok s ->
        let f := NSECStatusNXDOMAIN.self s in
        exists d,
          NSECStatusNXDOMAIN_serialize.serialize s rrset_info_serializer
            consolidate_clients loglevel = Ok d
          /\ meta_keys d
             = if loglevel <=? logging_DEBUG
               then Some (["qname"]
                          ++ (if truthy (NSECStatusNXDOMAIN.nsec_names_covering_qname f)
                              then ["nsec_chain_covering_qname"] else [])
                          ++ ["wildcard"]
                          ++ (if truthy (NSECStatusNXDOMAIN.nsec_names_covering_wildcard f)
                              then ["nsec_chain_covering_wildcard"] else []))
               else None)
    /\ (forall s,
           NSECStatusWildcard.__init__ qname wildcard_name rdtype origin v = Ok s ->
           let f := NSECStatusNXDOMAIN.self s in
           exists d,
             NSECStatusWildcard_serialize.serialize s rrset_info_serializer
               consolidate_clients loglevel = Ok d
             /\ meta_keys d
                = if loglevel <=? logging_DEBUG
                  then Some (["qname"]
                             ++ (if truthy (NSECStatusNXDOMAIN.nsec_names_covering_qname f)
                                 then ["nsec_chain_covering_qname"] else []))
                  else None).
Proof.
  intros qname wildcard_name rdtype origin v ser cc loglevel Hown. split.
  - intros s E f. unfold NSECStatusNXDOMAIN.__init__ in E.
    apply bind_Ok in E. destruct E as (w0 & _ & E).
    apply bind_Ok in E. destruct E as (f0 & Ef & E).
    pose proof (nsec_nxdomain_known f0 v s E) as Hk.
    destruct (nsec_init_from_nsec v qname origin f0 Ef) as (Hq & Hw & _).
    unfold NSECStatusNXDOMAIN._set_validation_status in E.
    apply bind_Ok in E. destruct E as (p & _ & E).
    assert (Hs : NSECStatusNXDOMAIN.self s = f0) by (injection E as <-; reflexivity).
    assert (Hret : NSECStatusNXDOMAIN.nsec_set_info s
                   = NSECStatusNXDOMAIN.retain (p_status p)
                       (dict_values (NSECStatusNXDOMAIN.nsec_names_covering_qname f0)
                        ++ dict_values (NSECStatusNXDOMAIN.nsec_names_covering_wildcard f0))
                       v)
      by (injection E as <-; reflexivity).
    clear E. subst f. 
    destruct (nsec_meta_returns s v _ _ Hret Hown) as (m & Em & Hkeys);
      rewrite ?Hs; try assumption;
      [intros x Hx; apply in_or_app; left; exact Hx
      | intros x Hx; apply in_or_app; right; exact Hx |].
    destruct (nsec_serialize_from_meta s ser cc loglevel m Em Hk) as (d & Ed & _ & Hmeta).
    exists d. split; [exact Ed |]. unfold meta_keys. rewrite Hmeta.
    destruct (loglevel <=? logging_DEBUG); [| reflexivity].
    rewrite Hkeys, Hs. reflexivity.
  - intros s E f. unfold NSECStatusWildcard.__init__ in E.
    apply bind_Ok in E. destruct E as (w0 & _ & E).
    apply bind_Ok in E. destruct E as (f0 & Ef & E).
    pose proof (nsec_wildcard_known _ v s E) as Hk.
    destruct (nsec_init_from_nsec v qname origin f0 Ef) as (Hq & _ & _).
    unfold NSECStatusWildcard._set_validation_status2 in E.
    apply bind_Ok in E. destruct E as (p & _ & E).
    cbn [NSECStatusNXDOMAIN.nsec_names_covering_qname] in E.
    assert (Hcq : NSECStatusNXDOMAIN.nsec_names_covering_qname (NSECStatusNXDOMAIN.self s)
                  = NSECStatusNXDOMAIN.nsec_names_covering_qname f0)
      by (injection E as <-; reflexivity).
    assert (Hcw : NSECStatusNXDOMAIN.nsec_names_covering_wildcard
                    (NSECStatusNXDOMAIN.self s) = [])
      by (injection E as <-; reflexivity).
    assert (Hret : NSECStatusNXDOMAIN.nsec_set_info s
                   = NSECStatusNXDOMAIN.retain (p_status p)
                       (dict_values (NSECStatusNXDOMAIN.nsec_names_covering_qname f0)) v)
      by (injection E as <-; reflexivity).
    clear E. subst f.
    destruct (nsec_meta_returns s v _ _ Hret Hown) as (m & Em & Hkeys);
      rewrite ?Hcq, ?Hcw; try assumption;
      [constructor | intros x Hx; exact Hx | intros x [] |].
    rewrite Hcq, Hcw in Hkeys. cbn [truthy app] in Hkeys.
    destruct (nsec_serialize_from_meta s ser cc loglevel m Em Hk) as (d & Ed & _ & Hmeta).
    unfold NSECStatusWildcard_serialize.serialize. rewrite Ed. cbn [bind].
    rewrite Hmeta.
    destruct (loglevel <=? logging_DEBUG).
    + assert (Hhas : has_key "wildcard" m = true).
      { apply has_key_In. rewrite Hkeys. right.
        destruct (truthy _); [right |]; left; reflexivity. }
      unfold delitem. rewrite Hhas. cbn [bind try_KeyError].
      eexists. split; [reflexivity |].
      unfold meta_keys. rewrite dict_get_setitem_same, dict_keys_filter, Hkeys.
      destruct (truthy _); reflexivity.
    + cbn [try_KeyError]. exists d. split; [reflexivity |].
      unfold meta_keys. rewrite Hmeta. reflexivity.
Qed.

(** X18 at scenario 5 of the specification, serialized at level DEBUG *)
Lemma X18_nsec_serialize_reads_retained_view_witness :
  covering_owned SampleViews.nxdomain_view
  /\ exists s d,
      NSECStatusNXDOMAIN.__init__ SampleViews.foo 1 Samples.zone
        SampleViews.nxdomain_view = Ok s
      /\ NSECStatusNXDOMAIN_serialize.serialize s None true logging_DEBUG = Ok d
      /\ meta_keys d
         = Some ["qname"; "nsec_chain_covering_qname"; "wildcard";
                 "nsec_chain_covering_wildcard"].
Proof.
  split; [exact nxdomain_view_covering_owned |].
  destruct (NSECStatusNXDOMAIN.__init__ SampleViews.foo 1 Samples.zone
              SampleViews.nxdomain_view) as [s | e] eqn:E;
    [| vm_compute in E; discriminate E].
  destruct (X18_nsec_serialize_reads_retained_view SampleViews.foo SampleViews.foo 1
              Samples.zone SampleViews.nxdomain_view None true logging_DEBUG
              nxdomain_view_covering_owned) as [H _].
  destruct (H s E) as (d & Ed & Hmeta).
  exists s, d. split; [reflexivity |]. split; [exact Ed |].
  rewrite Hmeta. vm_compute in E. inversion E. reflexivity.
Defined.

(* ------------------------------------------------------------------ *)
(** ** NSECStatusNoAnswer: serialization reads the retained view *)

Lemma chain_project (label : string) (v : NSECSet.t) (names : list name)
    (covering : list (name * name_set)) :
  covering_owned v ->
  covering_from_nsec v covering ->
  match first_covering_name covering with
  | None =>
      covering = []
      /\ NSECStatusNXDOMAIN_serialize.chain label covering (NSECSet.project v names)
         = Ok None
  | Some n =>
      covering <> []
      /\ (exists info, NSECSet.rrsets_getitem v n = Ok info)
      /\ if name_mem n names
         then exists x,
             NSECStatusNXDOMAIN_serialize.chain label covering (NSECSet.project v names)
             = Ok (Some x)
         else NSECStatusNXDOMAIN_serialize.chain label covering (NSECSet.project v names)
              = Raise KeyError
  end.
Proof.
  intros Hown Hcov. destruct covering as [| [k ns] rest]; cbn.
  - auto.
  - inversion Hcov as [| x l [Hne Heq] _]. subst. cbn [fst snd] in *.
    destruct ns as [| n ns]; [congruence |].
    destruct (Hown k n) as [info Hinfo]; [rewrite <- Heq; left; reflexivity |].
    split; [discriminate |]. split; [eauto |].
    rewrite getitem_project, Hinfo.
    destruct (name_mem n names); cbn; eauto.
Qed.

Lemma noanswer_serialize_meta_ok (s : NSECStatusNoAnswer.t)
    (ser : option NSECStatusNXDOMAIN_serialize.serializer_t) (cc : bool) (loglevel : Z)
    (m : ordered_dict) :
  NSECStatusNoAnswer_serialize.meta s = Ok m ->
  status_known nsec_status_mapping (NSECStatusNoAnswer.validation_status s) ->
  exists d,
    NSECStatusNoAnswer_serialize.serialize s ser cc loglevel = Ok d
    /\ dict_get String.eqb "meta" d
       = if loglevel <=? logging_DEBUG then Some (VDict m) else None.
Proof.
  intros Hm Hk. destruct (status_getitem_known _ _ Hk) as [text Htext].
  unfold NSECStatusNoAnswer_serialize.serialize,
    NSECStatusNoAnswer_serialize.show_basic, show_findings, serialize_findings.
  cbv zeta. rewrite Hm, Htext.
  cbv [logging_INFO logging_DEBUG logging_WARNING logging_ERROR].
  destruct (NSECStatusNXDOMAIN_serialize.nsec_list _ ser cc loglevel) as [| x xs];
    destruct (NSECStatusNoAnswer.validation_status s =? STATUS_VALID);
    destruct (NSECStatusNoAnswer.warnings s) as [| w ws];
    destruct (NSECStatusNoAnswer.errors s) as [| e es];
    destruct (Z.leb_spec loglevel 10); destruct (Z.leb_spec loglevel 20);
    destruct (Z.leb_spec loglevel 30); destruct (Z.leb_spec loglevel 40);
    try lia;
    cbn; (eexists; split; reflexivity).
Qed.

Lemma noanswer_serialize_meta_raise (s : NSECStatusNoAnswer.t)
    (ser : option NSECStatusNXDOMAIN_serialize.serializer_t) (cc : bool) (loglevel : Z)
    (e : exn) :
  NSECStatusNoAnswer_serialize.meta s = Raise e ->
  status_known nsec_status_mapping (NSECStatusNoAnswer.validation_status s) ->
  if loglevel <=? logging_DEBUG
  then NSECStatusNoAnswer_serialize.serialize s ser cc loglevel = Raise e
  else exists d,
      NSECStatusNoAnswer_serialize.serialize s ser cc loglevel = Ok d
      /\ dict_get String.eqb "meta" d = None.
Proof.
  intros Hm Hk. destruct (status_getitem_known _ _ Hk) as [text Htext].
  unfold NSECStatusNoAnswer_serialize.serialize,
    NSECStatusNoAnswer_serialize.show_basic, show_findings, serialize_findings.
  cbv zeta. rewrite Hm, Htext.
  cbv [logging_INFO logging_DEBUG logging_WARNING logging_ERROR].
  destruct (NSECStatusNXDOMAIN_serialize.nsec_list _ ser cc loglevel) as [| x xs];
    destruct (NSECStatusNoAnswer.validation_status s =? STATUS_VALID);
    destruct (NSECStatusNoAnswer.warnings s) as [| w ws];
    destruct (NSECStatusNoAnswer.errors s) as [| e' es];
    destruct (Z.leb_spec loglevel 10); destruct (Z.leb_spec loglevel 20);
    destruct (Z.leb_spec loglevel 30); destruct (Z.leb_spec loglevel 40);
    try lia;
    cbn; try reflexivity; (eexists; split; reflexivity).
Qed.

Lemma nsec_noanswer_known (f : NSECStatusNoAnswer.fields) (v : NSECSet.t) p :
  NSECStatusNoAnswer.evaluate f v = Ok p ->
  status_known nsec_status_mapping (p_status p).
Proof.
  unfold NSECStatusNoAnswer.evaluate.
  split_checks; intros Ep; inv_ok;
    rewrite ?p_status_err, ?p_status_set_status; vm_compute; eauto.
Qed.

Lemma nsec_noanswer_covering (v : NSECSet.t) (qname : name) (rdtype : Z) (origin : name) f :
  NSECStatusNoAnswer.init_fields qname rdtype origin v = Ok f ->
  NSECStatusNoAnswer.nsec_names_covering_qname f
  = record_covering qname (NSECSet.nsec_covering_name v qname) [].
Proof.
  unfold NSECStatusNoAnswer.init_fields. intros E.
  apply bind_Ok in E. destruct E as ([[[[a b] c] d] e] & _ & E).
  apply bind_Ok in E. destruct E as ([[x y] z] & _ & E).
  injection E as <-. reflexivity.
Qed.

Lemma first_covering_cited (f : NSECStatusNoAnswer.fields) (n : name) :
  NSECStatusNoAnswer.nsec_for_qname f = None ->
  first_covering_name (NSECStatusNoAnswer.nsec_names_covering_qname f) = Some n ->
  In n (NSECStatusNoAnswer.cited f).
Proof.
  intros Hq Hn. unfold NSECStatusNoAnswer.cited. rewrite Hq.
  assert (H : In n (fold_left set_update
                      (dict_values (NSECStatusNoAnswer.nsec_names_covering_qname f))
                      (empty_set name))).
  { apply In_update_all. right.
    destruct (NSECStatusNoAnswer.nsec_names_covering_qname f) as [| [k [| x xs]] rest];
      try discriminate Hn.
    injection Hn as ->. exists k, (n :: xs). split; left; reflexivity. }
  destruct (NSECStatusNoAnswer.nsec_for_wildcard_name f); [| exact H].
  apply set_add_iff. right. exact H.
Qed.

(** X19: NSECStatusNoAnswer.serialize on an object the constructor built
    over a view whose covering names are owners it holds.  Above level DEBUG
    it always returns.  At level DEBUG it returns with [meta] holding qname,
    nsec_matching_qname when an NSEC matches, the chain covering qname when
    there is one, wildcard, and nsec_matching_wildcard when a wildcard NSEC
    was found; the one lookup it makes in the retained view,
    [rrsets[nsec_name]] of the first covering name, can only raise
    [KeyError] on a VALID object with a matching NSEC whose projection left
    that covering name out.  Without a matching NSEC it returns at every
    level. *)
Theorem X19_nsec_noanswer_serialize :
  forall (qname : name) (rdtype : Z) (origin : name) (v : NSECSet.t)
         (s : NSECStatusNoAnswer.t)
         (rrset_info_serializer : option NSECStatusNXDOMAIN_serialize.serializer_t)
         (consolidate_clients : bool) (loglevel : Z),
    covering_owned v ->
    NSECStatusNoAnswer.__init__ qname rdtype origin v = Ok s ->
    let f := NSECStatusNoAnswer.self s in
    match NSECStatusNoAnswer_serialize.serialize s rrset_info_serializer
            consolidate_clients loglevel with
    | Ok d =>
        meta_keys d
        = if loglevel <=? logging_DEBUG
          then Some (["qname"]
                     ++ (match NSECStatusNoAnswer.nsec_for_qname f with Some _ =>
                         ["nsec_matching_qname"] | None => [] end)
                     ++ (if truthy (NSECStatusNoAnswer.nsec_names_covering_qname f)
                         then ["nsec_chain_covering_qname"] else [])
                     ++ ["wildcard"]
                     ++ (match NSECStatusNoAnswer.nsec_for_wildcard_name f with Some _ =>
                         ["nsec_matching_wildcard"] | None => [] end))
          else None
    | Raise e =>
        e = KeyError
        /\ loglevel <= logging_DEBUG
        /\ NSECStatusNoAnswer.validation_status s = NSEC_STATUS_VALID
        /\ NSECStatusNoAnswer.nsec_for_qname f <> None
        /\ exists n,
            first_covering_name (NSECStatusNoAnswer.nsec_names_covering_qname f) = Some n
            /\ ~ In n (NSECStatusNoAnswer.cited f)
    end.
Proof.
  intros qname rdtype origin v s ser cc loglevel Hown E f.
  unfold NSECStatusNoAnswer.__init__ in E.
  apply bind_Ok in E. destruct E as (w0 & _ & E).
  apply bind_Ok in E. destruct E as (f0 & Ef & E).
  unfold NSECStatusNoAnswer._set_validation_status in E.
  apply bind_Ok in E. destruct E as (p & Ep & E).
  pose proof (nsec_noanswer_known f0 v p Ep) as Hk.
  assert (Hcov : covering_from_nsec v (NSECStatusNoAnswer.nsec_names_covering_qname f0)).
  { rewrite (nsec_noanswer_covering v qname rdtype origin f0 Ef).
    apply record_covering_from_nsec. }
  set (names := if p_status p =? NSEC_STATUS_VALID
                then NSECStatusNoAnswer.cited f0 else NSECSet.owners v).
  assert (Hs : s = {| NSECStatusNoAnswer.self := f0;
                      NSECStatusNoAnswer.warnings := p_warnings p;
                      NSECStatusNoAnswer.errors := p_errors p;
                      NSECStatusNoAnswer.validation_status := p_status p;
                      NSECStatusNoAnswer.nsec_set_info := NSECSet.project v names |}).
  { injection E as <-. unfold names. destruct (_ =? _); reflexivity. }
  clear E. subst f. subst s.
  cbn [NSECStatusNoAnswer.self NSECStatusNoAnswer.validation_status].
  pose proof (chain_project "qname" v names _ Hown Hcov) as Hchain.
  match goal with
  | |- match NSECStatusNoAnswer_serialize.serialize ?s0 _ _ _ with _ => _ end =>
      set (s := s0) in *
  end.
  assert (Hmeta : forall c,
             NSECStatusNXDOMAIN_serialize.chain "qname"
               (NSECStatusNoAnswer.nsec_names_covering_qname f0) (NSECSet.project v names)
             = Ok c ->
             (c <> None <-> NSECStatusNoAnswer.nsec_names_covering_qname f0 <> []) ->
             exists m,
               NSECStatusNoAnswer_serialize.meta s = Ok m
               /\ dict_keys m
                  = ["qname"]
                    ++ (match NSECStatusNoAnswer.nsec_for_qname f0 with Some _ =>
                        ["nsec_matching_qname"] | None => [] end)
                    ++ (if truthy (NSECStatusNoAnswer.nsec_names_covering_qname f0)
                        then ["nsec_chain_covering_qname"] else [])
                    ++ ["wildcard"]
                    ++ (match NSECStatusNoAnswer.nsec_for_wildcard_name f0 with Some _ =>
                        ["nsec_matching_wildcard"] | None => [] end)).
  { intros c Ec Hc. unfold NSECStatusNoAnswer_serialize.meta.
    cbn [NSECStatusNoAnswer.self NSECStatusNoAnswer.nsec_set_info s].
    rewrite Ec. cbn [bind]. eexists. split; [reflexivity |].
    destruct (NSECStatusNoAnswer.nsec_for_qname f0);
      destruct (NSECStatusNoAnswer.nsec_for_wildcard_name f0);
      destruct c as [x |];
      destruct (NSECStatusNoAnswer.nsec_names_covering_qname f0) as [| a l];
      try reflexivity;
      destruct Hc as [Hc1 Hc2]; exfalso;
      first [ apply Hc1; [discriminate | reflexivity]
            | apply Hc2; [discriminate | reflexivity] ]. }
  assert (Hgood : forall m,
             NSECStatusNoAnswer_serialize.meta s = Ok m ->
             dict_keys m
             = ["qname"]
               ++ (match NSECStatusNoAnswer.nsec_for_qname f0 with Some _ =>
                   ["nsec_matching_qname"] | None => [] end)
               ++ (if truthy (NSECStatusNoAnswer.nsec_names_covering_qname f0)
                   then ["nsec_chain_covering_qname"] else [])
               ++ ["wildcard"]
               ++ (match NSECStatusNoAnswer.nsec_for_wildcard_name f0 with Some _ =>
                   ["nsec_matching_wildcard"] | None => [] end) ->
             match NSECStatusNoAnswer_serialize.serialize s ser cc loglevel with
             | Ok d =>
                 meta_keys d
                 = if loglevel <=? logging_DEBUG
                   then Some (["qname"]
                              ++ (match NSECStatusNoAnswer.nsec_for_qname f0 with Some _ =>
                                  ["nsec_matching_qname"] | None => [] end)
                              ++ (if truthy (NSECStatusNoAnswer.nsec_names_covering_qname f0)
                                  then ["nsec_chain_covering_qname"] else [])
                              ++ ["wildcard"]
                              ++ (match NSECStatusNoAnswer.nsec_for_wildcard_name f0 with Some _ =>
                                  ["nsec_matching_wildcard"] | None => [] end))
                   else None
             | Raise e =>
                 e = KeyError
                 /\ loglevel <= logging_DEBUG
                 /\ p_status p = NSEC_STATUS_VALID
                 /\ NSECStatusNoAnswer.nsec_for_qname f0 <> None
                 /\ exists n,
                     first_covering_name (NSECStatusNoAnswer.nsec_names_covering_qname f0)
                     = Some n
                     /\ ~ In n (NSECStatusNoAnswer.cited f0)
             end).
  { intros m Em Hkeys.
    destruct (noanswer_serialize_meta_ok s ser cc loglevel m Em Hk) as (d & Ed & Hd).
    rewrite Ed. unfold meta_keys. rewrite Hd.
    destruct (loglevel <=? logging_DEBUG); [rewrite Hkeys |]; reflexivity. }
  destruct (first_covering_name (NSECStatusNoAnswer.nsec_names_covering_qname f0))
    as [n |] eqn:En.
  - destruct Hchain as (Hne & [info Hinfo] & Hchain).
    destruct (name_mem n names) eqn:Emem.
    + destruct Hchain as [x Ex].
      destruct (Hmeta (Some x) Ex) as (m & Em & Hkeys);
        [split; [intros _; exact Hne | discriminate] |].
      exact (Hgood m Em Hkeys).
    + assert (Em : NSECStatusNoAnswer_serialize.meta s = Raise KeyError).
      { unfold NSECStatusNoAnswer_serialize.meta.
        cbn [NSECStatusNoAnswer.self NSECStatusNoAnswer.nsec_set_info s].
        rewrite Hchain. reflexivity. }
      pose proof (noanswer_serialize_meta_raise s ser cc loglevel KeyError Em Hk) as Hr.
      destruct (Z.leb_spec loglevel logging_DEBUG) as [Hle | Hgt].
      * rewrite Hr. split; [reflexivity |]. split; [exact Hle |].
        assert (Hvalid : p_status p = NSEC_STATUS_VALID).
        { destruct (Z.eqb_spec (p_status p) NSEC_STATUS_VALID) as [H | H]; [exact H |].
          exfalso. unfold names in Emem.
          apply getitem_owner, name_mem_In in Hinfo. congruence. }
        split; [exact Hvalid |].
        assert (Hnot : ~ In n (NSECStatusNoAnswer.cited f0)).
        { intros Hin. unfold names in Emem. rewrite Hvalid, Z.eqb_refl in Emem.
          apply name_mem_In in Hin. congruence. }
        split; [| eauto].
        intros Hq. apply Hnot. apply first_covering_cited; assumption.
      * destruct Hr as (d & Ed & Hd). rewrite Ed. unfold meta_keys. rewrite Hd.
        reflexivity.
  - destruct Hchain as [Hnil Ec].
    destruct (Hmeta None Ec) as (m & Em & Hkeys);
      [split; [intros C; congruence | intros C; congruence] |].
    exact (Hgood m Em Hkeys).
Qed.

(** X19 for the apex NSEC of the view of scenario 5, queried for MX and
    serialized at level DEBUG *)
Lemma X19_nsec_noanswer_serialize_witness :
  covering_owned SampleViews.nxdomain_view
  /\ exists s d,
      NSECStatusNoAnswer.__init__ Samples.zone 15 Samples.zone
        SampleViews.nxdomain_view = Ok s
      /\ NSECStatusNoAnswer_serialize.serialize s None true logging_DEBUG = Ok d
      /\ meta_keys d = Some ["qname"; "nsec_matching_qname"; "wildcard"].
Proof.
  split; [exact nxdomain_view_covering_owned |].
  destruct (NSECStatusNoAnswer.__init__ Samples.zone 15 Samples.zone
              SampleViews.nxdomain_view) as [s | e] eqn:E;
    [| vm_compute in E; discriminate E].
  pose proof (X19_nsec_noanswer_serialize Samples.zone 15 Samples.zone
                SampleViews.nxdomain_view s None true logging_DEBUG
                nxdomain_view_covering_owned E) as H.
  cbv zeta in H.
  exists s.
  destruct (NSECStatusNoAnswer_serialize.serialize s None true logging_DEBUG)
    as [d | e] eqn:Ed.
  - exists d. split; [reflexivity |]. split; [reflexivity |].
    rewrite H. vm_compute in E. inversion E. reflexivity.
  - exfalso. destruct H as (_ & _ & _ & _ & n & Hn & _).
    vm_compute in E. inversion E. subst s. discriminate Hn.
Defined.

(* ------------------------------------------------------------------ *)
(** ** NSEC3StatusNoAnswer: the opt-out NSEC3 covering the next closer name *)

Section NextCloserCovered.

Variables (v : NSECSet.t) (origin l : name) (x : label) (encloser : name).
Variables (salt : bytes) (alg iterations : Z) (d : name).

Hypothesis Hdigest :
  NSECSet.get_digest_name_for_nsec3 v (x :: encloser) origin salt alg iterations = Some d.
Hypothesis Hcover : NSECSet.nsec3_covering_name v d salt alg iterations <> [].
Hypothesis Hone :
  digest_of_one_tuple v (l ++ x :: encloser) origin (salt, alg, iterations) d.

Lemma record_covering_recorded e d' salt' alg' iterations' names' cq :
  In e (dict_keys (NSECSet.get_closest_encloser v (l ++ x :: encloser) origin)) ->
  In ((salt', alg', iterations'), names') (NSECSet.nsec3_params v) ->
  NSECSet.get_digest_name_for_nsec3 v
    (_get_next_closest_encloser (l ++ x :: encloser) e) origin salt' alg' iterations'
  = Some d' ->
  covering_recorded v salt alg iterations d cq ->
  covering_recorded v salt alg iterations d
    (record_covering d' (NSECSet.nsec3_covering_name v d' salt' alg' iterations') cq).
Proof.
  unfold covering_recorded. intros He Hin Hd' Hcq. unfold record_covering.
  destruct (truthy _); [| exact Hcq].
  rewrite (dict_get_set name_eqb d' d _ cq name_eqb_eq).
  destruct (name_eqb d d') eqn:E; [| exact Hcq].
  apply name_eqb_eq in E. subst d'.
  pose proof (Hone e salt' alg' iterations' names' He Hin Hd') as Hk.
  injection Hk as -> -> ->. reflexivity.
Qed.

Lemma next_closer_step_recorded key names' e s :
  In e (dict_keys (NSECSet.get_closest_encloser v (l ++ x :: encloser) origin)) ->
  In (key, names') (NSECSet.nsec3_params v) ->
  covering_recorded v salt alg iterations d (NSEC3StatusNoAnswer.q_covering_qname s) ->
  covering_recorded v salt alg iterations d
    (NSEC3StatusNoAnswer.q_covering_qname
       (NSEC3StatusNoAnswer.next_closer_step v (l ++ x :: encloser) origin key s e)).
Proof.
  destruct key as [[salt' alg'] iterations']. intros He Hin Hs.
  unfold NSEC3StatusNoAnswer.next_closer_step. cbn.
  destruct (NSECSet.get_digest_name_for_nsec3 v _ origin salt' alg' iterations')
    as [d' |] eqn:Ed; [| exact Hs].
  eapply record_covering_recorded; eassumption.
Qed.

Lemma next_closer_step_records s :
  covering_recorded v salt alg iterations d
    (NSEC3StatusNoAnswer.q_covering_qname
       (NSEC3StatusNoAnswer.next_closer_step v (l ++ x :: encloser) origin
          (salt, alg, iterations) s encloser)).
Proof.
  unfold covering_recorded, NSEC3StatusNoAnswer.next_closer_step,
    _get_next_closest_encloser. cbn.
  rewrite Nat.add_1_r, labels_last_next, Hdigest.
  unfold record_covering.
  destruct (NSECSet.nsec3_covering_name v d salt alg iterations) as [| c cs] eqn:Ec;
    [congruence |].
  cbn [truthy].
  rewrite (dict_get_set name_eqb d d _ _ name_eqb_eq), name_eqb_refl. reflexivity.
Qed.

Lemma next_closer_fold_recorded key names' enclosers :
  incl enclosers
    (dict_keys (NSECSet.get_closest_encloser v (l ++ x :: encloser) origin)) ->
  In (key, names') (NSECSet.nsec3_params v) ->
  forall s,
    let s' := fold_left (NSEC3StatusNoAnswer.next_closer_step v (l ++ x :: encloser)
                           origin key) enclosers s in
    (covering_recorded v salt alg iterations d (NSEC3StatusNoAnswer.q_covering_qname s) ->
     covering_recorded v salt alg iterations d (NSEC3StatusNoAnswer.q_covering_qname s'))
    /\ (key = (salt, alg, iterations) -> In encloser enclosers ->
        covering_recorded v salt alg iterations d
          (NSEC3StatusNoAnswer.q_covering_qname s')).
Proof.
  intros Hincl Hin. induction enclosers as [| e rest IH]; intros s; cbn [fold_left].
  - split; [auto | intros _ []].
  - destruct (IH (fun y Hy => Hincl y (or_intror Hy))
                (NSEC3StatusNoAnswer.next_closer_step v (l ++ x :: encloser) origin
                   key s e)) as [Hkeep Hthere].
    split.
    + intros Hs. apply Hkeep.
      eapply next_closer_step_recorded; [apply Hincl; left; reflexivity | eassumption ..].
    + intros Hk [-> | Hrest]; [| auto].
      subst key. apply Hkeep. apply next_closer_step_records.
Qed.

Lemma params_loop2_recorded rdtype params :
  let ce := NSECSet.get_closest_encloser v (l ++ x :: encloser) origin in
  incl params (NSECSet.nsec3_params v) ->
  (forall m, ~ matched_by v origin (l ++ x :: encloser) m) ->
  forall s s',
    memo_sound v origin (NSEC3StatusNoAnswer.q_map s) ->
    for_each (NSEC3StatusNoAnswer.params_step2 v (l ++ x :: encloser) origin rdtype ce)
      params s = Ok s' ->
    (covering_recorded v salt alg iterations d (NSEC3StatusNoAnswer.q_covering_qname s) ->
     covering_recorded v salt alg iterations d (NSEC3StatusNoAnswer.q_covering_qname s'))
    /\ (In encloser (dict_keys ce) ->
        (exists names, In ((salt, alg, iterations), names) params) ->
        covering_recorded v salt alg iterations d
          (NSEC3StatusNoAnswer.q_covering_qname s')).
Proof.
  intros ce Hincl Hnomatch.
  induction params as [| [[[salt' alg'] iterations'] names'] rest IH];
    intros s s' Hm E; cbn [for_each] in E.
  - injection E as <-. split; [auto | intros _ [names []]].
  - apply bind_Ok in E. destruct E as (s1 & E1 & E).
    assert (Hin : In ((salt', alg', iterations'), names') (NSECSet.nsec3_params v))
      by (apply Hincl; left; reflexivity).
    assert (Hrest : incl rest (NSECSet.nsec3_params v))
      by (intros y Hy; apply Hincl; right; exact Hy).
    destruct (next_closer_loop_ok v (l ++ x :: encloser) origin salt' alg' iterations'
                (dict_keys ce) s Hm) as (Hm1 & _ & _).
    destruct (next_closer_fold_recorded (salt', alg', iterations') names'
                (dict_keys ce) (incl_refl _) Hin s) as [Hkeep Hthere].
    assert (Es1 : s1 = fold_left
                         (NSEC3StatusNoAnswer.next_closer_step v (l ++ x :: encloser)
                            origin (salt', alg', iterations')) (dict_keys ce) s).
    { unfold NSEC3StatusNoAnswer.params_step2 in E1. cbn [fst snd] in E1.
      apply bind_Ok in E1. destruct E1 as (dn & Edn & E1).
      apply Hm in Edn. subst dn.
      destruct (NSECSet.get_digest_name_for_nsec3 v (l ++ x :: encloser) origin salt'
                  alg' iterations') as [d0 |] eqn:Ed0.
      - destruct (digest_in (Some d0) names') eqn:Ein.
        + exfalso. apply (Hnomatch d0). exists salt', alg', iterations', names'.
          split; [exact Hin |]. split; [exact Ed0 |].
          apply name_mem_In. exact Ein.
        + injection E1 as <-. reflexivity.
      - injection E1 as <-. reflexivity. }
    subst s1.
    destruct (IH Hrest _ s' Hm1 E) as [Hkeep' Hthere'].
    split.
    + intros Hs. apply Hkeep', Hkeep, Hs.
    + intros Hce [names [Hhere | Hlater]].
      * injection Hhere as -> -> -> ->. apply Hkeep'.
        apply Hthere; [reflexivity | exact Hce].
      * apply Hthere'; [exact Hce | eauto].
Qed.

End NextCloserCovered.

(** C8: an NSEC3 NODATA evaluation for DS, stated on the view the
    constructor reads.  [qname] is [l ++ x :: encloser], where [encloser] is
    one of the closest enclosers the view reports, so that the next closer
    name is [x :: encloser].  If no NSEC3 of the view matches the digest of
    [qname] under its parameter tuple, none matches the digest of the
    wildcard of a closest encloser, and a name [n] with the opt-out flag
    (flag bit 0) is among the NSEC3 names the view reports as covering the
    digest [d] of the next closer name under a tuple of [nsec3_params], then
    the constructor returns with status VALID, no error and [opt_out] set.
    The view keeps its contracts ([params_owned], [nsec3_covering_owned]:
    the names it lists are owners it holds), and no next closer name the
    loop hashes has the digest [d] under another tuple,
    [nsec_names_covering_qname] being keyed by the digest alone
    (line 1070). *)
Theorem C8_nsec3_nodata_ds_opt_out :
  forall (l : name) (x : label) (encloser origin : name) (v : NSECSet.t)
         (salt : bytes) (alg iterations : Z) (names : name_set) (d n : name),
    params_owned v ->
    nsec3_covering_owned v ->
    (forall m, ~ matched_by v origin (l ++ x :: encloser) m) ->
    (forall e m,
        In e (dict_keys (NSECSet.get_closest_encloser v (l ++ x :: encloser) origin)) ->
        ~ matched_by v origin (_get_wildcard e) m) ->
    In encloser (dict_keys (NSECSet.get_closest_encloser v (l ++ x :: encloser) origin)) ->
    In ((salt, alg, iterations), names) (NSECSet.nsec3_params v) ->
    NSECSet.get_digest_name_for_nsec3 v (x :: encloser) origin salt alg iterations
    = Some d ->
    In n (NSECSet.nsec3_covering_name v d salt alg iterations) ->
    opt_out_flagged v n = true ->
    digest_of_one_tuple v (l ++ x :: encloser) origin (salt, alg, iterations) d ->
    exists s,
      NSEC3StatusNoAnswer.__init__ (l ++ x :: encloser) rdatatype_DS origin v = Ok s
      /\ NSEC3StatusNoAnswer.validation_status s = NSEC_STATUS_VALID
      /\ NSEC3StatusNoAnswer.errors s = []
      /\ NSEC3StatusNoAnswer.opt_out s = true.
Proof.
  intros l x encloser origin v salt alg iterations names d n Hown Hcown Hnoq Hnow
    Hence Hin Hdigest Hn Hflag Hone.
  assert (Hcover : NSECSet.nsec3_covering_name v d salt alg iterations <> [])
    by (intros E; rewrite E in Hn; exact Hn).
  destruct (params_loop1_ok v (l ++ x :: encloser) origin rdatatype_DS
              (NSECSet.get_closest_encloser v (l ++ x :: encloser) origin)
              (NSECSet.nsec3_params v) Hown
              {| NSEC3StatusNoAnswer.w_map := [];
                 NSEC3StatusNoAnswer.w_nsec_for_wildcard_name := empty_set name;
                 NSEC3StatusNoAnswer.w_has_rdtype := false;
                 NSEC3StatusNoAnswer.w_has_cname := false |})
    as (w & Ew & Hmw & _ & Hkeys & Hsetw).
  { apply memo_sound_nil. }
  destruct (params_loop2_ok v (l ++ x :: encloser) origin rdatatype_DS
              (NSECSet.get_closest_encloser v (l ++ x :: encloser) origin)
              (NSECSet.nsec3_params v) Hown
              {| NSEC3StatusNoAnswer.q_map := NSEC3StatusNoAnswer.w_map w;
                 NSEC3StatusNoAnswer.q_nsec_for_qname := empty_set name;
                 NSEC3StatusNoAnswer.q_has_rdtype := false;
                 NSEC3StatusNoAnswer.q_has_cname := false;
                 NSEC3StatusNoAnswer.q_has_ns := false;
                 NSEC3StatusNoAnswer.q_has_ds := false;
                 NSEC3StatusNoAnswer.q_has_soa := false;
                 NSEC3StatusNoAnswer.q_covering_qname := [] |})
    as (q & Eq & _ & Hsetq).
  { exact Hmw. }
  { exact Hkeys. }
  destruct (params_loop2_recorded v origin l x encloser salt alg iterations d Hdigest
              Hcover Hone rdatatype_DS (NSECSet.nsec3_params v) (incl_refl _) Hnoq
              {| NSEC3StatusNoAnswer.q_map := NSEC3StatusNoAnswer.w_map w;
                 NSEC3StatusNoAnswer.q_nsec_for_qname := empty_set name;
                 NSEC3StatusNoAnswer.q_has_rdtype := false;
                 NSEC3StatusNoAnswer.q_has_cname := false;
                 NSEC3StatusNoAnswer.q_has_ns := false;
                 NSEC3StatusNoAnswer.q_has_ds := false;
                 NSEC3StatusNoAnswer.q_has_soa := false;
                 NSEC3StatusNoAnswer.q_covering_qname := [] |} q Hmw Eq)
    as [_ Hrec].
  specialize (Hrec Hence (ex_intro _ names Hin)).
  unfold covering_recorded in Hrec.
  destruct (dict_get_In _ _ _ _ Hrec) as [d' Hd'].
  assert (Hinit : exists f,
             NSEC3StatusNoAnswer.init_fields (l ++ x :: encloser) rdatatype_DS origin v
             = Ok f
             /\ NSEC3StatusNoAnswer.nsec_for_qname f
                = NSEC3StatusNoAnswer.q_nsec_for_qname q
             /\ NSEC3StatusNoAnswer.nsec_for_wildcard_name f
                = NSEC3StatusNoAnswer.w_nsec_for_wildcard_name w
             /\ NSEC3StatusNoAnswer.nsec_names_covering_qname f
                = NSEC3StatusNoAnswer.q_covering_qname q).
  { unfold NSEC3StatusNoAnswer.init_fields. rewrite Ew. cbn [bind].
    rewrite Eq. cbn [bind]. eexists. split; [reflexivity |]. cbn. auto. }
  destruct Hinit as (f & Ef & Hfq & Hfw & Hfc).
  apply (nsec3_noanswer_opt_out_valid _ origin v f Ef).
  - rewrite Hfq.
    destruct (NSEC3StatusNoAnswer.q_nsec_for_qname q) as [| d0 rest] eqn:E0;
      [reflexivity |].
    exfalso. apply (Hnoq d0).
    assert (H0 : In d0 (d0 :: rest)) by (left; reflexivity).
    apply Hsetq in H0. destruct H0 as [[] | H]. exact H.
  - rewrite Hfw.
    destruct (NSEC3StatusNoAnswer.w_nsec_for_wildcard_name w) as [| d0 rest] eqn:E0;
      [reflexivity |].
    exfalso.
    assert (H0 : In d0 (d0 :: rest)) by (left; reflexivity).
    apply Hsetw in H0. destruct H0 as [[] | (e & s' & a' & i' & n' & He & H)].
    apply (Hnow e d0 He). exists s', a', i', n'. exact H.
  - apply covering_from_view_held; [exact Hcown |].
    apply (noanswer_init_from_view v _ _ _ f Ef).
  - exists d', (NSECSet.nsec3_covering_name v d salt alg iterations), n.
    rewrite Hfc. auto.
Qed.

(** C8 at scenario 6 of the specification: DS of [foo.example.], closest
    encloser [example.], the NSEC3 owner [h-m] covers the digest of
    [foo.example.] and has the opt-out flag *)
Lemma C8_nsec3_nodata_ds_opt_out_witness :
  exists s,
    NSEC3StatusNoAnswer.__init__ SampleViews.foo rdatatype_DS Samples.zone
      SampleViews.opt_out_view = Ok s
    /\ NSEC3StatusNoAnswer.validation_status s = NSEC_STATUS_VALID
    /\ NSEC3StatusNoAnswer.errors s = []
    /\ NSEC3StatusNoAnswer.opt_out s = true.
Proof.
  apply (C8_nsec3_nodata_ds_opt_out [] "foo" Samples.zone Samples.zone
           SampleViews.opt_out_view [] 1 10
           (dict_keys (NSECSet.rrsets SampleViews.opt_out_view))
           (SampleViews.h "h-foo") (SampleViews.h "h-m")).
  - intros key names d [Hk | []] Hd. injection Hk as <- <-.
    destruct Hd as [<- | [<- | []]]; eexists; vm_compute; reflexivity.
  - intros d salt alg iterations y Hy.
    cbn in Hy. unfold SampleViews.lookup_set, dict_get in Hy.
    cbn [find fst snd] in Hy.
    destruct (name_eqb d (SampleViews.h "h-foo")); cbn in Hy; [| destruct Hy].
    destruct Hy as [<- | []]. eexists. vm_compute. reflexivity.
  - intros m (s' & a' & i' & n' & [Hk | []] & Hd & Hm).
    injection Hk as <- <- <- <-. vm_compute in Hd. injection Hd as <-.
    destruct Hm as [Hm | [Hm | []]]; discriminate Hm.
  - intros e m [<- | []] (s' & a' & i' & n' & [Hk | []] & Hd & Hm).
    injection Hk as <- <- <- <-. vm_compute in Hd. injection Hd as <-.
    destruct Hm as [Hm | [Hm | []]]; discriminate Hm.
  - left. reflexivity.
  - left. reflexivity.
  - reflexivity.
  - left. reflexivity.
  - reflexivity.
  - intros e s' a' i' n' _ [Hk | []] _. injection Hk as <- <- <- _. reflexivity.
Defined.

